(** * pqiv thumbnail cache (lib/thumbnailcache.c): a shallow embedding

    The development follows the C file top to bottom: the CRC of the PNG
    specification, C-string and buffer primitives, the chunk scanner
    [check_png_attributes], the stream interceptor [png_writer], and the
    two public entry points [load_thumbnail_from_cache] and
    [store_thumbnail_to_cache] over an explicit model of the file system.

    Conventions.  A byte is an integer in [0, 256); files and buffers are
    [list Z].  [unsigned long] is 64 bits wide and [unsigned] 32 bits wide
    (LP64); where a C operation can wrap, the reduction is written out.
    A call either returns or performs an access that C leaves undefined
    (a read past a buffer, a use after [g_free]); the second is a result
    of its own, not a value.  Functions of GLib, cairo and the rest of
    pqiv are parameters, collected in the class [Externals]. *)

From Stdlib Require Import ZArith Lia Bool String Ascii DecimalFacts.
From Stdlib Require Import DecimalN.
From stdpp Require Import base tactics option list gmap.
From Equations Require Import Equations.
From Equations.Prop Require Import Logic.

Local Open Scope Z_scope.

(** ** Bytes and string literals *)

Definition is_byte (b : Z) : Prop := 0 <= b < 256.

#[global] Instance is_byte_dec (b : Z) : Decision (is_byte b).
Proof. unfold is_byte. apply _. Defined.

(** The bytes of a string literal, without the terminating NUL. *)
Definition bytes_of_string (s : string) : list Z :=
  map (fun a => Z.of_N (N_of_ascii a)) (list_ascii_of_string s).

Notation "'B' s" := (bytes_of_string s%string) (at level 9, s at level 0, only parsing).

(** ** CRC calculation as per PNG TR, Annex D *)

Module Crc.

(** One pass of the inner [k] loop of [make_crc_table]. *)
Definition crc_round (c : Z) : Z :=
  if Z.land c 1 =? 0 then Z.shiftr c 1 else Z.lxor 0xedb88320 (Z.shiftr c 1).

(** [make_crc_table]: entry [n] is [n] after eight rounds, for [n] from 0
    to 255. *)
Definition make_crc_table : list Z :=
  map (fun n => Nat.iter 8 crc_round (Z.of_nat n)) (seq 0 256).

Definition table_at (crc_table : list Z) (i : Z) : Z :=
  nth (Z.to_nat i) crc_table 0.

(** The [for] loop of [crc]: one table lookup per byte of [buf]. *)
Fixpoint crc_loop (crc_table : list Z) (c : Z) (buf : list Z) : Z :=
  match buf with
  | [] => c
  | b :: buf' =>
      crc_loop crc_table
        (Z.lxor (table_at crc_table (Z.land (Z.lxor c b) 0xff)) (Z.shiftr c 8))
        buf'
  end.

(** [crc(crc, buf, len)], with [buf] holding the [len] bytes.  The table is
    written once, on first use, and never changes afterwards; this
    definition reads its value directly (see [crc_lazy] for the version
    with the two globals). *)
Definition crc (crc0 : Z) (buf : list Z) : Z :=
  Z.lxor (crc_loop make_crc_table (Z.lxor crc0 0xffffffff) buf) 0xffffffff.

(** The same function with the globals [crc_table] and
    [crc_table_computed] made explicit. *)
Record crc_globals := CrcGlobals {
  crc_table : list Z;
  crc_table_computed : bool
}.

Definition crc_globals_init : crc_globals :=
  {| crc_table := replicate 256 0; crc_table_computed := false |}.

Definition make_crc_table_st (g : crc_globals) : crc_globals :=
  {| crc_table := make_crc_table; crc_table_computed := true |}.

Definition crc_lazy (g : crc_globals) (crc0 : Z) (buf : list Z) : Z * crc_globals :=
  let g1 := if crc_table_computed g then g else make_crc_table_st g in
  (Z.lxor (crc_loop (crc_table g1) (Z.lxor crc0 0xffffffff) buf) 0xffffffff, g1).

(** The globals are consistent when the flag is clear or the table has been
    filled in. *)
Definition crc_globals_ok (g : crc_globals) : Prop :=
  crc_table_computed g = true -> crc_table g = make_crc_table.

(** *** Reference: bit-at-a-time CRC-32

    The reflected CRC-32 of ISO 3309 / ITU-T V.42 as PNG uses it, computed
    without a table: each message byte is folded into the low end of the
    register, which is then shifted right eight times, the polynomial
    0xEDB88320 being added whenever a one falls out. *)
Definition crc32_shift (c : Z) : Z :=
  Z.lxor (Z.shiftr c 1) (if Z.odd c then 0xEDB88320 else 0).

Definition crc32_byte (c b : Z) : Z := Nat.iter 8 crc32_shift (Z.lxor c b).

Definition crc32_reference (seed : Z) (msg : list Z) : Z :=
  Z.lxor (fold_left crc32_byte msg (Z.lxor seed 0xFFFFFFFF)) 0xFFFFFFFF.

End Crc.

(** ** C strings, buffers and byte order *)

Module CMem.

(** A C string is represented by the list of its characters, the
    terminating NUL left out; [strlen] is then the length of the list. *)
Definition strlen (s : list Z) : nat := length s.

(** [sizeof] of a string literal counts the terminating NUL. *)
Definition sizeof_lit (s : list Z) : nat := S (length s).

(** [strcmp(data, lit) == 0] where [data] points to a buffer that holds
    exactly the listed bytes and [lit] is a string literal.  [strcmp] reads
    both strings until they differ or both end; [None] records that it had
    to read [data] past the end of its allocation. *)
Fixpoint strcmp_is0 (data lit : list Z) : option bool :=
  match data with
  | [] => None
  | a :: data' =>
      match lit with
      | [] => Some (a =? 0)
      | c :: lit' => if a =? c then strcmp_is0 data' lit' else Some false
      end
  end.

(** [strncmp(p, s, n) == 0] where [p] points into a buffer of which the
    listed bytes remain and [s] is a C string.  At most [n] positions are
    compared; the comparison stops early at a difference or at the end of
    both strings.  [None]: a byte past the end of [p]'s allocation is read. *)
Fixpoint strncmp_is0 (p s : list Z) (n : nat) {struct n} : option bool :=
  match n with
  | O => Some true
  | S n' =>
      match p with
      | [] => None
      | a :: p' =>
          match s with
          | [] => Some (a =? 0)
          | c :: s' => if a =? c then strncmp_is0 p' s' n' else Some false
          end
      end
  end.

(** [ntohl( *(uint32_t * )buf)]: the first four bytes of [buf], most
    significant first. *)
Definition ntohl_at (buf : list Z) : Z :=
  match buf with
  | a :: b :: c :: d :: _ => ((a * 256 + b) * 256 + c) * 256 + d
  | _ => 0
  end.

(** The four bytes stored by [*(uint32_t * )p = htonl(v)]; the conversion
    of [v] to [uint32_t] reduces it modulo 2^32. *)
Definition htonl_bytes (v : Z) : list Z :=
  let v := v mod 2 ^ 32 in
  [v / 2 ^ 24; (v / 2 ^ 16) mod 256; (v / 2 ^ 8) mod 256; v mod 256].

(** [g_malloc(n)]: the contents are unspecified; the model fills the
    buffer with zeros (every buffer of this file is overwritten in full
    before it is read). *)
Definition g_malloc (n : nat) : list Z := replicate n 0.

(** Store [src] into [buf] starting at index [off] ([strcpy], or a store
    through a cast pointer).  All stores of this file are in bounds. *)
Definition poke (off : nat) (src buf : list Z) : list Z :=
  take off buf ++ src ++ drop (off + length src) buf.

(** [g_strdup_printf("%lu", t)] for a [time_t]: the value is read as an
    [unsigned long] and printed in decimal. *)
Fixpoint uint_digits (d : Decimal.uint) : list Z :=
  match d with
  | Decimal.Nil => []
  | Decimal.D0 d => 48 :: uint_digits d
  | Decimal.D1 d => 49 :: uint_digits d
  | Decimal.D2 d => 50 :: uint_digits d
  | Decimal.D3 d => 51 :: uint_digits d
  | Decimal.D4 d => 52 :: uint_digits d
  | Decimal.D5 d => 53 :: uint_digits d
  | Decimal.D6 d => 54 :: uint_digits d
  | Decimal.D7 d => 55 :: uint_digits d
  | Decimal.D8 d => 56 :: uint_digits d
  | Decimal.D9 d => 57 :: uint_digits d
  end.

Definition printf_lu (t : Z) : list Z :=
  uint_digits (N.to_uint (Z.to_N (t mod 2 ^ 64))).

(** What a call does: it returns a value, or it performs an access for
    which C defines no behaviour. *)
Inductive fault :=
  | ReadPastBuffer   (* a read past the end of a [g_malloc]ed buffer *)
  | UseAfterFree.    (* a read through a pointer after [g_free] *)

Inductive result (A : Type) :=
  | Returns (a : A)
  | Undefined (why : fault).
Arguments Returns {A} a.
Arguments Undefined {A} why.

Definition ReadsPastBuffer {A} : result A := Undefined ReadPastBuffer.

End CMem.

(** ** check_png_attributes *)

Module Scanner.
Import Crc CMem.

(** What a call of [check_png_attributes] does. *)
Definition outcome := result bool.

Definition expected_header : list Z := [137; 80; 78; 71; 13; 10; 26; 10].

(** [read(fd, buf, n)] on a file of which [fd] is the unread part: the
    bytes delivered (their number is the return value) and the new unread
    part.  The buffer is there: [g_malloc] does not return on failure. *)
Definition read (fd : list Z) (n : nat) : list Z * list Z := (take n fd, drop n fd).

(** [lseek(fd, off, SEEK_CUR)] with [off >= 0]; seeking past the end is
    allowed and leaves nothing to read. *)
Definition lseek_cur (fd : list Z) (off : Z) : list Z := drop (Z.to_nat off) fd.

(** The body of the [if(file_crc == actual_crc)] block up to the test of
    the two flags: the new values of [file_uri_match] and
    [file_mtime_match]. *)
Definition update_matches (file_uri : list Z) (file_mtime : Z) (data : list Z)
    (file_uri_match file_mtime_match : bool) : option (bool * bool) :=
  match strcmp_is0 data B"Thumb::URI" with
  | None => None
  | Some true =>
      match strncmp_is0 (drop (sizeof_lit B"Thumb::URI") data) file_uri (strlen file_uri) with
      | None => None
      | Some r => Some (r, file_mtime_match)
      end
  | Some false =>
      match strcmp_is0 data B"Thumb::MTime" with
      | None => None
      | Some true =>
          let file_mtime_str := printf_lu file_mtime in
          match strncmp_is0 (drop (sizeof_lit B"Thumb::MTime") data) file_mtime_str
                  (strlen file_mtime_str) with
          | None => None
          | Some r => Some (file_uri_match, r)
          end
      | Some false => Some (file_uri_match, file_mtime_match)
      end
  end.

(** One iteration of the [while(1)] loop. *)
Inductive iteration :=
  | Return (r : outcome)
  | Continue (file_uri_match file_mtime_match : bool) (fd : list Z).

Definition scan_iteration (file_uri : list Z) (file_mtime : Z)
    (file_uri_match file_mtime_match : bool) (fd : list Z) : iteration :=
  let '(header_buf, fd) := read fd 8 in
  if negb (length header_buf =? 8)%nat then Return (Returns false) else
  let header_length := ntohl_at header_buf in
  if bool_decide (drop 4 header_buf = B"tEXt") then
    let '(data, fd) := read fd (Z.to_nat header_length) in
    if negb (Z.of_nat (length data) =? header_length) then Return (Returns false) else
    let '(crc_buf, fd) := read fd 4 in
    if negb (length crc_buf =? 4)%nat then Return (Returns false) else
    let file_crc := ntohl_at crc_buf in
    let actual_crc := crc (crc 0 B"tEXt") data mod 2 ^ 32 in
    if file_crc =? actual_crc then
      match update_matches file_uri file_mtime data file_uri_match file_mtime_match with
      | None => Return ReadsPastBuffer
      | Some (file_uri_match, file_mtime_match) =>
          if file_uri_match && file_mtime_match then Return (Returns true)
          else Continue file_uri_match file_mtime_match fd
      end
    else Continue file_uri_match file_mtime_match fd
  else
    (* [header_length + 4] is computed in [unsigned] *)
    Continue file_uri_match file_mtime_match (lseek_cur fd ((header_length + 4) mod 2 ^ 32)).

Lemma scan_iteration_consumes file_uri file_mtime um mm fd um' mm' fd' :
  scan_iteration file_uri file_mtime um mm fd = Continue um' mm' fd' ->
  (length fd' < length fd)%nat.
Proof.
  unfold scan_iteration, read, lseek_cur.
  destruct (length (take 8 fd) =? 8)%nat eqn:H8; simpl; [|discriminate].
  apply Nat.eqb_eq in H8. rewrite length_take in H8.
  repeat case_match; try discriminate; intros [= <- <- <-];
    rewrite ?length_drop; lia.
Qed.

Equations scan_chunks (file_uri : list Z) (file_mtime : Z)
    (file_uri_match file_mtime_match : bool) (fd : list Z) : outcome
    by wf (length fd) lt :=
  scan_chunks file_uri file_mtime um mm fd
    with inspect (scan_iteration file_uri file_mtime um mm fd) := {
    | exist _ (Return r) _ => r
    | exist _ (Continue um' mm' fd') _ => scan_chunks file_uri file_mtime um' mm' fd'
  }.
Next Obligation. eauto using scan_iteration_consumes. Qed.

(** [check_png_attributes] once [g_open] has succeeded; [fd] is the file's
    contents. *)
Definition check_png_stream (fd : list Z) (file_uri : list Z) (file_mtime : Z) : outcome :=
  let file_uri_match := false in
  let file_mtime_match := false in
  let '(header_buf, fd) := read fd 8 in
  if negb (length header_buf =? 8)%nat then Returns false else
  if negb (bool_decide (header_buf = expected_header)) then Returns false else
  scan_chunks file_uri file_mtime file_uri_match file_mtime_match fd.

End Scanner.

(** ** Files as sequences of chunks

    The scanner reads bytes; its properties are stated over files laid out
    as the PNG signature followed by chunks. *)

Module Chunks.
Import Crc CMem Scanner.

Record chunk := Chunk {
  c_type : list Z;     (* four bytes *)
  c_data : list Z;     (* the payload *)
  c_crc : Z            (* the checksum stored behind the payload *)
}.

Definition chunk_bytes (c : chunk) : list Z :=
  htonl_bytes (Z.of_nat (length (c_data c))) ++ c_type c ++ c_data c
  ++ htonl_bytes (c_crc c).

Definition png_file (cs : list chunk) : list Z :=
  expected_header ++ concat (map chunk_bytes cs).

(** The fields fit their places in the file: four type bytes, a payload
    whose length fits the length field with the four checksum bytes added,
    and a 32-bit checksum. *)
Definition chunk_wf (c : chunk) : Prop :=
  length (c_type c) = 4%nat
  /\ Z.of_nat (length (c_data c)) + 4 < 2 ^ 32
  /\ 0 <= c_crc c < 2 ^ 32.

#[global] Instance chunk_wf_dec (c : chunk) : Decision (chunk_wf c).
Proof. unfold chunk_wf. apply _. Defined.

Definition is_text (c : chunk) : bool := bool_decide (c_type c = B"tEXt").

(** The stored checksum is the CRC-32 of type and payload. *)
Definition crc_valid (c : chunk) : bool :=
  c_crc c =? crc 0 (c_type c ++ c_data c) mod 2 ^ 32.

(** A tEXt chunk with a valid checksum whose payload starts with [key]
    and a NUL. *)
Definition keyed (key : list Z) (c : chunk) : Prop :=
  is_text c = true /\ crc_valid c = true /\ (key ++ [0]) `prefix_of` c_data c.

#[global] Instance keyed_dec (key : list Z) (c : chunk) : Decision (keyed key c).
Proof. unfold keyed. apply _. Defined.

Definition chunk_value (key : list Z) (c : chunk) : list Z :=
  drop (S (length key)) (c_data c).

(** The scanner's comparison, when it stays inside the payload: the
    expected text is compared over its own length only. *)
Definition value_matches (expected value : list Z) : bool :=
  bool_decide (expected `prefix_of` value).

(** Whether the last chunk with this key in [cs] matches; [init] when
    there is none, which is [false] at the start of a file. *)
Definition latest_matches_from (init : bool) (key expected : list Z)
    (cs : list chunk) : bool :=
  match last (filter (keyed key) cs) with
  | Some c => value_matches expected (chunk_value key c)
  | None => init
  end.

Definition latest_matches : list Z -> list Z -> list chunk -> bool :=
  latest_matches_from false.

(** The scanner can look at the chunk without reading past its payload. *)
Definition readable (file_uri : list Z) (file_mtime : Z) (c : chunk) : Prop :=
  is_text c = true -> crc_valid c = true ->
  update_matches file_uri file_mtime (c_data c) false false <> None.

#[global] Instance readable_dec file_uri file_mtime c :
  Decision (readable file_uri file_mtime c).
Proof. unfold readable. apply _. Defined.

(** One loop iteration on a well-formed chunk followed by [rest]. *)
Definition chunk_step (file_uri : list Z) (file_mtime : Z) (um mm : bool)
    (c : chunk) (rest : list Z) : iteration :=
  if is_text c then
    if crc_valid c then
      match update_matches file_uri file_mtime (c_data c) um mm with
      | None => Return ReadsPastBuffer
      | Some (um', mm') =>
          if um' && mm' then Return (Returns true) else Continue um' mm' rest
      end
    else Continue um mm rest
  else Continue um mm rest.

(** The chunk record behind the bytes that [png_writer] injects. *)
Definition text_record (key value : list Z) : chunk :=
  {| c_type := B"tEXt"; c_data := key ++ [0] ++ value;
     c_crc := crc 0 (B"tEXt" ++ key ++ [0] ++ value) mod 2 ^ 32 |}.

(** Two texts differ at a position that both have. *)
Definition differs_within (s s' : list Z) : Prop :=
  exists (i : nat) (a b : Z), s !! i = Some a /\ s' !! i = Some b /\ a <> b.

(** Somewhere in [fd] stands a chunk, byte for byte, with property [P]. *)
Definition has_chunk (P : chunk -> Prop) (fd : list Z) : Prop :=
  exists l1 c l2, fd = l1 ++ chunk_bytes c ++ l2 /\ P c.

(** A tEXt chunk with a valid checksum that has [key] and a value the
    scanner takes for [expected]. *)
Definition carries (key expected : list Z) (c : chunk) : Prop :=
  keyed key c /\ expected `prefix_of` chunk_value key c.

(** The chunks whose payload the scanner looks at: tEXt chunks with a
    valid checksum. *)
Definition checked_text (c : chunk) : Prop := is_text c = true /\ crc_valid c = true.

#[global] Instance checked_text_dec (c : chunk) : Decision (checked_text c).
Proof. unfold checked_text. apply _. Defined.

End Chunks.

(** ** png_writer *)

Module Writer.
Import Crc CMem.

Inductive cairo_status_t :=
  | CAIRO_STATUS_SUCCESS
  | CAIRO_STATUS_NO_MEMORY
  | CAIRO_STATUS_WRITE_ERROR.

Definition is_success (s : cairo_status_t) : bool :=
  match s with CAIRO_STATUS_SUCCESS => true | _ => false end.

(** An open output descriptor: the bytes it has accepted so far, in order,
    and the number of bytes the device still accepts before [write] comes
    back short (disk full, quota). *)
Record out_file := OutFile {
  of_written : list Z;
  of_room : nat
}.

(** [write(fd, buf, n)] with [buf] holding the [n] bytes: the return value
    and the descriptor afterwards. *)
Definition write (f : out_file) (buf : list Z) : Z * out_file :=
  if (length buf <=? of_room f)%nat then
    (Z.of_nat (length buf),
     {| of_written := of_written f ++ buf; of_room := of_room f - length buf |})
  else if (of_room f =? 0)%nat then (-1, f)
  else
    (Z.of_nat (of_room f),
     {| of_written := of_written f ++ take (of_room f) buf; of_room := 0 |}).

Record png_writer_info := PngWriterInfo {
  output_file_fd : out_file;
  bytes_written : nat;
  Thumb_URI : list Z;
  Thumb_MTime : list Z
}.

Definition set_fd (info : png_writer_info) (f : out_file) : png_writer_info :=
  {| output_file_fd := f; bytes_written := bytes_written info;
     Thumb_URI := Thumb_URI info; Thumb_MTime := Thumb_MTime info |}.

Definition set_bytes_written (info : png_writer_info) (n : nat) : png_writer_info :=
  {| output_file_fd := output_file_fd info; bytes_written := n;
     Thumb_URI := Thumb_URI info; Thumb_MTime := Thumb_MTime info |}.

Definition inject_pos : nat := 8 (* header *) + (4 + 4 + 4 + 13) (* IHDR *).

(** The buffer [output] of the first block, as filled in by the four
    stores, and its [output_length]. *)
Definition uri_output_length (uri : list Z) : nat :=
  4 + 4 + sizeof_lit B"Thumb::URI" + strlen uri + 4.

Definition uri_output (uri : list Z) : list Z :=
  let uri_length := strlen uri in
  let output := g_malloc (uri_output_length uri) in
  let output := poke 0 (htonl_bytes (Z.of_nat (sizeof_lit B"Thumb::URI" + uri_length))) output in
  let output := poke 4 (B"tEXtThumb::URI" ++ [0]) output in
  let output := poke 19 (uri ++ [0]) output in
  poke (19 + uri_length)
    (htonl_bytes (crc 0 (take (19 + uri_length - 4) (drop 4 output)))) output.

(** The same for the second block. *)
Definition mtime_output_length (mtime : list Z) : nat :=
  4 + 4 + sizeof_lit B"Thumb::MTime" + strlen mtime + 4.

Definition mtime_output (mtime : list Z) : list Z :=
  let mtime_length := strlen mtime in
  let output := g_malloc (mtime_output_length mtime) in
  let output := poke 0 (htonl_bytes (Z.of_nat (sizeof_lit B"Thumb::MTime" + mtime_length))) output in
  let output := poke 4 (B"tEXtThumb::MTime" ++ [0]) output in
  let output := poke 21 (mtime ++ [0]) output in
  poke (21 + mtime_length)
    (htonl_bytes (crc 0 (take (21 + mtime_length - 4) (drop 4 output)))) output.

(** The last block of [png_writer]: [if(length > 0) ...]. *)
Definition png_writer_forward (info : png_writer_info) (data : list Z)
    : cairo_status_t * png_writer_info :=
  if (0 <? length data)%nat then
    let '(r, f) := write (output_file_fd info) data in
    if negb (r =? Z.of_nat (length data)) then (CAIRO_STATUS_WRITE_ERROR, set_fd info f)
    else
      (CAIRO_STATUS_SUCCESS,
       set_bytes_written (set_fd info f) (bytes_written info + length data))
  else (CAIRO_STATUS_SUCCESS, info).

(** [png_writer(info, data, length)], with [data] holding the [length]
    bytes: the status returned and [*info] afterwards. *)
Definition png_writer (info : png_writer_info) (data : list Z)
    : cairo_status_t * png_writer_info :=
  if (bytes_written info <? inject_pos)%nat
     && (inject_pos <=? bytes_written info + length data)%nat then
    let k := (inject_pos - bytes_written info)%nat in
    let '(r, f) := write (output_file_fd info) (take k data) in
    if negb (r =? Z.of_nat k) then (CAIRO_STATUS_WRITE_ERROR, set_fd info f) else
    let data := drop k data in
    let info := set_bytes_written (set_fd info f) inject_pos in
    let output := uri_output (Thumb_URI info) in
    let output_length := uri_output_length (Thumb_URI info) in
    let '(r, f) := write (output_file_fd info) (take output_length output) in
    if negb (r =? Z.of_nat output_length) then (CAIRO_STATUS_WRITE_ERROR, set_fd info f) else
    let info := set_fd info f in
    let output := mtime_output (Thumb_MTime info) in
    let output_length := mtime_output_length (Thumb_MTime info) in
    let '(r, f) := write (output_file_fd info) (take output_length output) in
    if negb (r =? Z.of_nat output_length) then (CAIRO_STATUS_WRITE_ERROR, set_fd info f) else
    let info := set_fd info f in
    png_writer_forward info data
  else png_writer_forward info data.

(** [cairo_surface_write_to_png_stream(surface, write_func, closure)]: the
    encoder hands its output to [write_func] piece by piece and gives up at
    the first call that does not return success; [calls] are the pieces
    and [final] is the status it reports when every call succeeded. *)
Fixpoint cairo_surface_write_to_png_stream {C : Type}
    (calls : list (list Z)) (final : cairo_status_t)
    (write_func : C -> list Z -> cairo_status_t * C) (closure : C)
    : cairo_status_t * C :=
  match calls with
  | [] => (final, closure)
  | data :: calls' =>
      let '(status, closure) := write_func closure data in
      if is_success status
      then cairo_surface_write_to_png_stream calls' final write_func closure
      else (status, closure)
  end.

(** *** One-shot description of the interceptor's output

    A tEXt chunk is its payload length, the type, the payload [key NUL
    value] and the CRC of type and payload; the two chunks go in after the
    first 33 bytes of the stream. *)
Definition text_chunk (key value : list Z) : list Z :=
  htonl_bytes (Z.of_nat (length key + 1 + length value))
  ++ B"tEXt" ++ (key ++ [0] ++ value)
  ++ htonl_bytes (crc 0 (B"tEXt" ++ key ++ [0] ++ value)).

Definition splice (uri mtime : list Z) (stream : list Z) : list Z :=
  take 33 stream
  ++ text_chunk B"Thumb::URI" uri ++ text_chunk B"Thumb::MTime" mtime
  ++ drop 33 stream.

(** What one call of [png_writer] appends to the output when [n] bytes of
    the stream have gone through before, and what a sequence of calls
    appends, all writes succeeding. *)
Definition emitted (uri mtime : list Z) (n : nat) (data : list Z) : list Z :=
  if (n <? inject_pos)%nat && (inject_pos <=? n + length data)%nat
  then take (inject_pos - n) data
       ++ text_chunk B"Thumb::URI" uri ++ text_chunk B"Thumb::MTime" mtime
       ++ drop (inject_pos - n) data
  else data.

Fixpoint emit_all (uri mtime : list Z) (n : nat) (calls : list (list Z)) : list Z :=
  match calls with
  | [] => []
  | data :: calls' => emitted uri mtime n data ++ emit_all uri mtime (n + length data) calls'
  end.

(** The descriptor and closure that [store_thumbnail_to_cache] starts
    from. *)
Definition writer_start (room : nat) (uri mtime : list Z) : png_writer_info :=
  {| output_file_fd := {| of_written := []; of_room := room |};
     bytes_written := 0; Thumb_URI := uri; Thumb_MTime := mtime |}.

End Writer.

(** ** The public API over a model of the file system *)

Module Cache.
Import Crc CMem Scanner Writer.

(** A cairo image surface, as far as this file looks at it. *)
Record surface := Surface {
  surface_width : Z;
  surface_height : Z;
  surface_pixels : list Z
}.

(** The fields of pqiv's [file_t] that this file uses.  [thumbnail] is
    [None] for a NULL pointer. *)
Record file_t := FileT {
  file_flags : Z;
  display_name : list Z;
  file_name : list Z;
  thumbnail : option surface
}.

Definition set_thumbnail (file : file_t) (t : surface) : file_t :=
  {| file_flags := file_flags file; display_name := display_name file;
     file_name := file_name file; thumbnail := Some t |}.

(** The state outside the function calls: the file system, the
    environment and this file's static cache-directory pointer. *)
Record world := World {
  (* regular files and their contents *)
  w_files : gmap (list Z) (list Z);
  (* directories *)
  w_dirs : gset (list Z);
  (* [st_mtime] as [stat] reports it; [stat] fails on all other paths *)
  w_mtime : gmap (list Z) Z;
  (* what [g_open(path, O_CREAT | O_WRONLY, 0600)] returns: a descriptor,
     or a negative number when the file can neither be opened nor created *)
  w_open : list Z -> Z;
  (* bytes the device accepts before [write] comes back short *)
  w_room : nat;
  (* the value an uninitialised [struct stat] on the stack holds in
     [st_mtime] *)
  w_stack_mtime : Z;
  (* [g_getenv("XDG_CACHE_HOME")] and [g_getenv("HOME")] *)
  w_XDG_CACHE_HOME : option (list Z);
  w_HOME : option (list Z);
  (* [_local_thumbnail_cache_directory] *)
  w_cache_directory : option (list Z)
}.

Definition set_files (w : world) (files : gmap (list Z) (list Z)) : world :=
  {| w_files := files; w_dirs := w_dirs w; w_mtime := w_mtime w; w_open := w_open w;
     w_room := w_room w; w_stack_mtime := w_stack_mtime w;
     w_XDG_CACHE_HOME := w_XDG_CACHE_HOME w; w_HOME := w_HOME w;
     w_cache_directory := w_cache_directory w |}.

Definition set_room (w : world) (room : nat) : world :=
  {| w_files := w_files w; w_dirs := w_dirs w; w_mtime := w_mtime w; w_open := w_open w;
     w_room := room; w_stack_mtime := w_stack_mtime w;
     w_XDG_CACHE_HOME := w_XDG_CACHE_HOME w; w_HOME := w_HOME w;
     w_cache_directory := w_cache_directory w |}.

Definition set_cache_directory (w : world) (dir : list Z) (dirs : gset (list Z)) : world :=
  {| w_files := w_files w; w_dirs := dirs; w_mtime := w_mtime w; w_open := w_open w;
     w_room := w_room w; w_stack_mtime := w_stack_mtime w;
     w_XDG_CACHE_HOME := w_XDG_CACHE_HOME w; w_HOME := w_HOME w;
     w_cache_directory := Some dir |}.

Definition thumbnail_levels : list (list Z) := [B"large"; B"normal"].

Definition G_DIR_SEPARATOR_S : list Z := B"/".

(** [g_strrstr(s, G_DIR_SEPARATOR_S)]: the part of [s] from the last
    separator on, or [None] (NULL) if there is none. *)
Fixpoint g_strrstr_sep (s : list Z) : option (list Z) :=
  match s with
  | [] => None
  | c :: s' =>
      match g_strrstr_sep s' with
      | Some p => Some p
      | None => if c =? 47 then Some s else None
      end
  end.

(** The basename computation that [get_local_filename] does twice. *)
Definition after_last_separator (name : list Z) : list Z :=
  match g_strrstr_sep name with
  | Some p => drop 1 p
  | None => name
  end.

Definition g_file_test_is_dir (w : world) (p : list Z) : bool :=
  bool_decide (p ∈ w_dirs w).

Definition g_file_test_exists (w : world) (p : list Z) : bool :=
  bool_decide (is_Some (w_files w !! p)) || bool_decide (p ∈ w_dirs w).

(** [stat(path, &file_stat); file_mtime = file_stat.st_mtime]: the return
    value of [stat] is not looked at, so after a failure the field still
    holds what was on the stack. *)
Definition stat_mtime (w : world) (p : list Z) : Z :=
  match w_mtime w !! p with
  | Some t => t
  | None => w_stack_mtime w
  end.

(** [check_png_attributes(file_name, file_uri, file_mtime)]; reading from
    a name that is not a regular file fails at [g_open] or at the first
    [read]. *)
Definition check_png_attributes (w : world) (file_name file_uri : list Z)
    (file_mtime : Z) : outcome :=
  match w_files w !! file_name with
  | None => Returns false
  | Some contents => check_png_stream contents file_uri file_mtime
  end.

(** Code outside this file: pqiv's flag constant and
    [gfile_for_commandline_arg], GLib, and cairo's PNG codec and
    compositing. *)
Class Externals := {
  FILE_FLAGS_MEMORY_IMAGE : Z;
  (* [g_file_get_path(gfile_for_commandline_arg(name))], [None] for NULL *)
  gfile_path : list Z -> option (list Z);
  (* [g_compute_checksum_for_string(G_CHECKSUM_MD5, s, -1)] *)
  md5_hex : list Z -> list Z;
  (* [g_build_filename(e1, ..., NULL)] *)
  g_build_filename : list (list Z) -> list Z;
  g_path_get_dirname : list Z -> list Z;
  g_path_get_basename : list Z -> list Z;
  (* the directories after [g_mkdir_with_parents(dir, 0600)] *)
  g_mkdir_with_parents : gset (list Z) -> list Z -> gset (list Z);
  (* [cairo_image_surface_create_from_png] on a file with these contents;
     [None] when the surface's status is not success *)
  png_decode : list Z -> option surface;
  (* the pieces in which [cairo_surface_write_to_png_stream] hands the
     encoded surface to the write function, and its status if all are
     taken *)
  png_encode : surface -> list (list Z) * cairo_status_t;
  (* lines 222 to 245 of [load_thumbnail]: scale factor in floating point,
     new surface, paint; [None] when the result's status is not success *)
  scale_to_fit : surface -> Z -> Z -> option surface
}.

(** The names tried at the large and at the normal level, and the order
    the two loops go through for a request. *)
Definition large_name (dir md5 : list Z) : list Z := dir ++ B"/large/" ++ md5 ++ B".png".
Definition normal_name (dir md5 : list Z) : list Z := dir ++ B"/normal/" ++ md5 ++ B".png".

Definition tier_order (width height : Z) (dir md5 : list Z) : list (list Z) :=
  if (128 <? width) || (128 <? height)
  then [large_name dir md5; normal_name dir md5]
  else [normal_name dir md5].

Section Api.
Context {ext : Externals}.

Definition get_local_filename (file : file_t) : option (list Z) :=
  if negb (Z.land (file_flags file) FILE_FLAGS_MEMORY_IMAGE =? 0) then None else
  let display_basename := after_last_separator (display_name file) in
  let filename_basename := after_last_separator (file_name file) in
  if negb (bool_decide (filename_basename = display_basename)) then None else
  gfile_path (file_name file).

Definition get_thumbnail_cache_directory (w : world) : list Z * world :=
  match w_cache_directory w with
  | Some dir => (dir, w)
  | None =>
      let dir :=
        match w_XDG_CACHE_HOME w with
        | None =>
            (* a NULL first element ends the argument list *)
            match w_HOME w with
            | None => g_build_filename []
            | Some home => g_build_filename [home; B".cache"; B"thumbnails"]
            end
        | Some cache_dir => g_build_filename [cache_dir; B"thumbnails"]
        end in
      let dirs :=
        if negb (g_file_test_is_dir w dir) then g_mkdir_with_parents (w_dirs w) dir
        else w_dirs w in
      (dir, set_cache_directory w dir dirs)
  end.

(** [g_strdup_printf("%s%s%s%s%s.png", dir, "/", thumbnail_levels[j], "/", md5)] *)
Definition candidate_name (dir : list Z) (j : nat) (md5 : list Z) : list Z :=
  dir ++ G_DIR_SEPARATOR_S ++ nth j thumbnail_levels [] ++ G_DIR_SEPARATOR_S
  ++ md5 ++ B".png".

(** The candidate names of the levels [j], ..., [j + n - 1], in order. *)
Definition candidates (dir md5 : list Z) (j n : nat) : list (list Z) :=
  map (fun j => candidate_name dir j md5) (seq j n).

(** [load_thumbnail]: [Returns None] is a NULL result. *)
Definition load_thumbnail (w : world) (file_name file_uri : list Z) (file_mtime : Z)
    (width height : Z) : result (option surface) :=
  match check_png_attributes w file_name file_uri file_mtime with
  | Undefined why => Undefined why
  | Returns false => Returns None
  | Returns true =>
      match w_files w !! file_name ≫= png_decode with
      | None => Returns None
      | Some thumbnail =>
          let actual_width := surface_width thumbnail in
          let actual_height := surface_height thumbnail in
          if (actual_width =? width) || (actual_height =? height)
          then Returns (Some thumbnail)
          else Returns (scale_to_fit thumbnail width height)
      end
  end.

(** The first value of [j] in both [for] loops. *)
Definition first_level (width height : Z) : nat :=
  if (128 <? width) || (128 <? height) then 0%nat else 1%nat.

(** What a search loop leaves behind: the candidate names it has passed
    to [g_file_test], in order, and how it ended: [Returns (Some t)] when
    it returned TRUE with thumbnail [t], [Returns None] when it fell out
    of the loop. *)
Definition search := (list (list Z) * result (option surface * world))%type.

(** The first loop, from [j] on; [n] counts the iterations left, [2 - j]. *)
Fixpoint search_cache (n : nat) (j : nat) (md5_filename file_uri : list Z)
    (file_mtime width height : Z) (w : world) : search :=
  match n with
  | O => ([], Returns (None, w))
  | S n' =>
      let '(dir, w) := get_thumbnail_cache_directory w in
      let thumbnail_candidate := candidate_name dir j md5_filename in
      if g_file_test_exists w thumbnail_candidate then
        match load_thumbnail w thumbnail_candidate file_uri file_mtime width height with
        | Undefined why => ([thumbnail_candidate], Undefined why)
        | Returns (Some thumbnail) => ([thumbnail_candidate], Returns (Some thumbnail, w))
        | Returns None =>
            let '(tried, r) :=
              search_cache n' (S j) md5_filename file_uri file_mtime width height w in
            (thumbnail_candidate :: tried, r)
        end
      else
        let '(tried, r) :=
          search_cache n' (S j) md5_filename file_uri file_mtime width height w in
        (thumbnail_candidate :: tried, r)
  end.

(** The second loop.  [file_basename] has been passed to [g_free] before
    the loop; [load_thumbnail] is nevertheless called with it (and
    [check_png_attributes] reads through it), so the call has no defined
    result. *)
Fixpoint search_shared (n : nat) (j : nat) (shared_thumbnail_directory md5_basename : list Z)
    (w : world) : search :=
  match n with
  | O => ([], Returns (None, w))
  | S n' =>
      let thumbnail_candidate := candidate_name shared_thumbnail_directory j md5_basename in
      if g_file_test_exists w thumbnail_candidate then
        ([thumbnail_candidate], Undefined UseAfterFree)
      else
        let '(tried, r) := search_shared n' (S j) shared_thumbnail_directory md5_basename w in
        (thumbnail_candidate :: tried, r)
  end.

(** [load_thumbnail_from_cache(file, width, height)]: the candidate names
    tried in the first and in the second loop, and the return value with
    [*file] and the world afterwards. *)
Definition load_thumbnail_from_cache (file : file_t) (width height : Z) (w : world)
    : list (list Z) * list (list Z) * result (bool * file_t * world) :=
  if (256 <? width) || (256 <? height) then ([], [], Returns (false, file, w)) else
  match get_local_filename file with
  | None => ([], [], Returns (false, file, w))
  | Some local_filename =>
      let file_mtime := stat_mtime w local_filename in
      let file_uri := B"file://" ++ local_filename in
      let md5_filename := md5_hex file_uri in
      let j := first_level width height in
      match search_cache (2 - j) j md5_filename file_uri file_mtime width height w with
      | (tried, Undefined why) => (tried, [], Undefined why)
      | (tried, Returns (Some thumbnail, w)) =>
          (tried, [], Returns (true, set_thumbnail file thumbnail, w))
      | (tried, Returns (None, w)) =>
          let file_dirname := g_path_get_dirname local_filename in
          let shared_thumbnail_directory := g_build_filename [file_dirname; B".sh_thumbnails"] in
          if g_file_test_is_dir w shared_thumbnail_directory then
            let file_basename := g_path_get_basename local_filename in
            let md5_basename := md5_hex file_basename in
            match search_shared (2 - j) j shared_thumbnail_directory md5_basename w with
            | (tried', Undefined why) => (tried, tried', Undefined why)
            | (tried', Returns (Some thumbnail, w)) =>
                (tried, tried', Returns (true, set_thumbnail file thumbnail, w))
            | (tried', Returns (None, w)) => (tried, tried', Returns (false, file, w))
            end
          else (tried, [], Returns (false, file, w))
      end
  end.

(** [store_thumbnail_to_cache(file)] for a file with a thumbnail: the
    return value and the world afterwards.  The destination is opened
    without [O_TRUNC]: bytes of an older, longer file stay in place behind
    what is written. *)
Definition store_thumbnail (file : file_t) (thumbnail : surface) (w : world) : bool * world :=
  let width := surface_width thumbnail in
  let height := surface_height thumbnail in
  let level (thumbnail_level : nat) : bool * world :=
    match get_local_filename file with
    | None => (false, w)
    | Some local_filename =>
        let file_mtime := stat_mtime w local_filename in
        let file_uri := B"file://" ++ local_filename in
        let md5_filename := md5_hex file_uri in
        let '(dir, w) := get_thumbnail_cache_directory w in
        let thumbnail_file := candidate_name dir thumbnail_level md5_filename in
        let retval := true in
        let file_fd := w_open w thumbnail_file in
        (* a successful [g_open] has created the file if it was not there *)
        let w :=
          if (0 <=? file_fd) && negb (bool_decide (is_Some (w_files w !! thumbnail_file)))
          then set_files w (<[thumbnail_file := []]> (w_files w)) else w in
        if 0 <? file_fd then
          let string_mtime := printf_lu file_mtime in
          let writer_info :=
            {| output_file_fd := {| of_written := []; of_room := w_room w |};
               bytes_written := 0; Thumb_URI := file_uri; Thumb_MTime := string_mtime |} in
          let '(calls, final) := png_encode thumbnail in
          let '(status, writer_info) :=
            cairo_surface_write_to_png_stream calls final png_writer writer_info in
          let written := of_written (output_file_fd writer_info) in
          let old := default [] (w_files w !! thumbnail_file) in
          let w :=
            set_room
              (set_files w (<[thumbnail_file := written ++ drop (length written) old]> (w_files w)))
              (of_room (output_file_fd writer_info)) in
          if negb (is_success status)
          then (false, set_files w (delete thumbnail_file (w_files w)))
          else (retval, w)
        else (retval, w)
    end in
  if (width =? 256) || (height =? 256) then level 0%nat
  else if (width =? 128) || (height =? 128) then level 1%nat
  else (false, w).

Definition store_thumbnail_to_cache (file : file_t) (w : world) : option (bool * world) :=
  match thumbnail file with
  | None => None     (* cairo dereferences the NULL pointer *)
  | Some t => Some (store_thumbnail file t w)
  end.

(** The level [store_thumbnail_to_cache] files a thumbnail under, and the
    name it writes to. *)
Definition level_of (t : surface) : option nat :=
  if (surface_width t =? 256) || (surface_height t =? 256) then Some 0%nat
  else if (surface_width t =? 128) || (surface_height t =? 128) then Some 1%nat
  else None.

Definition destination (w : world) (p : list Z) (j : nat) : list Z :=
  candidate_name (fst (get_thumbnail_cache_directory w)) j (md5_hex (B"file://" ++ p)).

End Api.

End Cache.

(** ** Concrete chunks and files used in examples *)

Module Examples.
Import Crc CMem Scanner Chunks Writer Cache.

Definition ihdr0 : chunk :=
  {| c_type := B"IHDR"; c_data := replicate 13 1; c_crc := 0 |}.

(** A tEXt chunk with the right checksum. *)
Definition text0 (key value : list Z) : chunk :=
  {| c_type := B"tEXt"; c_data := key ++ [0] ++ value;
     c_crc := crc 0 (B"tEXt" ++ key ++ [0] ++ value) |}.

(** The same chunk with the lowest bit of the stored checksum flipped. *)
Definition flip_crc (c : chunk) : chunk :=
  {| c_type := c_type c; c_data := c_data c; c_crc := Z.lxor (c_crc c) 1 |}.

(** A matching Thumb::URI chunk, then a second Thumb::URI chunk for
    another file, then a matching Thumb::MTime chunk. *)
Definition dup_uri_file : list chunk :=
  [ihdr0; text0 B"Thumb::URI" B"file:///a"; text0 B"Thumb::URI" B"file:///b";
   text0 B"Thumb::MTime" B"17"].

(** Stand-ins for the external code, enough to run the API on examples:
    names are taken as absolute paths, the digest is a fixed string (it
    only names the cache file), paths are joined with "/". *)
Definition join_path (es : list (list Z)) : list Z :=
  match es with
  | [] => []
  | e :: es' => e ++ concat (map (fun x => G_DIR_SEPARATOR_S ++ x) es')
  end.

Definition dirname_of (p : list Z) : list Z :=
  match g_strrstr_sep p with
  | Some s => take (length p - length s) p
  | None => B"."
  end.

(** A 128 x 85 thumbnail and the PNG stream the toy encoder makes of any
    surface, handed over in four pieces. *)
Definition thumb128 : surface :=
  {| surface_width := 128; surface_height := 85; surface_pixels := [] |}.

Definition toy_png_calls : list (list Z) :=
  [expected_header; chunk_bytes ihdr0;
   chunk_bytes {| c_type := B"IDAT"; c_data := [1; 2; 3]; c_crc := 0 |};
   chunk_bytes {| c_type := B"IEND"; c_data := []; c_crc := 0xAE426082 |}].

Definition toy : Externals :=
  {| FILE_FLAGS_MEMORY_IMAGE := 2;
     gfile_path := Some;
     md5_hex := fun _ => B"0123456789abcdef0123456789abcdef";
     g_build_filename := join_path;
     g_path_get_dirname := dirname_of;
     g_path_get_basename := after_last_separator;
     g_mkdir_with_parents := fun dirs d => dirs ∪ {[d]};
     png_decode := fun bytes =>
       if bool_decide (take 8 bytes = expected_header) then Some thumb128 else None;
     png_encode := fun _ => (toy_png_calls, CAIRO_STATUS_SUCCESS);
     scale_to_fit := fun s w h =>
       Some {| surface_width := w; surface_height := h; surface_pixels := [] |} |}.

Definition pic : file_t :=
  {| file_flags := 0; display_name := B"pic.jpg"; file_name := B"/home/u/pic.jpg";
     thumbnail := None |}.

Definition cache_home : list Z := B"/home/u/.cache".
Definition normal_entry : list Z :=
  B"/home/u/.cache/thumbnails/normal/0123456789abcdef0123456789abcdef.png".
Definition large_entry : list Z :=
  B"/home/u/.cache/thumbnails/large/0123456789abcdef0123456789abcdef.png".

(** A world in which the source file exists with mtime 1700000000, the
    cache directories exist and are writable, and nothing is cached yet. *)
Definition world0 : world :=
  {| w_files := {[ B"/home/u/pic.jpg" := [255; 216; 255] ]};
     w_dirs := {[ B"/home/u"; B"/home/u/.cache/thumbnails";
                  B"/home/u/.cache/thumbnails/normal";
                  B"/home/u/.cache/thumbnails/large" ]};
     w_mtime := {[ B"/home/u/pic.jpg" := 1700000000 ]};
     w_open := fun _ => 3;
     w_room := 4096;
     w_stack_mtime := 0;
     w_XDG_CACHE_HOME := Some cache_home;
     w_HOME := Some B"/home/u";
     w_cache_directory := None |}.

Definition pic128 : file_t := set_thumbnail pic thumb128.

(** [world0] with a cache directory in which nothing can be opened or
    created, as when the level directories are missing. *)
Definition world_unwritable : world :=
  {| w_files := w_files world0; w_dirs := {[ B"/home/u" ]};
     w_mtime := w_mtime world0; w_open := fun _ => -1; w_room := w_room world0;
     w_stack_mtime := 0; w_XDG_CACHE_HOME := w_XDG_CACHE_HOME world0;
     w_HOME := w_HOME world0; w_cache_directory := None |}.

(** [world0] on a device that takes 40 more bytes. *)
Definition world_full : world := set_room world0 40.

(** A 300 x 128 bitmap: the long edge is 300. *)
Definition thumb300x128 : surface :=
  {| surface_width := 300; surface_height := 128; surface_pixels := [] |}.

(** A 200 x 150 bitmap. *)
Definition thumb200 : surface :=
  {| surface_width := 200; surface_height := 150; surface_pixels := [] |}.

(** The entry that [store_thumbnail_to_cache] writes for [pic] in
    [world0], as a chunk list, and a world that has it at both levels. *)
Definition pic_entry : list Z :=
  png_file [ihdr0; text0 B"Thumb::URI" B"file:///home/u/pic.jpg";
            text0 B"Thumb::MTime" B"1700000000"].

Definition world_cached : world :=
  set_files world0
    (<[normal_entry := pic_entry]> (<[large_entry := pic_entry]> (w_files world0))).

(** [world_cached] after the source file has vanished: [stat] fails, and
    the stack still holds the mtime of an earlier call. *)
Definition world_vanished : world :=
  {| w_files := delete B"/home/u/pic.jpg" (w_files world_cached);
     w_dirs := w_dirs world0; w_mtime := ∅; w_open := w_open world0;
     w_room := w_room world0; w_stack_mtime := 1700000000;
     w_XDG_CACHE_HOME := w_XDG_CACHE_HOME world0; w_HOME := w_HOME world0;
     w_cache_directory := None |}.

(** [world_vanished] with another value left on the stack. *)
Definition world_stale_stack : world :=
  {| w_files := w_files world_vanished; w_dirs := w_dirs world_vanished;
     w_mtime := ∅; w_open := w_open world0; w_room := w_room world0;
     w_stack_mtime := 42; w_XDG_CACHE_HOME := w_XDG_CACHE_HOME world0;
     w_HOME := w_HOME world0; w_cache_directory := None |}.

(** A well-formed entry for file:///a with mtime 17. *)
Definition uri_a_file : list chunk :=
  [ihdr0; text0 B"Thumb::URI" B"file:///a"; text0 B"Thumb::MTime" B"17"].

(** An image pasted from the clipboard: there is no file behind it. *)
Definition pasted : file_t :=
  {| file_flags := 2; display_name := B"clipboard"; file_name := B"clipboard";
     thumbnail := Some thumb128 |}.

(** [world0] in a process whose descriptor 0 is closed, so that [g_open]
    returns 0. *)
Definition world_fd0 : world :=
  {| w_files := w_files world0; w_dirs := w_dirs world0; w_mtime := w_mtime world0;
     w_open := fun _ => 0; w_room := w_room world0; w_stack_mtime := 0;
     w_XDG_CACHE_HOME := w_XDG_CACHE_HOME world0; w_HOME := w_HOME world0;
     w_cache_directory := None |}.

(** [world0] with an older, longer file under the normal entry's name. *)
Definition world_old_entry : world :=
  set_files world0 (<[normal_entry := replicate 300 7]> (w_files world0)).

(** [world0] with a shared thumbnail directory next to the picture, and
    in it an entry at the normal level. *)
Definition shared_entry : list Z :=
  B"/home/u/.sh_thumbnails/normal/0123456789abcdef0123456789abcdef.png".

Definition world_shared : world :=
  {| w_files := <[shared_entry := pic_entry]> (w_files world0);
     w_dirs := w_dirs world0 ∪ {[ B"/home/u/.sh_thumbnails" ]};
     w_mtime := w_mtime world0; w_open := w_open world0; w_room := w_room world0;
     w_stack_mtime := 0; w_XDG_CACHE_HOME := w_XDG_CACHE_HOME world0;
     w_HOME := w_HOME world0; w_cache_directory := None |}.

End Examples.

(** * Properties *)

(** A decidable statement about concrete data, settled by evaluating its
    decision procedure. *)
Ltac by_compute := refine (bool_decide_unpack _ _); vm_compute; exact I.

Section CrcFacts.
Import Crc.

Lemma crc_round_shift (c : Z) : crc_round c = crc32_shift c.
Proof.
  unfold crc_round, crc32_shift.
  replace (Z.land c 1) with (Z.b2z (Z.odd c)).
  - destruct (Z.odd c); simpl.
    + apply Z.lxor_comm.
    + now rewrite Z.lxor_0_r.
  - rewrite <- Z.bit0_odd. symmetry.
    change 1 with (Z.ones 1). rewrite Z.land_ones by lia.
    rewrite Z.bit0_mod. reflexivity.
Qed.

Lemma iter_crc_round (k : nat) (c : Z) :
  Nat.iter k crc_round c = Nat.iter k crc32_shift c.
Proof.
  induction k as [|k IH]; simpl; [reflexivity|].
  now rewrite IH, crc_round_shift.
Qed.

Lemma crc32_shift_lxor (a b : Z) :
  crc32_shift (Z.lxor a b) = Z.lxor (crc32_shift a) (crc32_shift b).
Proof.
  unfold crc32_shift.
  rewrite Z.shiftr_lxor.
  rewrite <- !Z.bit0_odd, Z.lxor_spec.
  set (sa := Z.shiftr a 1). set (sb := Z.shiftr b 1).
  assert (E : forall x y : bool,
             (if xorb x y then 0xEDB88320 else 0)
             = Z.lxor (if x then 0xEDB88320 else 0) (if y then 0xEDB88320 else 0))
    by (intros [] []; reflexivity).
  rewrite E. generalize (if Z.testbit a 0 then 0xEDB88320 else 0) as pa.
  generalize (if Z.testbit b 0 then 0xEDB88320 else 0) as pb. intros pb pa.
  rewrite !Z.lxor_assoc. f_equal.
  rewrite <- !Z.lxor_assoc. f_equal. apply Z.lxor_comm.
Qed.

End CrcFacts.

Section CrcTable.
Import Crc.

Lemma iter_crc32_shift_lxor (k : nat) (a b : Z) :
  Nat.iter k crc32_shift (Z.lxor a b)
  = Z.lxor (Nat.iter k crc32_shift a) (Nat.iter k crc32_shift b).
Proof.
  induction k as [|k IH]; simpl; [reflexivity|].
  now rewrite IH, crc32_shift_lxor.
Qed.

(** Zeros shifted in at the low end are shifted out again unchanged. *)
Lemma iter_crc32_shift_shiftl (k : nat) (m y : Z) :
  Z.of_nat k <= m ->
  Nat.iter k crc32_shift (Z.shiftl y m) = Z.shiftl y (m - Z.of_nat k).
Proof.
  induction k as [|k IH]; intros Hk.
  - simpl. now rewrite Z.sub_0_r.
  - rewrite Nat.iter_succ, IH by lia. unfold crc32_shift.
    rewrite <- Z.bit0_odd, Z.shiftl_spec_low by lia.
    rewrite Z.lxor_0_r, Z.shiftr_shiftl_l by lia.
    f_equal. lia.
Qed.

Lemma split_low_byte (x : Z) :
  x = Z.lxor (Z.land x 255) (Z.shiftl (Z.shiftr x 8) 8).
Proof.
  apply Z.bits_inj'. intros n Hn.
  rewrite Z.lxor_spec. change 255 with (Z.ones 8). rewrite Z.land_spec.
  destruct (Z.lt_ge_cases n 8) as [Hlt|Hge].
  - rewrite Z.ones_spec_low, Z.shiftl_spec_low by lia.
    now rewrite andb_true_r, xorb_false_r.
  - rewrite Z.ones_spec_high, Z.shiftl_spec, Z.shiftr_spec by lia.
    rewrite andb_false_r. simpl. f_equal. lia.
Qed.

(** The table step: eight shifts of the register equal one lookup on its
    low byte, added to the register moved down by a byte. *)
Lemma crc32_shift8_table (x : Z) :
  Nat.iter 8 crc32_shift x
  = Z.lxor (Nat.iter 8 crc32_shift (Z.land x 255)) (Z.shiftr x 8).
Proof.
  rewrite (split_low_byte x) at 1.
  rewrite iter_crc32_shift_lxor.
  rewrite (iter_crc32_shift_shiftl 8 8) by lia.
  now rewrite Z.shiftl_0_r.
Qed.

Lemma land_255_range (x : Z) : 0 <= Z.land x 255 < 256.
Proof.
  change 255 with (Z.ones 8). rewrite Z.land_ones by lia.
  apply Z.mod_pos_bound. lia.
Qed.

Lemma table_at_make_crc_table (i : Z) :
  0 <= i < 256 -> table_at make_crc_table i = Nat.iter 8 crc32_shift i.
Proof.
  intros Hi. unfold table_at, make_crc_table.
  rewrite (nth_indep _ 0 (Nat.iter 8 crc_round (Z.of_nat 0)))
    by (rewrite length_map, length_seq; lia).
  rewrite (map_nth (fun n => Nat.iter 8 crc_round (Z.of_nat n))).
  rewrite seq_nth by lia.
  rewrite iter_crc_round. f_equal. lia.
Qed.

Lemma crc_loop_cons (t : list Z) (c b : Z) (buf : list Z) :
  crc_loop t c (b :: buf)
  = crc_loop t (Z.lxor (table_at t (Z.land (Z.lxor c b) 255)) (Z.shiftr c 8)) buf.
Proof. reflexivity. Qed.

Lemma fold_left_step {A E : Type} (f : A -> E -> A) (x : E) (l : list E) (a : A) :
  fold_left f (x :: l) a = fold_left f l (f a x).
Proof. reflexivity. Qed.

Lemma crc_table_step (t : list Z) (c b : Z) :
  (forall i, 0 <= i < 256 -> table_at t i = Nat.iter 8 crc32_shift i) ->
  is_byte b ->
  Z.lxor (table_at t (Z.land (Z.lxor c b) 255)) (Z.shiftr c 8) = crc32_byte c b.
Proof.
  intros Ht Hb.
  rewrite Ht by apply land_255_range.
  unfold crc32_byte. rewrite (crc32_shift8_table (Z.lxor c b)).
  f_equal. rewrite Z.shiftr_lxor.
  replace (Z.shiftr b 8) with 0; [now rewrite Z.lxor_0_r|].
  rewrite Z.shiftr_div_pow2 by lia. symmetry. apply Z.div_small.
  unfold is_byte in Hb. change (2 ^ 8) with 256. lia.
Qed.

Lemma crc_loop_fold_table (t : list Z) (c : Z) (buf : list Z) :
  (forall i, 0 <= i < 256 -> table_at t i = Nat.iter 8 crc32_shift i) ->
  Forall is_byte buf ->
  crc_loop t c buf = fold_left crc32_byte buf c.
Proof.
  intros Ht Hbuf. revert c.
  induction Hbuf as [|b buf Hb _ IH]; intros c; [reflexivity|].
  rewrite crc_loop_cons, fold_left_step, crc_table_step by assumption.
  apply IH.
Qed.

Lemma crc_loop_fold (c : Z) (buf : list Z) :
  Forall is_byte buf ->
  crc_loop make_crc_table c buf = fold_left crc32_byte buf c.
Proof. apply crc_loop_fold_table, table_at_make_crc_table. Qed.

(** Feeding a buffer in two parts: the checksum of the first part is the
    seed of the second. *)
Lemma crc_loop_app (t : list Z) (c : Z) (a b : list Z) :
  crc_loop t c (a ++ b) = crc_loop t (crc_loop t c a) b.
Proof. revert c. induction a as [|x a IH]; intros c; simpl; auto. Qed.

Lemma crc_app (seed : Z) (a b : list Z) :
  crc (crc seed a) b = crc seed (a ++ b).
Proof.
  unfold crc. rewrite crc_loop_app. do 2 f_equal.
  rewrite Z.lxor_assoc, Z.lxor_nilpotent. apply Z.lxor_0_r.
Qed.

Lemma crc_lazy_crc (g : crc_globals) (seed : Z) (buf : list Z) :
  crc_globals_ok g ->
  fst (crc_lazy g seed buf) = crc seed buf
  /\ crc_globals_ok (snd (crc_lazy g seed buf))
  /\ crc_table_computed (snd (crc_lazy g seed buf)) = true.
Proof.
  unfold crc_globals_ok, crc_lazy, crc. intros Hg.
  destruct (crc_table_computed g) eqn:E; simpl.
  - rewrite Hg by reflexivity. auto.
  - auto.
Qed.

End CrcTable.

Section CrcCorrect.
Import Crc.

(** C6.  [crc] is the CRC-32 of the PNG specification: the table has 256
    entries, entry [n] being [n] after eight shift-and-add rounds with the
    polynomial 0xEDB88320; the register starts as the seed XOR 0xFFFFFFFF,
    takes one table lookup per byte and is XORed with 0xFFFFFFFF at the
    end; on every byte sequence the result is that of the bit-at-a-time
    reference; [crc(0, empty) = 0]; and the known values for "123456789",
    for "IEND" and for a tEXt chunk (type followed by payload) come out. *)
Theorem crc_is_png_crc32 (seed : Z) (buf : list Z) :
  Forall is_byte buf ->
  length make_crc_table = 256%nat
  /\ (forall n : nat, (n < 256)%nat ->
        nth n make_crc_table 0 = Nat.iter 8 crc32_shift (Z.of_nat n))
  /\ crc seed buf
     = Z.lxor
         (fold_left
            (fun c b =>
               Z.lxor (nth (Z.to_nat (Z.land (Z.lxor c b) 255)) make_crc_table 0)
                      (Z.shiftr c 8))
            buf (Z.lxor seed 0xFFFFFFFF))
         0xFFFFFFFF
  /\ crc seed buf = crc32_reference seed buf
  /\ crc 0 [] = 0
  /\ crc 0 B"123456789" = 0xCBF43926
  /\ crc 0 B"IEND" = 0xAE426082
  /\ crc 0 (B"tEXt" ++ B"Thumb::MTime" ++ [0] ++ B"1700000000") = 0x15746B20
  /\ crc32_reference 0 (B"tEXt" ++ B"Thumb::MTime" ++ [0] ++ B"1700000000") = 0x15746B20.
Proof.
  intros Hbuf.
  split; [vm_compute; reflexivity|].
  split.
  { intros n Hn.
    rewrite <- (table_at_make_crc_table (Z.of_nat n)) by lia.
    unfold table_at. now rewrite Nat2Z.id. }
  split.
  { unfold crc. f_equal. generalize (Z.lxor seed 0xffffffff).
    clear Hbuf. induction buf as [|b buf IH]; intros c; simpl; [reflexivity|].
    now rewrite IH. }
  split.
  { unfold crc, crc32_reference. now rewrite crc_loop_fold. }
  repeat split; vm_compute; reflexivity.
Qed.

Lemma crc_is_png_crc32_witness :
  Forall is_byte (B"tEXt" ++ B"Thumb::URI" ++ [0] ++ B"file:///home/u/pic.jpg")
  /\ crc 0 (B"tEXt" ++ B"Thumb::URI" ++ [0] ++ B"file:///home/u/pic.jpg")
     = crc32_reference 0 (B"tEXt" ++ B"Thumb::URI" ++ [0] ++ B"file:///home/u/pic.jpg").
Proof.
  assert (H : Forall is_byte (B"tEXt" ++ B"Thumb::URI" ++ [0] ++ B"file:///home/u/pic.jpg"))
    by (by_compute).
  split; [exact H|].
  exact (proj1 (proj2 (proj2 (proj2 (crc_is_png_crc32 0 _ H))))).
Defined.

End CrcCorrect.

Section WriterFacts.
Import Crc CMem Writer.

Lemma poke_middle (a b c src : list Z) (off : nat) :
  off = length a -> length src = length b ->
  poke off src (a ++ b ++ c) = a ++ src ++ c.
Proof.
  intros -> Hlen. unfold poke.
  rewrite take_app_length. f_equal. f_equal.
  rewrite drop_app_add, Hlen.
  now rewrite drop_app_length.
Qed.

Lemma poke_front (b c src : list Z) :
  length src = length b -> poke 0 src (b ++ c) = src ++ c.
Proof. intros Hlen. now apply (poke_middle [] b c src 0). Qed.

Lemma chunk_buffer_layout (key value : list Z) :
  let n := length value in
  let k := length key in
  let output := g_malloc (4 + 4 + S k + n + 4) in
  let output := poke 0 (htonl_bytes (Z.of_nat (S k + n))) output in
  let output := poke 4 (B"tEXt" ++ key ++ [0]) output in
  let output := poke (9 + k) (value ++ [0]) output in
  poke (9 + k + n) (htonl_bytes (crc 0 (take (9 + k + n - 4) (drop 4 output)))) output
  = text_chunk key value.
Proof.
  intros n k. unfold text_chunk, g_malloc. fold n k. cbv zeta.
  replace (Z.of_nat (k + 1 + n)) with (Z.of_nat (S k + n)) by (f_equal; lia).
  set (H := htonl_bytes (Z.of_nat (S k + n))).
  set (L := B"tEXt" ++ key ++ [0]).
  assert (HL : length L = (5 + k)%nat)
    by (unfold L; rewrite !length_app; simpl; lia).
  replace (4 + 4 + S k + n + 4)%nat with (4 + ((5 + k) + (S n + 3)))%nat by lia.
  rewrite !replicate_add.
  rewrite (poke_front (replicate 4 0) _ H eq_refl).
  rewrite (poke_middle H (replicate (5 + k) 0) _ L)
    by (rewrite ?length_replicate; auto).
  rewrite (app_assoc H L).
  rewrite (poke_middle (H ++ L) (replicate (S n) 0) _ (value ++ [0]))
    by (rewrite ?length_app, ?length_replicate, ?HL; simpl; lia).
  replace ((H ++ L) ++ (value ++ [0]) ++ replicate 3 0)
    with ((H ++ L ++ value) ++ replicate 4 0 ++ [])
    by (rewrite <- !app_assoc; reflexivity).
  assert (Hcrc : take (9 + k + n - 4) (drop 4 ((H ++ L ++ value) ++ replicate 4 0 ++ []))
                 = B"tEXt" ++ key ++ [0] ++ value).
  { rewrite <- !app_assoc. rewrite drop_app_length' by reflexivity.
    rewrite (app_assoc L value). rewrite take_app_length'.
    - unfold L. now rewrite <- !app_assoc.
    - rewrite length_app, HL. lia. }
  rewrite Hcrc.
  rewrite (poke_middle (H ++ L ++ value) (replicate 4 0) [] _ (9 + k + n))
    by (rewrite ?length_app, ?HL; simpl; lia).
  rewrite app_nil_r. unfold L. rewrite <- !app_assoc. reflexivity.
Qed.

Lemma uri_output_chunk (uri : list Z) :
  uri_output uri = text_chunk B"Thumb::URI" uri.
Proof. exact (chunk_buffer_layout B"Thumb::URI" uri). Qed.

Lemma mtime_output_chunk (mtime : list Z) :
  mtime_output mtime = text_chunk B"Thumb::MTime" mtime.
Proof. exact (chunk_buffer_layout B"Thumb::MTime" mtime). Qed.

Lemma length_text_chunk (key value : list Z) :
  length (text_chunk key value) = (4 + 4 + S (length key) + length value + 4)%nat.
Proof. unfold text_chunk. rewrite !length_app. simpl. lia. Qed.

Lemma write_ok (f : out_file) (buf : list Z) :
  (length buf <= of_room f)%nat ->
  write f buf
  = (Z.of_nat (length buf),
     {| of_written := of_written f ++ buf; of_room := of_room f - length buf |}).
Proof.
  intros Hroom. unfold write.
  now rewrite (proj2 (Nat.leb_le _ _) Hroom).
Qed.

Lemma png_writer_forward_ok (W : list Z) (R n : nat) (uri mtime data : list Z) :
  (length data <= R)%nat ->
  png_writer_forward
    {| output_file_fd := {| of_written := W; of_room := R |}; bytes_written := n;
       Thumb_URI := uri; Thumb_MTime := mtime |} data
  = (CAIRO_STATUS_SUCCESS,
     {| output_file_fd := {| of_written := W ++ data; of_room := R - length data |};
        bytes_written := n + length data; Thumb_URI := uri; Thumb_MTime := mtime |}).
Proof.
  intros Hroom. unfold png_writer_forward.
  destruct data as [|b data].
  - simpl. now rewrite app_nil_r, Nat.sub_0_r, Nat.add_0_r.
  - change (0 <? length (b :: data))%nat with true. cbv iota.
    rewrite write_ok by exact Hroom.
    now rewrite Z.eqb_refl.
Qed.

Lemma png_writer_ok (W : list Z) (R n : nat) (uri mtime data : list Z) :
  (length (emitted uri mtime n data) <= R)%nat ->
  png_writer
    {| output_file_fd := {| of_written := W; of_room := R |}; bytes_written := n;
       Thumb_URI := uri; Thumb_MTime := mtime |} data
  = (CAIRO_STATUS_SUCCESS,
     {| output_file_fd :=
          {| of_written := W ++ emitted uri mtime n data;
             of_room := R - length (emitted uri mtime n data) |};
        bytes_written := n + length data; Thumb_URI := uri; Thumb_MTime := mtime |}).
Proof.
  unfold png_writer, emitted. cbn [bytes_written output_file_fd].
  destruct ((n <? inject_pos)%nat && (inject_pos <=? n + length data)%nat) eqn:Hinj;
    [|intros Hroom; now apply png_writer_forward_ok].
  apply andb_prop in Hinj as [Hlt Hge].
  apply Nat.ltb_lt in Hlt. apply Nat.leb_le in Hge.
  set (k := (inject_pos - n)%nat).
  assert (Hk : length (take k data) = k) by (rewrite length_take; lia).
  rewrite !length_app, Hk, !length_text_chunk, length_drop. intros Hroom.
  rewrite write_ok by (cbn [of_room]; lia).
  rewrite Hk, Z.eqb_refl.
  cbn [negb set_fd set_bytes_written output_file_fd bytes_written Thumb_URI
       Thumb_MTime of_written of_room].
  rewrite uri_output_chunk, mtime_output_chunk.
  unfold uri_output_length, mtime_output_length, strlen, sizeof_lit.
  rewrite (take_ge (text_chunk B"Thumb::URI" uri)),
    (take_ge (text_chunk B"Thumb::MTime" mtime))
    by (rewrite length_text_chunk; simpl; lia).
  rewrite write_ok by (cbn [of_room]; rewrite !length_text_chunk; lia).
  rewrite length_text_chunk at 1. rewrite Z.eqb_refl.
  cbn [negb set_fd set_bytes_written output_file_fd bytes_written Thumb_URI
       Thumb_MTime of_written of_room].
  rewrite write_ok by (cbn [of_room]; rewrite !length_text_chunk; lia).
  rewrite (length_text_chunk B"Thumb::MTime") at 1. rewrite Z.eqb_refl.
  cbn [negb set_fd set_bytes_written output_file_fd bytes_written Thumb_URI
       Thumb_MTime of_written of_room].
  unfold set_fd, set_bytes_written.
  cbn [output_file_fd bytes_written Thumb_URI Thumb_MTime].
  rewrite png_writer_forward_ok by (rewrite length_drop, !length_text_chunk; lia).
  rewrite length_drop, !length_text_chunk, <- !app_assoc.
  do 2 f_equal; [f_equal|]; lia.
Qed.

Lemma stream_ok (uri mtime : list Z) (final : cairo_status_t) (calls : list (list Z)) :
  forall (W : list Z) (R n : nat),
  (length (emit_all uri mtime n calls) <= R)%nat ->
  cairo_surface_write_to_png_stream calls final png_writer
    {| output_file_fd := {| of_written := W; of_room := R |}; bytes_written := n;
       Thumb_URI := uri; Thumb_MTime := mtime |}
  = (final,
     {| output_file_fd :=
          {| of_written := W ++ emit_all uri mtime n calls;
             of_room := R - length (emit_all uri mtime n calls) |};
        bytes_written := n + length (concat calls);
        Thumb_URI := uri; Thumb_MTime := mtime |}).
Proof.
  induction calls as [|data calls IH]; intros W R n Hroom.
  - simpl. now rewrite app_nil_r, Nat.sub_0_r, Nat.add_0_r.
  - cbn [emit_all] in *. rewrite length_app in Hroom.
    cbn [cairo_surface_write_to_png_stream].
    rewrite png_writer_ok by lia. cbn [is_success].
    rewrite IH by lia.
    rewrite length_app, <- app_assoc. cbn [concat]. rewrite length_app.
    f_equal. f_equal; [|lia]. f_equal. lia.
Qed.

Lemma emit_all_passthrough (uri mtime : list Z) (calls : list (list Z)) (n : nat) :
  (inject_pos <= n \/ n + length (concat calls) < inject_pos)%nat ->
  emit_all uri mtime n calls = concat calls.
Proof.
  revert n. induction calls as [|data calls IH]; intros n Hn; [reflexivity|].
  cbn [emit_all concat] in *. rewrite length_app in Hn.
  rewrite IH by lia. f_equal. unfold emitted.
  destruct (n <? inject_pos)%nat eqn:E1; [|reflexivity].
  destruct (inject_pos <=? n + length data)%nat eqn:E2; [|reflexivity].
  apply Nat.ltb_lt in E1. apply Nat.leb_le in E2. lia.
Qed.

Lemma emit_all_inject (uri mtime : list Z) (calls : list (list Z)) (n : nat) :
  (n < inject_pos)%nat -> (inject_pos <= n + length (concat calls))%nat ->
  emit_all uri mtime n calls
  = take (inject_pos - n) (concat calls)
    ++ text_chunk B"Thumb::URI" uri ++ text_chunk B"Thumb::MTime" mtime
    ++ drop (inject_pos - n) (concat calls).
Proof.
  revert n. induction calls as [|data calls IH]; intros n Hlt Hge.
  - simpl in Hge. lia.
  - cbn [emit_all concat] in *. rewrite length_app in Hge. unfold emitted.
    rewrite (proj2 (Nat.ltb_lt _ _) Hlt). cbn [andb].
    destruct (inject_pos <=? n + length data)%nat eqn:E.
    + apply Nat.leb_le in E.
      rewrite emit_all_passthrough by lia.
      rewrite take_app_le, drop_app_le by lia.
      now rewrite <- !app_assoc.
    + apply Nat.leb_gt in E.
      rewrite IH by lia.
      rewrite take_app_ge, drop_app_ge by lia.
      rewrite <- !app_assoc.
      replace (inject_pos - (n + length data))%nat
        with (inject_pos - n - length data)%nat by lia.
      reflexivity.
Qed.

End WriterFacts.

Section WriterCorrect.
Import Crc CMem Scanner Writer.

Lemma writer_run (uri mtime : list Z) (room : nat) (calls : list (list Z)) :
  let stream := concat calls in
  (33 <= length stream)%nat ->
  (length (splice uri mtime stream) <= room)%nat ->
  cairo_surface_write_to_png_stream calls CAIRO_STATUS_SUCCESS png_writer
    (writer_start room uri mtime)
  = (CAIRO_STATUS_SUCCESS,
     {| output_file_fd :=
          {| of_written := splice uri mtime stream;
             of_room := room - length (splice uri mtime stream) |};
        bytes_written := length stream; Thumb_URI := uri; Thumb_MTime := mtime |}).
Proof.
  intros stream Hlen Hroom. unfold writer_start.
  assert (E : emit_all uri mtime 0 calls = splice uri mtime stream).
  { rewrite emit_all_inject by (unfold inject_pos; simpl; fold stream; lia).
    reflexivity. }
  rewrite stream_ok by (rewrite E; exact Hroom).
  now rewrite E.
Qed.

(** C9.  The interceptor's result does not depend on how the encoder cuts
    the stream into write calls: for a stream of at least 33 bytes handed
    over in any sequence of calls, the calls succeed, they leave the
    closure exactly as one call with the whole stream leaves it, and the
    bytes written are the stream with the two chunks spliced in at offset
    33. *)
Theorem png_writer_partition_independent
    (uri mtime : list Z) (room : nat) (calls : list (list Z)) :
  (33 <= length (concat calls))%nat ->
  (length (splice uri mtime (concat calls)) <= room)%nat ->
  let run := cairo_surface_write_to_png_stream calls CAIRO_STATUS_SUCCESS
               png_writer (writer_start room uri mtime) in
  run = png_writer (writer_start room uri mtime) (concat calls)
  /\ fst run = CAIRO_STATUS_SUCCESS
  /\ of_written (output_file_fd (snd run)) = splice uri mtime (concat calls).
Proof.
  intros Hlen Hroom run. subst run.
  rewrite writer_run by assumption.
  split; [|split; reflexivity].
  pose proof (writer_run uri mtime room [concat calls]) as H1.
  cbn [concat] in H1. rewrite app_nil_r in H1.
  specialize (H1 Hlen Hroom). cbn [cairo_surface_write_to_png_stream] in H1.
  destruct (png_writer (writer_start room uri mtime) (concat calls)) as [st info].
  destruct st; cbn [is_success] in H1; congruence.
Qed.

Lemma png_writer_partition_independent_witness :
  let calls := [Scanner.expected_header; [0; 0; 0; 13] ++ B"IHDR";
                replicate 17 1; []; B"IDAT"; B"IEND"] in
  of_written (output_file_fd (snd
    (cairo_surface_write_to_png_stream calls CAIRO_STATUS_SUCCESS png_writer
       (writer_start 200 B"file:///a" B"17"))))
  = splice B"file:///a" B"17" (concat calls).
Proof.
  intros calls.
  refine (proj2 (proj2 (png_writer_partition_independent
                          B"file:///a" B"17" 200 calls _ _))).
  - vm_compute. lia.
  - vm_compute. lia.
Defined.

(** C2, as the code has it.  For every stream of at least 33 bytes that
    goes through the interceptor, in whatever pieces, the output is the
    first 33 bytes (33 = 8 + 8 + 13 + 4), then the Thumb::URI chunk, then
    the Thumb::MTime chunk, then the rest of the stream; each chunk is the
    length of [key NUL value] in four bytes, the type tEXt, the key, a NUL,
    the value, and the CRC of type and payload in four bytes. *)
Theorem png_writer_splices_at_33
    (uri mtime : list Z) (room : nat) (calls : list (list Z)) :
  let stream := concat calls in
  (33 <= length stream)%nat ->
  (length (splice uri mtime stream) <= room)%nat ->
  inject_pos = (8 + 8 + 13 + 4)%nat
  /\ of_written (output_file_fd (snd
       (cairo_surface_write_to_png_stream calls CAIRO_STATUS_SUCCESS png_writer
          (writer_start room uri mtime))))
     = take 33 stream
       ++ (htonl_bytes (Z.of_nat (length (B"Thumb::URI" ++ [0]) + length uri))
           ++ B"tEXt" ++ B"Thumb::URI" ++ [0] ++ uri
           ++ htonl_bytes (crc 0 (B"tEXt" ++ B"Thumb::URI" ++ [0] ++ uri)))
       ++ (htonl_bytes (Z.of_nat (length (B"Thumb::MTime" ++ [0]) + length mtime))
           ++ B"tEXt" ++ B"Thumb::MTime" ++ [0] ++ mtime
           ++ htonl_bytes (crc 0 (B"tEXt" ++ B"Thumb::MTime" ++ [0] ++ mtime)))
       ++ drop 33 stream.
Proof.
  intros stream Hlen Hroom. split; [reflexivity|].
  rewrite writer_run by assumption. cbn [snd output_file_fd of_written].
  unfold splice, text_chunk. fold stream.
  rewrite <- !app_assoc. reflexivity.
Qed.

Lemma png_writer_splices_at_33_witness :
  let calls := [Scanner.expected_header ++ [0; 0; 0; 13] ++ B"IHDR";
                replicate 17 1 ++ B"IDAT"] in
  take 33 (of_written (output_file_fd (snd
    (cairo_surface_write_to_png_stream calls CAIRO_STATUS_SUCCESS png_writer
       (writer_start 200 B"file:///a" B"17")))))
  = take 33 (concat calls).
Proof.
  intros calls.
  rewrite (proj2 (png_writer_splices_at_33 B"file:///a" B"17" 200 calls
                    ltac:(vm_compute; lia) ltac:(vm_compute; lia))).
  vm_compute. reflexivity.
Defined.

(** C2 as stated fails on a stream shorter than 33 bytes: nothing is
    injected, the output is the input. *)
Lemma png_writer_short_stream_unchanged :
  let uri := B"file:///home/u/pic.jpg" in
  let mtime := B"1700000000" in
  let stream := Scanner.expected_header in
  let output :=
    of_written (output_file_fd (snd
      (cairo_surface_write_to_png_stream [stream] CAIRO_STATUS_SUCCESS png_writer
         (writer_start 1000 uri mtime)))) in
  output = stream
  /\ output <> take 33 stream ++ text_chunk B"Thumb::URI" uri
               ++ text_chunk B"Thumb::MTime" mtime ++ drop 33 stream.
Proof. vm_compute. split; [reflexivity|discriminate]. Qed.

End WriterCorrect.

Section ScannerFacts.
Import Crc CMem Scanner Chunks.

Lemma scan_chunks_loop uri mtime um mm fd :
  scan_chunks uri mtime um mm fd
  = match scan_iteration uri mtime um mm fd with
    | Return r => r
    | Continue um' mm' fd' => scan_chunks uri mtime um' mm' fd'
    end.
Proof.
  rewrite scan_chunks_equation_1.
  destruct (Logic.inspect (scan_iteration uri mtime um mm fd)) as [[r|um' mm' fd'] e].
  - rewrite scan_chunks_clause_1_equation_1. now rewrite e.
  - rewrite scan_chunks_clause_1_equation_2. now rewrite e.
Qed.

Lemma ntohl_htonl (v : Z) (rest : list Z) :
  ntohl_at (htonl_bytes v ++ rest) = v mod 2 ^ 32.
Proof.
  unfold htonl_bytes, ntohl_at. cbn [app].
  assert (Hv : 0 <= v mod 2 ^ 32 < 2 ^ 32) by (apply Z.mod_pos_bound; lia).
  set (x := v mod 2 ^ 32) in *.
  change (2 ^ 16) with (2 ^ 8 * 2 ^ 8). change (2 ^ 24) with (2 ^ 8 * 2 ^ 8 * 2 ^ 8).
  rewrite <- !Z.div_div by lia.
  change (2 ^ 8) with 256.
  pose proof (Z.div_mod x 256 ltac:(lia)).
  pose proof (Z.div_mod (x / 256) 256 ltac:(lia)).
  pose proof (Z.div_mod (x / 256 / 256) 256 ltac:(lia)).
  pose proof (Z.mod_pos_bound x 256 ltac:(lia)).
  pose proof (Z.mod_pos_bound (x / 256) 256 ltac:(lia)).
  pose proof (Z.mod_pos_bound (x / 256 / 256) 256 ltac:(lia)).
  lia.
Qed.

Lemma length_htonl_bytes (v : Z) : length (htonl_bytes v) = 4%nat.
Proof. reflexivity. Qed.

Lemma length_chunk_bytes (c : chunk) :
  length (chunk_bytes c) = (12 + length (c_type c) - 4 + length (c_data c))%nat.
Proof. unfold chunk_bytes. rewrite !length_app, !length_htonl_bytes. lia. Qed.

Lemma scan_iteration_chunk uri mtime um mm (c : chunk) (rest : list Z) :
  chunk_wf c ->
  scan_iteration uri mtime um mm (chunk_bytes c ++ rest)
  = chunk_step uri mtime um mm c rest.
Proof.
  intros (Hty & Hlen & Hcrc).
  unfold scan_iteration, chunk_step, read, chunk_bytes, lseek_cur, is_text, crc_valid.
  set (H := htonl_bytes (Z.of_nat (length (c_data c)))).
  set (C := htonl_bytes (c_crc c)).
  replace ((H ++ c_type c ++ c_data c ++ C) ++ rest)
    with ((H ++ c_type c) ++ c_data c ++ C ++ rest) by (now rewrite <- !app_assoc).
  assert (E8 : length (H ++ c_type c) = 8%nat) by (rewrite length_app, Hty; reflexivity).
  rewrite (take_app_length' (H ++ c_type c)), (drop_app_length' (H ++ c_type c))
    by (symmetry; exact E8).
  rewrite E8. change (8 =? 8)%nat with true. cbn [negb].
  rewrite (drop_app_length' H) by reflexivity.
  assert (EH : ntohl_at (H ++ c_type c) = Z.of_nat (length (c_data c)))
    by (unfold H; rewrite ntohl_htonl; apply Z.mod_small; lia).
  rewrite !EH.
  rewrite Nat2Z.id.
  case_bool_decide as Htext.
  - rewrite take_app_length, drop_app_length, Z.eqb_refl. cbn [negb].
    rewrite (take_app_length' C), (drop_app_length' C) by reflexivity.
    change (length C =? 4)%nat with true. cbn [negb].
    unfold C. rewrite <- (app_nil_r (htonl_bytes (c_crc c))), ntohl_htonl.
    rewrite (Z.mod_small (c_crc c)) by lia.
    rewrite crc_app, Htext. reflexivity.
  - rewrite (Z.mod_small (_ + 4)) by lia.
    rewrite (app_assoc (c_data c)).
    replace (Z.to_nat (Z.of_nat (length (c_data c)) + 4)) with (length (c_data c ++ C))
      by (rewrite length_app; unfold C; rewrite length_htonl_bytes; lia).
    now rewrite drop_app_length.
Qed.

Lemma strcmp_is0_prefix (lit data : list Z) :
  (strcmp_is0 data lit = Some true -> (lit ++ [0]) `prefix_of` data)
  /\ (strcmp_is0 data lit = Some false -> ~ (lit ++ [0]) `prefix_of` data).
Proof.
  revert data. induction lit as [|c lit IH]; intros [|a data]; cbn [strcmp_is0 app];
    try (split; discriminate).
  - split; intros [= E]; apply Z.eqb_eq in E || apply Z.eqb_neq in E.
    + subst. apply prefix_cons, prefix_nil.
    + intros [k Hk]. simplify_eq/=.
  - destruct (Z.eqb_spec a c) as [->|Hne].
    + destruct (IH data) as [IH1 IH2]. split; intros E.
      * apply prefix_cons; auto.
      * intros Hp. apply prefix_cons_inv_2 in Hp. now apply IH2.
    + split; [discriminate|]. intros _ Hp. apply prefix_cons_inv_1 in Hp. congruence.
Qed.

Lemma strncmp_is0_prefix (s p : list Z) (b : bool) :
  strncmp_is0 p s (length s) = Some b -> b = value_matches s p.
Proof.
  unfold value_matches. revert p. induction s as [|c s IH]; intros p; cbn [strncmp_is0 length].
  - intros [= <-]. symmetry. apply bool_decide_eq_true. apply prefix_nil.
  - destruct p as [|a p]; [discriminate|].
    destruct (Z.eqb_spec a c) as [->|Hne].
    + intros E. apply IH in E. etrans; [exact E|]. apply bool_decide_ext.
      split; [apply prefix_cons|apply prefix_cons_inv_2].
    + intros [= <-]. symmetry. apply bool_decide_eq_false.
      intros Hp. apply prefix_cons_inv_1 in Hp. congruence.
Qed.


Lemma keys_exclusive (data : list Z) :
  (B"Thumb::URI" ++ [0]) `prefix_of` data ->
  ~ (B"Thumb::MTime" ++ [0]) `prefix_of` data.
Proof.
  intros H1 H2.
  destruct (prefix_weak_total _ _ _ H1 H2) as [H|H]; revert H;
    apply (bool_decide_eq_false_1 _); vm_compute; reflexivity.
Qed.

Lemma update_matches_spec (uri : list Z) (mtime : Z) (data : list Z) (um mm : bool)
    (r : bool * bool) :
  update_matches uri mtime data um mm = Some r ->
  r = (if decide ((B"Thumb::URI" ++ [0]) `prefix_of` data)
       then value_matches uri (drop 11 data) else um,
       if decide ((B"Thumb::MTime" ++ [0]) `prefix_of` data)
       then value_matches (printf_lu mtime) (drop 13 data) else mm).
Proof.
  unfold update_matches, strlen, sizeof_lit.
  destruct (strcmp_is0_prefix B"Thumb::URI" data) as [U1 U2].
  destruct (strcmp_is0_prefix B"Thumb::MTime" data) as [M1 M2].
  destruct (strcmp_is0 data B"Thumb::URI") as [[|]|]; [| |discriminate].
  - specialize (U1 eq_refl).
    destruct (strncmp_is0 _ uri _) as [b|] eqn:E; [|discriminate].
    intros [= <-]. apply strncmp_is0_prefix in E.
    rewrite decide_True by assumption.
    rewrite decide_False by now apply keys_exclusive.
    now rewrite E.
  - specialize (U2 eq_refl). rewrite (decide_False (P := _ `prefix_of` data)) by exact U2.
    destruct (strcmp_is0 data B"Thumb::MTime") as [[|]|]; [| |discriminate].
    + specialize (M1 eq_refl).
      destruct (strncmp_is0 _ (printf_lu mtime) _) as [b|] eqn:E; [|discriminate].
      intros [= <-]. apply strncmp_is0_prefix in E.
      rewrite decide_True by assumption. now rewrite E.
    + specialize (M2 eq_refl). rewrite decide_False by exact M2. now intros [= <-].
Qed.

Lemma update_matches_defined (uri : list Z) (mtime : Z) (data : list Z) (um mm : bool) :
  update_matches uri mtime data false false <> None ->
  update_matches uri mtime data um mm <> None.
Proof.
  unfold update_matches.
  repeat (case_match; try discriminate; try congruence).
Qed.

Lemma latest_matches_from_cons (init : bool) (key expected : list Z)
    (c : chunk) (cs : list chunk) :
  latest_matches_from init key expected (c :: cs)
  = latest_matches_from
      (if decide (keyed key c) then value_matches expected (chunk_value key c) else init)
      key expected cs.
Proof.
  unfold latest_matches_from. rewrite filter_cons.
  destruct (decide (keyed key c)); [|reflexivity].
  rewrite last_cons. now destruct (last _).
Qed.

Lemma scan_chunks_short uri mtime um mm (fd : list Z) :
  (length fd < 8)%nat -> scan_chunks uri mtime um mm fd = Returns false.
Proof.
  intros Hlen. rewrite scan_chunks_loop. unfold scan_iteration, read.
  rewrite length_take.
  destruct (Nat.eqb_spec (8 `min` length fd) 8) as [E|E]; [lia|reflexivity].
Qed.

Lemma scan_chunks_cons uri mtime um mm (c : chunk) (rest : list Z) :
  chunk_wf c ->
  scan_chunks uri mtime um mm (chunk_bytes c ++ rest)
  = match chunk_step uri mtime um mm c rest with
    | Return r => r
    | Continue um' mm' fd' => scan_chunks uri mtime um' mm' fd'
    end.
Proof. intros Hwf. now rewrite scan_chunks_loop, scan_iteration_chunk. Qed.

Lemma check_png_stream_header (body uri : list Z) (mtime : Z) :
  check_png_stream (expected_header ++ body) uri mtime
  = scan_chunks uri mtime false false body.
Proof.
  unfold check_png_stream, read.
  rewrite (take_app_length' expected_header), (drop_app_length' expected_header)
    by reflexivity.
  change (length expected_header =? 8)%nat with true. cbn [negb].
  now rewrite bool_decide_eq_true_2.
Qed.

Lemma if_keyed {A : Type} (key : list Z) (c : chunk) (x y : A) :
  (if decide (keyed key c) then x else y)
  = (if is_text c && crc_valid c && bool_decide ((key ++ [0]) `prefix_of` c_data c)
     then x else y).
Proof.
  destruct (decide (keyed key c)) as [(H1 & H2 & H3)|Hn].
  - now rewrite H1, H2, bool_decide_eq_true_2.
  - destruct (is_text c) eqn:E1, (crc_valid c) eqn:E2; try reflexivity.
    case_bool_decide; [|reflexivity]. exfalso. apply Hn. now repeat split.
Qed.

(** The flags after a chunk, in terms of its key. *)
Lemma chunk_step_keyed uri mtime um mm (c : chunk) (rest : list Z) :
  readable uri mtime c -> um && mm = false ->
  let um1 := if decide (keyed B"Thumb::URI" c)
             then value_matches uri (chunk_value B"Thumb::URI" c) else um in
  let mm1 := if decide (keyed B"Thumb::MTime" c)
             then value_matches (printf_lu mtime) (chunk_value B"Thumb::MTime" c)
             else mm in
  chunk_step uri mtime um mm c rest
  = if um1 && mm1 then Return (Returns true) else Continue um1 mm1 rest.
Proof.
  intros Hread Hflags um1 mm1. subst um1 mm1. rewrite !if_keyed.
  unfold chunk_step, chunk_value. unfold readable in Hread.
  destruct (is_text c); [|cbn [andb]; now rewrite Hflags].
  destruct (crc_valid c); [|cbn [andb]; now rewrite Hflags].
  cbn [andb].
  specialize (Hread eq_refl eq_refl).
  apply (update_matches_defined _ _ _ um mm) in Hread.
  destruct (update_matches uri mtime (c_data c) um mm) as [[um' mm']|] eqn:E;
    [|congruence].
  apply update_matches_spec in E. injection E as -> ->.
  rewrite !decide_bool_decide. reflexivity.
Qed.

Lemma scan_chunks_latest uri mtime (cs : list chunk) :
  Forall chunk_wf cs -> Forall (readable uri mtime) cs ->
  forall um mm, um && mm = false ->
  exists b : bool,
    scan_chunks uri mtime um mm (concat (map chunk_bytes cs)) = Returns b
    /\ (b = true <->
        exists k, (k <= length cs)%nat
          /\ latest_matches_from um B"Thumb::URI" uri (take k cs) = true
          /\ latest_matches_from mm B"Thumb::MTime" (printf_lu mtime) (take k cs) = true).
Proof.
  intros Hwf Hread. induction cs as [|c cs IH]; intros um mm Hflags.
  - exists false. split; [apply scan_chunks_short; simpl; lia|].
    split; [discriminate|]. intros (k & _ & H1 & H2).
    rewrite take_nil in H1, H2. cbn in H1, H2. subst. discriminate.
  - inversion Hwf as [|? ? Hc Hcs]; subst. inversion Hread as [|? ? Rc Rcs]; subst.
    cbn [map concat]. rewrite scan_chunks_cons by assumption.
    rewrite (chunk_step_keyed _ _ _ _ _ _ Rc Hflags).
    set (um1 := if decide (keyed B"Thumb::URI" c) then _ else um).
    set (mm1 := if decide (keyed B"Thumb::MTime" c) then _ else mm).
    destruct (um1 && mm1) eqn:E1.
    + exists true. split; [reflexivity|]. split; [|reflexivity]. intros _.
      exists 1%nat. cbn [take length]. rewrite take_0, !latest_matches_from_cons.
      fold um1 mm1. apply andb_prop in E1 as [-> ->].
      split; [lia|]. split; reflexivity.
    + destruct (IH Hcs Rcs um1 mm1 E1) as (b & Hb & Hiff).
      exists b. split; [exact Hb|]. rewrite Hiff. split.
      * intros (k & Hk & H1 & H2). exists (S k). cbn [take length].
        rewrite !latest_matches_from_cons. fold um1 mm1. split; [lia|]. now split.
      * intros ([|k] & Hk & H1 & H2).
        -- rewrite take_0 in H1, H2. cbn in H1, H2. subst. discriminate.
        -- cbn [take length] in *. rewrite !latest_matches_from_cons in H1, H2.
           exists k. split; [lia|]. now split.
Qed.

Lemma scan_chunks_prefix_irrelevant uri mtime (pre : list chunk) (a b : list Z) :
  Forall chunk_wf pre ->
  (forall um mm, scan_chunks uri mtime um mm a = scan_chunks uri mtime um mm b) ->
  forall um mm,
  scan_chunks uri mtime um mm (concat (map chunk_bytes pre) ++ a)
  = scan_chunks uri mtime um mm (concat (map chunk_bytes pre) ++ b).
Proof.
  intros Hwf Hab. induction Hwf as [|c pre Hc _ IH]; intros um mm; [apply Hab|].
  cbn [map concat]. rewrite <- !app_assoc, !scan_chunks_cons by assumption.
  unfold chunk_step.
  destruct (is_text c); [|apply IH].
  destruct (crc_valid c); [|apply IH].
  destruct (update_matches uri mtime (c_data c) um mm) as [[u m]|]; [|reflexivity].
  destruct (u && m); [reflexivity|apply IH].
Qed.

End ScannerFacts.

Section ScannerCorrect.
Import Crc CMem Scanner Chunks Examples.

(** C5.  A tEXt chunk whose stored checksum differs from the CRC-32
    recomputed over its type and payload is never taken for a match,
    whatever its key and value say: the loop iteration leaves both match
    flags as they were and goes on with the next chunk, and the call
    returns what it returns on the file without that chunk. *)
Theorem corrupt_text_chunk_ignored (uri : list Z) (mtime : Z)
    (pre : list chunk) (c : chunk) (rest : list Z) (um mm : bool) :
  Forall chunk_wf pre -> chunk_wf c ->
  c_type c = B"tEXt" ->
  c_crc c <> crc 0 (B"tEXt" ++ c_data c) mod 2 ^ 32 ->
  scan_iteration uri mtime um mm (chunk_bytes c ++ rest) = Continue um mm rest
  /\ scan_chunks uri mtime um mm (chunk_bytes c ++ rest)
     = scan_chunks uri mtime um mm rest
  /\ check_png_stream
       (expected_header ++ concat (map chunk_bytes pre) ++ chunk_bytes c ++ rest)
       uri mtime
     = check_png_stream (expected_header ++ concat (map chunk_bytes pre) ++ rest)
         uri mtime.
Proof.
  intros Hpre Hc Hty Hcrc.
  assert (Hstep : forall um mm,
            scan_iteration uri mtime um mm (chunk_bytes c ++ rest) = Continue um mm rest).
  { intros um' mm'. rewrite scan_iteration_chunk by assumption.
    unfold chunk_step, is_text, crc_valid.
    rewrite bool_decide_eq_true_2 by assumption.
    apply Z.eqb_neq in Hcrc. now rewrite Hty, Hcrc. }
  assert (Hskip : forall um mm,
            scan_chunks uri mtime um mm (chunk_bytes c ++ rest)
            = scan_chunks uri mtime um mm rest).
  { intros um' mm'. now rewrite scan_chunks_loop, Hstep. }
  split; [apply Hstep|]. split; [apply Hskip|].
  rewrite !check_png_stream_header.
  now apply scan_chunks_prefix_irrelevant.
Qed.





Lemma corrupt_text_chunk_ignored_witness :
  let uri := B"file:///a" in
  let good := text0 B"Thumb::URI" uri in
  let bad := flip_crc good in
  let rest := chunk_bytes (text0 B"Thumb::MTime" B"17") in
  check_png_stream (expected_header ++ chunk_bytes ihdr0 ++ chunk_bytes good ++ rest) uri 17
  = Returns true
  /\ check_png_stream (expected_header ++ chunk_bytes ihdr0 ++ chunk_bytes bad ++ rest) uri 17
     = Returns false.
Proof.
  intros uri good bad rest. split; [vm_compute; reflexivity|].
  pose proof (corrupt_text_chunk_ignored uri 17 [ihdr0] bad rest false false) as H.
  cbn [map concat] in H. rewrite app_nil_r in H.
  rewrite (proj2 (proj2 (H ltac:(by_compute)
                           ltac:(by_compute)
                           eq_refl
                           ltac:(vm_compute; discriminate)))).
  vm_compute. reflexivity.
Defined.



(** C10.  The two match flags are overwritten, not latched.  On a file
    made of the signature and well-formed chunks that the scanner can look
    at without leaving their payloads, [check_png_attributes] returns
    TRUE exactly when, after some number of chunks from the start, the
    last Thumb::URI chunk with a valid checksum and the last Thumb::MTime
    chunk with a valid checksum both match; otherwise it returns FALSE.
    And there is a file that holds a matching Thumb::URI chunk and a
    matching Thumb::MTime chunk for which it returns FALSE, a later
    Thumb::URI chunk for another file having cleared the first flag. *)
Theorem match_flags_overwritten (uri : list Z) (mtime : Z) (cs : list chunk) :
  Forall chunk_wf cs -> Forall (readable uri mtime) cs ->
  (check_png_stream (png_file cs) uri mtime = Returns true
   <-> exists k, (k <= length cs)%nat
         /\ latest_matches B"Thumb::URI" uri (take k cs) = true
         /\ latest_matches B"Thumb::MTime" (printf_lu mtime) (take k cs) = true)
  /\ (check_png_stream (png_file cs) uri mtime = Returns true
      \/ check_png_stream (png_file cs) uri mtime = Returns false)
  /\ (exists (uri0 : list Z) (mtime0 : Z) (cs0 : list chunk) (u m : chunk),
        Forall chunk_wf cs0 /\ Forall (readable uri0 mtime0) cs0
        /\ u ∈ cs0 /\ keyed B"Thumb::URI" u
        /\ value_matches uri0 (chunk_value B"Thumb::URI" u) = true
        /\ m ∈ cs0 /\ keyed B"Thumb::MTime" m
        /\ value_matches (printf_lu mtime0) (chunk_value B"Thumb::MTime" m) = true
        /\ check_png_stream (png_file cs0) uri0 mtime0 = Returns false).
Proof.
  intros Hwf Hread.
  destruct (scan_chunks_latest uri mtime cs Hwf Hread false false eq_refl)
    as (b & Hb & Hiff).
  unfold png_file. rewrite check_png_stream_header, Hb.
  split; [|split].
  - rewrite <- Hiff. split; [now intros [= ->]|now intros ->].
  - destruct b; auto.
  - exists (B"file:///a"), 17, dup_uri_file,
      (text0 B"Thumb::URI" B"file:///a"), (text0 B"Thumb::MTime" B"17").
    assert (Hin : forall (x : chunk) l1 l2, x ∈ l1 ++ x :: l2)
      by (intros; apply elem_of_app; right; left).
    split; [by_compute|].
    split; [by_compute|].
    split; [apply (Hin _ [_])|].
    split; [by_compute|].
    split; [vm_compute; reflexivity|].
    split; [apply (Hin _ [_; _; _])|].
    split; [by_compute|].
    split; vm_compute; reflexivity.
Qed.

Lemma match_flags_overwritten_witness :
  let cs := [ihdr0; text0 B"Thumb::URI" B"file:///b"; text0 B"Thumb::URI" B"file:///a";
             text0 B"Thumb::MTime" B"17"; text0 B"Thumb::MTime" B"18"] in
  check_png_stream (png_file cs) B"file:///a" 17 = Returns true.
Proof.
  intros cs.
  apply (proj1 (match_flags_overwritten B"file:///a" 17 cs
                  ltac:(by_compute)
                  ltac:(by_compute))).
  exists 4%nat. vm_compute. repeat split; lia.
Defined.

End ScannerCorrect.

Section CacheFacts.
Import Crc CMem Scanner Writer Chunks Cache.
Context {ext : Externals}.

(** The cache directory is resolved once; [get_thumbnail_cache_directory]
    touches nothing but the directory set and its own static pointer. *)
Lemma get_thumbnail_cache_directory_frame (w : world) :
  let '(dir, w1) := get_thumbnail_cache_directory w in
  w_cache_directory w1 = Some dir
  /\ get_thumbnail_cache_directory w1 = (dir, w1)
  /\ w_files w1 = w_files w /\ w_mtime w1 = w_mtime w /\ w_open w1 = w_open w
  /\ w_room w1 = w_room w /\ w_stack_mtime w1 = w_stack_mtime w.
Proof.
  unfold get_thumbnail_cache_directory.
  destruct (w_cache_directory w) as [dir|] eqn:E.
  - rewrite E. auto 10.
  - cbn. auto 10.
Qed.

Lemma search_cache_tried (n j : nat) (md5 uri : list Z) (mtime width height : Z)
    (w : world) (dir : list Z) :
  w_cache_directory w = Some dir ->
  let '(tried, r) := search_cache n j md5 uri mtime width height w in
  tried `prefix_of` candidates dir md5 j n
  /\ ((0 < n)%nat -> tried <> [])
  /\ (forall t w', r = Returns (t, w') -> w' = w)
  /\ (forall w', r = Returns (None, w') -> tried = candidates dir md5 j n)
  /\ ((forall cand, cand ∈ candidates dir md5 j n ->
         load_thumbnail w cand uri mtime width height = Returns None) ->
      r = Returns (None, w)).
Proof.
  intros Hdir. revert j. induction n as [|n IH]; intros j.
  - cbn. split; [done|]. split; [lia|]. split; [now intros t w' [= _ <-]|]. done.
  - cbn [search_cache]. unfold get_thumbnail_cache_directory. rewrite Hdir.
    specialize (IH (S j)).
    destruct (search_cache n (S j) md5 uri mtime width height w) as [tried r].
    destruct IH as (IH1 & IH2 & IH3 & IH4 & IH5).
    change (candidates dir md5 j (S n))
      with (candidate_name dir j md5 :: candidates dir md5 (S j) n).
    set (cand := candidate_name dir j md5).
    assert (Hrest : (cand :: tried) `prefix_of` (cand :: candidates dir md5 (S j) n)
              /\ ((0 < S n)%nat -> cand :: tried <> [])
              /\ (forall t w', r = Returns (t, w') -> w' = w)
              /\ (forall w', r = Returns (None, w') ->
                    cand :: tried = cand :: candidates dir md5 (S j) n)
              /\ ((forall c, c ∈ cand :: candidates dir md5 (S j) n ->
                     load_thumbnail w c uri mtime width height = Returns None) ->
                  r = Returns (None, w))).
    { split; [now apply prefix_cons|]. split; [done|]. split; [exact IH3|].
      split; [intros w' Hr; f_equal; eauto|].
      intros Hall. apply IH5. intros c Hc. apply Hall. now right. }
    destruct (g_file_test_exists w cand); [|exact Hrest].
    destruct (load_thumbnail w cand uri mtime width height) as [[t|]|why] eqn:EL;
      [| exact Hrest |].
    + split; [apply prefix_cons, prefix_nil|]. split; [done|].
      split; [now intros t' w' [= _ <-]|]. split; [discriminate|].
      intros Hall. rewrite Hall in EL by left. discriminate.
    + split; [apply prefix_cons, prefix_nil|]. split; [done|].
      split; [discriminate|]. split; [discriminate|].
      intros Hall. rewrite Hall in EL by left. discriminate.
Qed.

Lemma search_shared_tried (n j : nat) (dir md5 : list Z) (w : world) :
  let '(tried, r) := search_shared n j dir md5 w in
  tried `prefix_of` candidates dir md5 j n
  /\ ((0 < n)%nat -> tried <> [])
  /\ (forall t w', r = Returns (t, w') -> t = None /\ w' = w
                                         /\ tried = candidates dir md5 j n).
Proof.
  revert j. induction n as [|n IH]; intros j.
  - cbn. split; [done|]. split; [lia|]. now intros t w' [= <- <-].
  - cbn [search_shared]. specialize (IH (S j)).
    destruct (search_shared n (S j) dir md5 w) as [tried r].
    destruct IH as (IH1 & IH2 & IH3).
    change (candidates dir md5 j (S n))
      with (candidate_name dir j md5 :: candidates dir md5 (S j) n).
    destruct (g_file_test_exists w (candidate_name dir j md5)).
    + split; [apply prefix_cons, prefix_nil|]. split; [done|]. discriminate.
    + split; [now apply prefix_cons|]. split; [done|].
      intros t w' Hr. destruct (IH3 t w' Hr) as (-> & -> & ->). done.
Qed.

End CacheFacts.

Section RoundTripFacts.
Import Crc CMem Scanner Writer Chunks Cache.

Lemma length_uint_digits (d : Decimal.uint) :
  length (uint_digits d) = Decimal.nb_digits d.
Proof. induction d; simpl; congruence. Qed.

Lemma nb_digits_double (d : Decimal.uint) :
  (Decimal.nb_digits (Decimal.Little.double d) <= S (Decimal.nb_digits d)
   /\ Decimal.nb_digits (Decimal.Little.succ_double d) <= S (Decimal.nb_digits d))%nat.
Proof. induction d; simpl; lia. Qed.

Lemma nb_digits_to_little_uint (p : positive) :
  (Decimal.nb_digits (Pos.to_little_uint p) <= Pos.size_nat p)%nat.
Proof.
  induction p as [p IH|p IH|]; simpl.
  - pose proof (proj2 (nb_digits_double (Pos.to_little_uint p))). lia.
  - pose proof (proj1 (nb_digits_double (Pos.to_little_uint p))). lia.
  - lia.
Qed.

Lemma length_printf_lu (t : Z) : (length (printf_lu t) <= 64)%nat.
Proof.
  unfold printf_lu. rewrite length_uint_digits.
  pose proof (Z.mod_pos_bound t (2 ^ 64) ltac:(lia)) as Hb.
  destruct (t mod 2 ^ 64) as [|p|p] eqn:E; try (simpl; lia).
  change (Z.to_N (Z.pos p)) with (N.pos p). cbn [N.to_uint].
  unfold Pos.to_uint. rewrite DecimalFacts.nb_digits_rev.
  etrans; [apply nb_digits_to_little_uint|].
  destruct (Pos.eq_dec p (2 ^ 64 - 1)%positive) as [->|Hne]; [vm_compute; lia|].
  change 64%nat with (Pos.size_nat (2 ^ 64 - 1)%positive).
  apply Pos.size_nat_monotone. lia.
Qed.

Lemma htonl_bytes_mod (v : Z) : htonl_bytes (v mod 2 ^ 32) = htonl_bytes v.
Proof. unfold htonl_bytes. now rewrite Z.mod_mod by lia. Qed.

Lemma text_chunk_record (key value : list Z) :
  text_chunk key value = chunk_bytes (text_record key value).
Proof.
  unfold text_chunk, chunk_bytes, text_record. cbn [c_type c_data c_crc].
  rewrite htonl_bytes_mod, !length_app.
  f_equal. f_equal. f_equal. simpl. lia.
Qed.

Lemma text_record_wf (key value : list Z) :
  Z.of_nat (length key + 1 + length value) + 4 < 2 ^ 32 ->
  chunk_wf (text_record key value).
Proof.
  intros Hlen. unfold chunk_wf, text_record. cbn [c_type c_data c_crc].
  split; [reflexivity|]. split.
  - rewrite !length_app. simpl length. lia.
  - apply Z.mod_pos_bound. lia.
Qed.

Lemma splice_png (uri ms : list Z) (ihdr : chunk) (tail : list Z) :
  length (c_type ihdr) = 4%nat -> length (c_data ihdr) = 13%nat ->
  splice uri ms (expected_header ++ chunk_bytes ihdr ++ tail)
  = expected_header ++ chunk_bytes ihdr
    ++ chunk_bytes (text_record B"Thumb::URI" uri)
    ++ chunk_bytes (text_record B"Thumb::MTime" ms) ++ tail.
Proof.
  intros Hty Hdata. unfold splice. rewrite !text_chunk_record.
  rewrite (app_assoc expected_header).
  assert (E : length (expected_header ++ chunk_bytes ihdr) = 33%nat).
  { rewrite length_app. unfold chunk_bytes. rewrite !length_app, Hty, Hdata. reflexivity. }
  rewrite take_app_length', drop_app_length' by (symmetry; exact E).
  now rewrite <- !app_assoc.
Qed.

Lemma strncmp_is0_prefix_true (s p : list Z) :
  s `prefix_of` p -> strncmp_is0 p s (length s) = Some true.
Proof.
  intros [k ->]. induction s as [|c s IH]; [reflexivity|].
  cbn. now rewrite Z.eqb_refl.
Qed.

(** What the scanner makes of a stored entry, validated against any URI
    and mtime. *)
Lemma check_spliced (uri ms : list Z) (ihdr : chunk) (tail : list Z)
    (uri' : list Z) (mtime' : Z) :
  chunk_wf ihdr -> c_type ihdr = B"IHDR" -> length (c_data ihdr) = 13%nat ->
  Z.of_nat (length uri) + 15 < 2 ^ 32 -> Z.of_nat (length ms) + 17 < 2 ^ 32 ->
  check_png_stream (splice uri ms (expected_header ++ chunk_bytes ihdr ++ tail))
    uri' mtime'
  = match strncmp_is0 uri uri' (length uri') with
    | None => ReadsPastBuffer
    | Some um =>
        match strncmp_is0 ms (printf_lu mtime') (length (printf_lu mtime')) with
        | None => ReadsPastBuffer
        | Some mm =>
            if um && mm then Returns true
            else scan_chunks uri' mtime' um mm tail
        end
    end.
Proof.
  intros Hwf Hty Hdata Huri Hms.
  rewrite splice_png by (rewrite ?Hty; auto).
  rewrite check_png_stream_header.
  rewrite scan_chunks_cons by assumption.
  unfold chunk_step at 1. unfold is_text. rewrite Hty.
  change (bool_decide (B"IHDR" = B"tEXt")) with false. cbv iota.
  rewrite scan_chunks_cons
    by (apply text_record_wf; change (length B"Thumb::URI") with 10%nat; lia).
  unfold chunk_step at 1.
  change (is_text (text_record B"Thumb::URI" uri)) with true. cbv iota.
  unfold crc_valid. cbn [c_type c_data c_crc text_record]. rewrite Z.eqb_refl.
  unfold update_matches at 1.
  change (strcmp_is0 (B"Thumb::URI" ++ [0] ++ uri) B"Thumb::URI") with (Some true).
  cbv iota.
  change (drop (sizeof_lit B"Thumb::URI") (B"Thumb::URI" ++ [0] ++ uri)) with uri.
  unfold strlen at 1.
  destruct (strncmp_is0 uri uri' (length uri')) as [um|]; [|reflexivity].
  rewrite andb_false_r.
  rewrite scan_chunks_cons
    by (apply text_record_wf; change (length B"Thumb::MTime") with 12%nat; lia).
  unfold chunk_step at 1.
  change (is_text (text_record B"Thumb::MTime" ms)) with true. cbv iota.
  unfold crc_valid. cbn [c_type c_data c_crc text_record]. rewrite Z.eqb_refl.
  unfold update_matches at 1.
  change (strcmp_is0 (B"Thumb::MTime" ++ [0] ++ ms) B"Thumb::URI") with (Some false).
  change (strcmp_is0 (B"Thumb::MTime" ++ [0] ++ ms) B"Thumb::MTime") with (Some true).
  cbv iota.
  change (drop (sizeof_lit B"Thumb::MTime") (B"Thumb::MTime" ++ [0] ++ ms)) with ms.
  unfold strlen at 1. cbv zeta.
  destruct (strncmp_is0 ms (printf_lu mtime') _) as [mm|]; [|reflexivity].
  now destruct (um && mm).
Qed.

End RoundTripFacts.

Section StoreFacts.
Import Crc CMem Scanner Writer Chunks Cache.
Context {ext : Externals}.

Lemma store_thumbnail_ok (file : file_t) (t : surface) (w : world)
    (p : list Z) (j : nat) (calls : list (list Z)) :
  level_of t = Some j ->
  get_local_filename file = Some p ->
  png_encode t = (calls, CAIRO_STATUS_SUCCESS) ->
  (33 <= length (concat calls))%nat ->
  let uri := B"file://" ++ p in
  let ms := printf_lu (stat_mtime w p) in
  let dest := destination w p j in
  let entry := splice uri ms (concat calls) in
  0 < w_open w dest ->
  (length entry <= w_room w)%nat ->
  exists w',
    store_thumbnail file t w = (true, w')
    /\ w_files w' !! dest
       = Some (entry ++ drop (length entry) (default [] (w_files w !! dest))).
Proof.
  intros Hlevel Hlocal Henc Hlen uri ms dest entry Hopen Hroom.
  subst dest. unfold destination in *. fold uri in Hopen |- *.
  pose proof (get_thumbnail_cache_directory_frame w) as Hframe.
  unfold store_thumbnail, level_of in *. cbv zeta. rewrite Hlocal. fold uri.
  destruct (get_thumbnail_cache_directory w) as [dir w1]. cbn [fst] in *.
  destruct Hframe as (_ & _ & Hfiles & _ & Hop & Hrm & _).
  set (dest := candidate_name dir j (md5_hex uri)) in *.
  assert (Hj : (if (surface_width t =? 256) || (surface_height t =? 256)
                then 0%nat else 1%nat) = j).
  { destruct ((surface_width t =? 256) || (surface_height t =? 256));
      [congruence|].
    destruct ((surface_width t =? 128) || (surface_height t =? 128)); congruence. }
  destruct ((surface_width t =? 256) || (surface_height t =? 256)) eqn:E256;
    [|destruct ((surface_width t =? 128) || (surface_height t =? 128));
      [|discriminate]].
  all: cbv iota in Hj; subst j; fold dest; rewrite Hop.
  all: rewrite (proj2 (Z.ltb_lt _ _) Hopen).
  all: rewrite (proj2 (Z.leb_le _ _) (Z.lt_le_incl _ _ Hopen)); cbn [andb].
  all: rewrite Henc.
  all: set (w2 := if negb _ then _ else w1).
  all: assert (Hroom2 : w_room w2 = w_room w)
         by (subst w2; destruct (negb _); cbn; congruence).
  all: assert (Hold : default [] (w_files w2 !! dest) = default [] (w_files w !! dest))
         by (subst w2; case_bool_decide as Hsome; cbn [negb];
             [now rewrite Hfiles
             |cbn [set_files w_files]; rewrite lookup_insert_eq, <- Hfiles;
              apply eq_None_not_Some in Hsome; now rewrite Hsome]).
  all: rewrite Hroom2; cbv beta iota.
  all: pose proof (writer_run uri ms (w_room w) calls Hlen Hroom) as Hrun.
  all: unfold writer_start in Hrun; subst ms entry; rewrite Hrun.
  all: cbn [is_success negb output_file_fd of_written of_room].
  all: eexists; split; [reflexivity|].
  all: cbn [set_room set_files w_files]; rewrite lookup_insert_eq, Hold; reflexivity.
Qed.

End StoreFacts.

Section RoundTrip.
Import Crc CMem Scanner Writer Chunks Cache Examples.
Context {ext : Externals}.

Lemma strncmp_is0_differs (p s : list Z) :
  differs_within p s -> strncmp_is0 p s (length s) = Some false.
Proof.
  intros (i & a & b & Hp & Hs & Hab). revert p s Hp Hs.
  induction i as [|i IH]; intros [|x p] [|y s] Hp Hs; simplify_eq/=.
  - now rewrite (proj2 (Z.eqb_neq _ _) Hab).
  - destruct (x =? y); [now apply IH|reflexivity].
Qed.

Lemma scan_chunks_no_text (uri : list Z) (mtime : Z) (um mm : bool) (cs : list chunk) :
  Forall chunk_wf cs -> Forall (fun c => is_text c = false) cs ->
  scan_chunks uri mtime um mm (concat (map chunk_bytes cs)) = Returns false.
Proof.
  intros Hwf Hno. induction Hwf as [|c cs Hc _ IH].
  - apply scan_chunks_short. simpl. lia.
  - inversion Hno as [|? ? Hn Hns]; subst. cbn [map concat].
    rewrite scan_chunks_cons by assumption. unfold chunk_step. rewrite Hn. auto.
Qed.

Lemma splice_app (uri ms stream extra : list Z) :
  (33 <= length stream)%nat ->
  splice uri ms stream ++ extra = splice uri ms (stream ++ extra).
Proof.
  intros Hlen. unfold splice.
  rewrite take_app_le, drop_app_le by lia. now rewrite <- !app_assoc.
Qed.

(** What holds of C1 on the code.  An entry written by
    [store_thumbnail_to_cache] is reported valid for the URI and mtime it
    was stored with, and also for every URI that is a prefix of the stored
    URI together with every mtime whose decimal text is a prefix of the
    stored text: each comparison runs over the length of the expected
    text only.  In a freshly created file whose remaining chunks are not
    tEXt chunks, it is reported invalid when the expected URI or mtime
    text differs from the stored one at a position that both have. *)
Theorem stored_entry_validation (file : file_t) (t : surface) (w : world)
    (p : list Z) (j : nat) (calls : list (list Z)) (ihdr : chunk) (tail : list Z) :
  thumbnail file = Some t ->
  level_of t = Some j ->
  get_local_filename file = Some p ->
  png_encode t = (calls, CAIRO_STATUS_SUCCESS) ->
  concat calls = expected_header ++ chunk_bytes ihdr ++ tail ->
  chunk_wf ihdr -> c_type ihdr = B"IHDR" -> length (c_data ihdr) = 13%nat ->
  Z.of_nat (length p) + 22 < 2 ^ 32 ->
  let uri := B"file://" ++ p in
  let mtime := stat_mtime w p in
  let dest := destination w p j in
  0 < w_open w dest ->
  (length (splice uri (printf_lu mtime) (concat calls)) <= w_room w)%nat ->
  exists w',
    store_thumbnail_to_cache file w = Some (true, w')
    /\ check_png_attributes w' dest uri mtime = Returns true
    /\ (forall (uri' : list Z) (mtime' : Z),
          uri' `prefix_of` uri ->
          printf_lu mtime' `prefix_of` printf_lu mtime ->
          check_png_attributes w' dest uri' mtime' = Returns true)
    /\ (forall (uri' : list Z) (mtime' : Z) (rest : list chunk),
          w_files w !! dest = None ->
          tail = concat (map chunk_bytes rest) ->
          Forall chunk_wf rest -> Forall (fun c => is_text c = false) rest ->
          (differs_within uri uri'
           /\ (differs_within (printf_lu mtime) (printf_lu mtime')
               \/ printf_lu mtime' `prefix_of` printf_lu mtime))
          \/ (uri' `prefix_of` uri
              /\ differs_within (printf_lu mtime) (printf_lu mtime')) ->
          check_png_attributes w' dest uri' mtime' = Returns false).
Proof.
  intros Hthumb Hlevel Hlocal Henc Hstream Hwf Hty Hdata Hp uri mtime dest Hopen Hroom.
  assert (Hlen : (33 <= length (concat calls))%nat).
  { rewrite Hstream, !length_app, length_chunk_bytes, Hdata.
    destruct Hwf as (H4 & _). rewrite H4.
    change (length expected_header) with 8%nat. lia. }
  destruct (store_thumbnail_ok file t w p j calls Hlevel Hlocal Henc Hlen Hopen Hroom)
    as (w' & Hstore & Hfile).
  fold uri mtime dest in Hfile.
  exists w'. split; [unfold store_thumbnail_to_cache; now rewrite Hthumb, Hstore|].
  set (stale := drop _ (default [] (w_files w !! dest))) in Hfile.
  assert (Hcheck : forall uri' mtime',
    check_png_attributes w' dest uri' mtime'
    = match strncmp_is0 uri uri' (length uri') with
      | None => ReadsPastBuffer
      | Some um =>
          match strncmp_is0 (printf_lu mtime) (printf_lu mtime')
                  (length (printf_lu mtime')) with
          | None => ReadsPastBuffer
          | Some mm =>
              if um && mm then Returns true
              else scan_chunks uri' mtime' um mm (tail ++ stale)
          end
      end).
  { intros uri' mtime'. unfold check_png_attributes. rewrite Hfile.
    rewrite splice_app, Hstream, <- !app_assoc by exact Hlen.
    apply check_spliced; auto.
    - unfold uri. rewrite length_app. change (length B"file://") with 7%nat. lia.
    - pose proof (length_printf_lu mtime). lia. }
  split; [|split].
  - rewrite Hcheck, !strncmp_is0_prefix_true by reflexivity. reflexivity.
  - intros uri' mtime' Hu Hm.
    rewrite Hcheck, !strncmp_is0_prefix_true by assumption. reflexivity.
  - intros uri' mtime' rest Hfresh -> Hrest Hnotext Hdiff.
    rewrite Hcheck. subst stale. rewrite Hfresh. cbn [default].
    rewrite drop_nil, app_nil_r.
    destruct Hdiff as [(Hu & [Hm|Hm])|(Hu & Hm)].
    + rewrite !strncmp_is0_differs by assumption. now apply scan_chunks_no_text.
    + rewrite strncmp_is0_differs, strncmp_is0_prefix_true by assumption.
      now apply scan_chunks_no_text.
    + rewrite (strncmp_is0_prefix_true uri' uri),
        (strncmp_is0_differs (printf_lu mtime)) by assumption.
      now apply scan_chunks_no_text.
Qed.

End RoundTrip.

Section RoundTripExamples.
Import Crc CMem Scanner Writer Chunks Cache Examples.

Lemma stored_entry_validation_witness :
  exists w',
    store_thumbnail_to_cache (ext := toy) pic128 world0 = Some (true, w')
    /\ check_png_attributes w' normal_entry B"file:///home/u/pic.jpg" 1700000000
       = Returns true.
Proof.
  destruct (stored_entry_validation (ext := toy) pic128 thumb128 world0
              B"/home/u/pic.jpg" 1 toy_png_calls ihdr0
              (concat (drop 2 toy_png_calls))
              eq_refl eq_refl eq_refl eq_refl eq_refl
              ltac:(by_compute)
              eq_refl eq_refl ltac:(vm_compute; reflexivity)
              ltac:(vm_compute; reflexivity) ltac:(vm_compute; lia))
    as (w' & Hstore & Hvalid & _).
  exists w'. split; [exact Hstore|exact Hvalid].
Defined.

(** C1 fails on the code: the entry stored for /home/u/pic.jpg with mtime
    1700000000 is reported valid for the different URI file:///home/u/pic
    and for the different mtime 17, where the specification says invalid. *)
Lemma stored_entry_valid_for_prefixes :
  match store_thumbnail_to_cache (ext := toy) pic128 world0 with
  | Some (true, w') =>
      stat_mtime world0 B"/home/u/pic.jpg" = 1700000000
      /\ check_png_attributes w' normal_entry B"file:///home/u/pic" 1700000000
         = Returns true
      /\ B"file:///home/u/pic" <> B"file:///home/u/pic.jpg"
      /\ check_png_attributes w' normal_entry B"file:///home/u/pic.jpg" 17
         = Returns true
      /\ 17 <> 1700000000
  | _ => False
  end.
Proof. vm_compute. repeat split; discriminate. Qed.

End RoundTripExamples.

Section StoreCorrect.
Import Crc CMem Scanner Writer Chunks Cache Examples.
Context {ext : Externals}.

(** What the two failure paths of [store_thumbnail] do. *)
Lemma store_thumbnail_open_fails (file : file_t) (t : surface) (w : world)
    (p : list Z) (j : nat) :
  level_of t = Some j -> get_local_filename file = Some p ->
  w_open w (destination w p j) < 0 ->
  store_thumbnail file t w = (true, snd (get_thumbnail_cache_directory w)).
Proof.
  intros Hlevel Hlocal Hopen. unfold destination in Hopen.
  pose proof (get_thumbnail_cache_directory_frame w) as Hframe.
  unfold store_thumbnail, level_of in *. cbv zeta. rewrite Hlocal.
  destruct (get_thumbnail_cache_directory w) as [dir w1]. cbn [fst snd] in *.
  destruct Hframe as (_ & _ & _ & _ & Hop & _).
  assert (Hj : (if (surface_width t =? 256) || (surface_height t =? 256)
                then 0%nat else 1%nat) = j).
  { destruct ((surface_width t =? 256) || (surface_height t =? 256));
      [congruence|].
    destruct ((surface_width t =? 128) || (surface_height t =? 128)); congruence. }
  destruct ((surface_width t =? 256) || (surface_height t =? 256));
    [|destruct ((surface_width t =? 128) || (surface_height t =? 128));
      [|discriminate]].
  all: cbv iota in Hj; subst j; rewrite Hop.
  all: rewrite (proj2 (Z.ltb_ge _ _) (Z.lt_le_incl _ _ Hopen)).
  all: rewrite (proj2 (Z.leb_gt _ _) Hopen); reflexivity.
Qed.

(** C4, as the code has it: a bitmap neither of whose sides is 128 or 256
    pixels long is rejected, and the world is left as it was. *)
Theorem store_rejects_other_sizes (file : file_t) (t : surface) (w : world) :
  thumbnail file = Some t ->
  surface_width t <> 256 -> surface_height t <> 256 ->
  surface_width t <> 128 -> surface_height t <> 128 ->
  store_thumbnail_to_cache file w = Some (false, w).
Proof.
  intros Ht H1 H2 H3 H4. unfold store_thumbnail_to_cache, store_thumbnail.
  rewrite Ht. cbv zeta.
  now rewrite (proj2 (Z.eqb_neq _ _) H1), (proj2 (Z.eqb_neq _ _) H2),
    (proj2 (Z.eqb_neq _ _) H3), (proj2 (Z.eqb_neq _ _) H4).
Qed.

End StoreCorrect.

Section StoreExamples.
Import Crc CMem Scanner Writer Chunks Cache Examples.


Lemma store_rejects_other_sizes_witness :
  store_thumbnail_to_cache (ext := toy) (set_thumbnail pic thumb200) world0
  = Some (false, world0).
Proof.
  apply (store_rejects_other_sizes (ext := toy) (set_thumbnail pic thumb200)
           thumb200 world0 eq_refl);
    vm_compute; discriminate.
Defined.

(** C4 as stated fails: a 300 x 128 bitmap, whose long edge is 300, is
    stored at the normal level. *)
Lemma store_accepts_long_edge_300 :
  Z.max (surface_width thumb300x128) (surface_height thumb300x128) = 300
  /\ match store_thumbnail_to_cache (ext := toy) (set_thumbnail pic thumb300x128) world0 with
     | Some (true, w') =>
         w_files world0 !! normal_entry = None
         /\ is_Some (w_files w' !! normal_entry)
     | _ => False
     end.
Proof. vm_compute. repeat split; eauto. Qed.

(** C3 fails on the code: with a destination that cannot be opened or
    created, nothing is written and [store_thumbnail_to_cache] returns
    TRUE, where the specification says it reports failure. *)
Theorem store_reports_success_when_open_fails :
  w_open world_unwritable normal_entry = -1
  /\ match store_thumbnail_to_cache (ext := toy) pic128 world_unwritable with
     | Some (retval, w') => retval = true /\ w_files w' !! normal_entry = None
     | None => False
     end.
Proof. vm_compute. repeat split. Qed.

(** The sibling path: when a write comes back short, the call returns
    FALSE and the destination is gone. *)
Lemma store_reports_failure_when_write_fails :
  match store_thumbnail_to_cache (ext := toy) pic128 world_full with
  | Some (retval, w') => retval = false /\ w_files w' !! normal_entry = None
  | None => False
  end.
Proof. vm_compute. repeat split. Qed.

End StoreExamples.

Section LoadFacts.
Import Crc CMem Scanner Writer Chunks Cache.
Context {ext : Externals}.

Lemma search_cache_resolved (n j : nat) (md5 uri : list Z) (mtime width height : Z)
    (w : world) :
  (0 < n)%nat ->
  search_cache n j md5 uri mtime width height w
  = search_cache n j md5 uri mtime width height
      (snd (get_thumbnail_cache_directory w)).
Proof.
  intros Hn. destruct n as [|n]; [lia|].
  pose proof (get_thumbnail_cache_directory_frame w) as Hframe.
  cbn [search_cache].
  destruct (get_thumbnail_cache_directory w) as [dir w1]. cbn [snd].
  destruct Hframe as (_ & -> & _). reflexivity.
Qed.

Lemma load_thumbnail_valid (w : world) (name uri : list Z) (mtime width height : Z)
    (t : surface) :
  load_thumbnail w name uri mtime width height = Returns (Some t) ->
  check_png_attributes w name uri mtime = Returns true.
Proof.
  unfold load_thumbnail.
  destruct (check_png_attributes w name uri mtime) as [[|]|]; auto; discriminate.
Qed.

Lemma load_thumbnail_invalid (w : world) (name uri : list Z) (mtime width height : Z) :
  check_png_attributes w name uri mtime = Returns false ->
  load_thumbnail w name uri mtime width height = Returns None.
Proof. unfold load_thumbnail. now intros ->. Qed.

Lemma search_cache_hit (n j : nat) (md5 uri : list Z) (mtime width height : Z)
    (w : world) (dir : list Z) :
  w_cache_directory w = Some dir ->
  let '(tried, r) := search_cache n j md5 uri mtime width height w in
  forall t w', r = Returns (Some t, w') ->
    exists cand, cand ∈ tried
      /\ check_png_attributes w cand uri mtime = Returns true.
Proof.
  intros Hdir. revert j. induction n as [|n IH]; intros j; [discriminate|].
  cbn [search_cache]. unfold get_thumbnail_cache_directory. rewrite Hdir.
  specialize (IH (S j)).
  destruct (search_cache n (S j) md5 uri mtime width height w) as [tried r].
  set (cand := candidate_name dir j md5).
  assert (Hrest : forall t w', r = Returns (Some t, w') ->
            exists c, c ∈ cand :: tried
              /\ check_png_attributes w c uri mtime = Returns true).
  { intros t w' Hr. destruct (IH t w' Hr) as (c & Hc & Hv).
    exists c. split; [now right|exact Hv]. }
  destruct (g_file_test_exists w cand); [|exact Hrest].
  destruct (load_thumbnail w cand uri mtime width height) as [[t|]|why] eqn:EL;
    [| exact Hrest | discriminate].
  intros t' w' _. exists cand. split; [left|].
  now apply load_thumbnail_valid in EL.
Qed.

Lemma check_png_attributes_files (w w1 : world) (name uri : list Z) (mtime : Z) :
  w_files w1 = w_files w ->
  check_png_attributes w1 name uri mtime = check_png_attributes w name uri mtime.
Proof. unfold check_png_attributes. now intros ->. Qed.

Lemma first_level_iterations (width height : Z) :
  (0 < 2 - first_level width height)%nat.
Proof. unfold first_level. destruct ((128 <? width) || (128 <? height)); simpl; lia. Qed.

End LoadFacts.

Section LoadCorrect.
Import Crc CMem Scanner Writer Chunks Cache.
Context {ext : Externals}.

Lemma candidates_tier_order (width height : Z) (dir md5 : list Z) :
  candidates dir md5 (first_level width height) (2 - first_level width height)
  = tier_order width height dir md5.
Proof.
  unfold tier_order, first_level.
  destruct ((128 <? width) || (128 <? height)); reflexivity.
Qed.

(** C7, as the code has it.  A request with a side above 256 pixels tries
    no candidate.  For every other request on a file with a local name,
    the first loop tries the large name and then the normal name when a
    requested side exceeds 128, and the normal name alone otherwise; it
    always tries the first of them, stops at a hit, and has tried all of
    them when the call returns FALSE.  The second loop goes through the
    names in the shared directory in the same order. *)
Theorem load_tier_order (file : file_t) (width height : Z) (w : world) (p : list Z) :
  get_local_filename file = Some p ->
  let dir := fst (get_thumbnail_cache_directory w) in
  let md5_filename := md5_hex (B"file://" ++ p) in
  let shared := g_build_filename [g_path_get_dirname p; B".sh_thumbnails"] in
  let md5_basename := md5_hex (g_path_get_basename p) in
  let '(tried, tried_shared, r) := load_thumbnail_from_cache file width height w in
  if (256 <? width) || (256 <? height)
  then tried = [] /\ tried_shared = [] /\ r = Returns (false, file, w)
  else
    tried <> []
    /\ tried `prefix_of` tier_order width height dir md5_filename
    /\ tried_shared `prefix_of` tier_order width height shared md5_basename
    /\ (forall f w', r = Returns (false, f, w') ->
          tried = tier_order width height dir md5_filename
          /\ (tried_shared = tier_order width height shared md5_basename
              \/ tried_shared = [] /\ g_file_test_is_dir w' shared = false)).
Proof.
  intros Hlocal dir md5_filename shared md5_basename.
  unfold load_thumbnail_from_cache. rewrite Hlocal.
  destruct ((256 <? width) || (256 <? height)); [auto|].
  fold md5_filename shared md5_basename.
  rewrite <- !candidates_tier_order.
  set (j := first_level width height).
  assert (Hn : (0 < 2 - j)%nat) by apply first_level_iterations.
  rewrite search_cache_resolved by exact Hn.
  pose proof (get_thumbnail_cache_directory_frame w) as Hframe. subst dir.
  destruct (get_thumbnail_cache_directory w) as [dir w1]. cbn [fst snd].
  destruct Hframe as (Hdir & _).
  pose proof (search_cache_tried (2 - j) j md5_filename (B"file://" ++ p)
                (stat_mtime w p) width height w1 dir Hdir) as Hs.
  destruct (search_cache (2 - j) j md5_filename (B"file://" ++ p)
              (stat_mtime w p) width height w1) as [tried r].
  destruct Hs as (Hpre & Hne & Hw & Hall & _).
  destruct r as [[[t|] w2]|why].
  - split; [auto|]. split; [exact Hpre|]. split; [apply prefix_nil|]. discriminate.
  - rewrite (Hw None w2 eq_refl) in *. clear Hw.
    specialize (Hall w1 eq_refl). subst tried.
    destruct (g_file_test_is_dir w1 shared) eqn:Edir.
    + pose proof (search_shared_tried (2 - j) j shared md5_basename w1) as Hsh.
      destruct (search_shared (2 - j) j shared md5_basename w1) as [tried' r'].
      destruct Hsh as (Hpre' & _ & Hret).
      destruct r' as [[[t|] w3]|why].
      * split; [auto|]. split; [done|]. split; [exact Hpre'|]. discriminate.
      * destruct (Hret None w3 eq_refl) as (_ & _ & ->).
        split; [auto|]. split; [done|]. split; [done|]. intros f w' _. auto.
      * split; [auto|]. split; [done|]. split; [exact Hpre'|]. discriminate.
    + split; [auto|]. split; [done|]. split; [apply prefix_nil|].
      intros f w' [= _ <-]. auto.
  - split; [auto|]. split; [exact Hpre|]. split; [apply prefix_nil|]. discriminate.
Qed.

(** What holds of C8 on the code.  The return value of [stat] is not
    looked at: when [stat] fails, the lookup runs with the value that the
    stat buffer holds.  The call returns TRUE only if a tried candidate
    validates against that value, and FALSE when no candidate does and
    there is no shared directory. *)
Theorem load_with_failed_stat (file : file_t) (width height : Z) (w : world)
    (p : list Z) :
  get_local_filename file = Some p ->
  w_mtime w !! p = None ->
  let file_uri := B"file://" ++ p in
  let dir := fst (get_thumbnail_cache_directory w) in
  let shared := g_build_filename [g_path_get_dirname p; B".sh_thumbnails"] in
  let '(tried, tried_shared, r) := load_thumbnail_from_cache file width height w in
  (forall f w', r = Returns (true, f, w') ->
     exists cand, cand ∈ tried
       /\ check_png_attributes w cand file_uri (w_stack_mtime w) = Returns true)
  /\ ((forall cand, cand ∈ tier_order width height dir (md5_hex file_uri) ->
         check_png_attributes w cand file_uri (w_stack_mtime w) = Returns false) ->
      g_file_test_is_dir (snd (get_thumbnail_cache_directory w)) shared = false ->
      exists w', r = Returns (false, file, w')).
Proof.
  intros Hlocal Hstat file_uri dir shared.
  unfold load_thumbnail_from_cache. rewrite Hlocal.
  destruct ((256 <? width) || (256 <? height)).
  { split; [discriminate|]. eauto. }
  unfold stat_mtime. rewrite Hstat. fold file_uri shared.
  rewrite <- candidates_tier_order.
  set (j := first_level width height).
  rewrite search_cache_resolved by apply first_level_iterations.
  pose proof (get_thumbnail_cache_directory_frame w) as Hframe. subst dir.
  destruct (get_thumbnail_cache_directory w) as [dir w1]. cbn [fst snd].
  destruct Hframe as (Hdir & _ & Hfiles & _).
  pose proof (search_cache_tried (2 - j) j (md5_hex file_uri) file_uri
                (w_stack_mtime w) width height w1 dir Hdir) as Hs.
  pose proof (search_cache_hit (2 - j) j (md5_hex file_uri) file_uri
                (w_stack_mtime w) width height w1 dir Hdir) as Hh.
  destruct (search_cache (2 - j) j (md5_hex file_uri) file_uri
              (w_stack_mtime w) width height w1) as [tried r].
  destruct Hs as (_ & _ & Hw & _ & Hmiss).
  assert (Hmiss' :
    (forall cand, cand ∈ candidates dir (md5_hex file_uri) j (2 - j) ->
       check_png_attributes w cand file_uri (w_stack_mtime w) = Returns false) ->
    r = Returns (None, w1)).
  { intros Hall. apply Hmiss. intros cand Hc. apply load_thumbnail_invalid.
    rewrite (check_png_attributes_files w w1) by exact Hfiles. now apply Hall. }
  destruct r as [[[t|] w2]|why].
  - split.
    + intros f w' _. destruct (Hh t w2 eq_refl) as (cand & Hc & Hv).
      exists cand. split; [exact Hc|].
      now rewrite <- (check_png_attributes_files w w1) by exact Hfiles.
    + intros Hall _. specialize (Hmiss' Hall). discriminate.
  - rewrite (Hw None w2 eq_refl) in *.
    destruct (g_file_test_is_dir w1 shared) eqn:Edir.
    + pose proof (search_shared_tried (2 - j) j shared
                    (md5_hex (g_path_get_basename p)) w1) as Hsh.
      destruct (search_shared (2 - j) j shared _ w1) as [tried' [[[t|] w3]|why]].
      * destruct Hsh as (_ & _ & Hret).
        destruct (Hret (Some t) w3 eq_refl) as (Hc & _). discriminate.
      * split; [discriminate|discriminate].
      * split; [discriminate|discriminate].
    + split; [discriminate|]. eauto.
  - split; [discriminate|]. intros Hall _. specialize (Hmiss' Hall). discriminate.
Qed.

End LoadCorrect.

Section LoadExamples.
Import Crc CMem Scanner Writer Chunks Cache Examples.

Lemma load_tier_order_witness :
  get_local_filename (ext := toy) pic = Some B"/home/u/pic.jpg"
  /\ (let '(tried, tried_shared, r) :=
        load_thumbnail_from_cache (ext := toy) pic 200 64 world_cached in
      tried <> [] /\ tried `prefix_of` [large_entry; normal_entry]).
Proof.
  split; [reflexivity|].
  pose proof (load_tier_order (ext := toy) pic 200 64 world_cached
                B"/home/u/pic.jpg" eq_refl) as H.
  cbv zeta in H.
  destruct (load_thumbnail_from_cache (ext := toy) pic 200 64 world_cached)
    as [[tried tried_shared] r].
  change ((256 <? 200) || (256 <? 64)) with false in H. cbv iota in H.
  destruct H as (Hne & Hpre & _). split; [exact Hne|exact Hpre].
Defined.

(** C7 as stated fails for a request above 256 pixels: the width exceeds
    128 and a large entry is there, but no candidate is tried. *)
Lemma load_oversize_tries_nothing :
  (128 <? 300) = true
  /\ w_files world_cached !! large_entry = Some pic_entry
  /\ match load_thumbnail_from_cache (ext := toy) pic 300 100 world_cached with
     | (tried, tried_shared, Returns (retval, _, _)) =>
         tried = [] /\ tried_shared = [] /\ retval = false
     | _ => False
     end.
Proof.
  split; [reflexivity|]. split; [vm_compute; reflexivity|].
  vm_compute. repeat split.
Qed.

Lemma load_with_failed_stat_witness :
  w_mtime world_stale_stack !! B"/home/u/pic.jpg" = None
  /\ w_files world_stale_stack !! normal_entry = Some pic_entry
  /\ (let '(tried, tried_shared, r) :=
        load_thumbnail_from_cache (ext := toy) pic 64 64 world_stale_stack in
      exists w', r = Returns (false, pic, w')).
Proof.
  split; [reflexivity|]. split; [vm_compute; reflexivity|].
  pose proof (load_with_failed_stat (ext := toy) pic 64 64 world_stale_stack
                B"/home/u/pic.jpg" eq_refl eq_refl) as H.
  cbv zeta in H.
  destruct (load_thumbnail_from_cache (ext := toy) pic 64 64 world_stale_stack)
    as [[tried tried_shared] r].
  destruct H as (_ & Hmiss). apply Hmiss.
  - intros cand Hc. apply list_elem_of_singleton in Hc. subst cand.
    vm_compute. reflexivity.
  - vm_compute. reflexivity.
Defined.

(** C8 fails on the code: the source file has vanished, [stat] fails, and
    the lookup is a hit all the same, the value left in the stat buffer
    matching the cached entry; the specification says a miss. *)
Lemma load_hits_after_failed_stat :
  w_mtime world_vanished !! B"/home/u/pic.jpg" = None
  /\ w_files world_vanished !! B"/home/u/pic.jpg" = None
  /\ match load_thumbnail_from_cache (ext := toy) pic 64 64 world_vanished with
     | (_, _, Returns (retval, file, _)) =>
         retval = true /\ thumbnail file <> None
     | _ => False
     end.
Proof.
  split; [reflexivity|]. split; [vm_compute; reflexivity|].
  vm_compute. split; [reflexivity|discriminate].
Qed.

End LoadExamples.

(** ** The checksum: range, composition, error detection *)

Section CrcBounds.
Import Crc CMem.

Lemma lxor_range (n a b : Z) :
  0 <= n -> 0 <= a < 2 ^ n -> 0 <= b < 2 ^ n -> 0 <= Z.lxor a b < 2 ^ n.
Proof.
  intros Hn Ha Hb.
  assert (H0 : 0 <= Z.lxor a b) by (apply Z.lxor_nonneg; lia).
  split; [exact H0|].
  destruct (Z.eq_dec (Z.lxor a b) 0) as [->|Hne]; [lia|].
  assert (Hpos : 0 < n).
  { destruct (Z.eq_dec n 0) as [->|]; [|lia].
    assert (a = 0) by lia. assert (b = 0) by lia. subst. now cbn in Hne. }
  apply Z.log2_lt_pow2; [lia|].
  pose proof (Z.log2_lxor a b ltac:(lia) ltac:(lia)) as Hl.
  assert (Z.log2 a < n).
  { destruct (Z.eq_dec a 0) as [->|]; [simpl; lia|]. apply Z.log2_lt_pow2; lia. }
  assert (Z.log2 b < n).
  { destruct (Z.eq_dec b 0) as [->|]; [simpl; lia|]. apply Z.log2_lt_pow2; lia. }
  lia.
Qed.

Lemma table_at_range (i : Z) : 0 <= table_at make_crc_table i < 2 ^ 32.
Proof.
  unfold table_at.
  assert (H : Forall (fun x => 0 <= x < 2 ^ 32) make_crc_table) by (by_compute).
  destruct (nth_in_or_default (Z.to_nat i) make_crc_table 0) as [Hin | ->]; [|lia].
  rewrite Forall_forall in H. apply H. now apply list_elem_of_In.
Qed.

Lemma shiftr_8_range (c : Z) : 0 <= c < 2 ^ 32 -> 0 <= Z.shiftr c 8 < 2 ^ 24.
Proof.
  intros Hc. rewrite Z.shiftr_div_pow2 by lia.
  split; [apply Z.div_pos; lia|]. apply Z.div_lt_upper_bound; lia.
Qed.

Lemma crc_step_range (c b : Z) :
  0 <= c < 2 ^ 32 ->
  0 <= Z.lxor (table_at make_crc_table (Z.land (Z.lxor c b) 255)) (Z.shiftr c 8) < 2 ^ 32.
Proof.
  intros Hc. apply lxor_range; [lia|apply table_at_range|].
  pose proof (shiftr_8_range c Hc). lia.
Qed.

Lemma crc_loop_range (c : Z) (buf : list Z) :
  0 <= c < 2 ^ 32 -> 0 <= crc_loop make_crc_table c buf < 2 ^ 32.
Proof.
  revert c. induction buf as [|b buf IH]; intros c Hc; [exact Hc|].
  rewrite crc_loop_cons. apply IH, crc_step_range, Hc.
Qed.

Lemma crc_range (seed : Z) (buf : list Z) :
  0 <= seed < 2 ^ 32 -> 0 <= crc seed buf < 2 ^ 32.
Proof.
  intros Hs. unfold crc.
  apply (lxor_range 32); [lia| |lia].
  apply crc_loop_range. apply (lxor_range 32); lia.
Qed.

Lemma crc_nil (seed : Z) : crc seed [] = seed.
Proof.
  unfold crc. cbn [crc_loop].
  rewrite Z.lxor_assoc, Z.lxor_nilpotent. apply Z.lxor_0_r.
Qed.

Lemma lxor_cancel_l (t a b : Z) : Z.lxor t a = Z.lxor t b -> a = b.
Proof.
  intros H. apply Z.lxor_eq.
  replace (Z.lxor a b) with (Z.lxor (Z.lxor t a) (Z.lxor t b)).
  - rewrite H. apply Z.lxor_nilpotent.
  - rewrite (Z.lxor_comm t a), Z.lxor_assoc, <- (Z.lxor_assoc t t b),
      Z.lxor_nilpotent, Z.lxor_0_l. reflexivity.
Qed.

Lemma lxor_cancel_r (t a b : Z) : Z.lxor a t = Z.lxor b t -> a = b.
Proof. rewrite !(Z.lxor_comm _ t). apply lxor_cancel_l. Qed.

Lemma land_lxor_distr (a b m : Z) :
  Z.land (Z.lxor a b) m = Z.lxor (Z.land a m) (Z.land b m).
Proof.
  apply Z.bits_inj'. intros n Hn.
  rewrite !Z.land_spec, !Z.lxor_spec, !Z.land_spec.
  now destruct (Z.testbit a n), (Z.testbit b n), (Z.testbit m n).
Qed.

(** The top byte of a table entry determines its index. *)
Lemma table_top_byte_inj (i j : Z) :
  0 <= i < 256 -> 0 <= j < 256 ->
  Z.shiftr (table_at make_crc_table i) 24 = Z.shiftr (table_at make_crc_table j) 24 ->
  i = j.
Proof.
  intros Hi Hj E.
  assert (Hnd : NoDup (map (fun t => Z.shiftr t 24) make_crc_table)) by (by_compute).
  assert (Hlen : length make_crc_table = 256%nat) by (vm_compute; reflexivity).
  unfold table_at in E.
  assert (Hl : forall k : Z, 0 <= k < 256 ->
            map (fun t => Z.shiftr t 24) make_crc_table !! Z.to_nat k
            = Some (Z.shiftr (nth (Z.to_nat k) make_crc_table 0) 24)).
  { intros k Hk. rewrite list_lookup_fmap.
    destruct (nth_lookup_or_length make_crc_table (Z.to_nat k) 0) as [->|Hge];
      [reflexivity|lia]. }
  pose proof (Hl i Hi) as Li. pose proof (Hl j Hj) as Lj. rewrite E in Li.
  pose proof (NoDup_lookup _ _ _ _ Hnd Li Lj). lia.
Qed.

(** After a step of the loop of [crc], the top byte of the register is
    that of the table entry. *)
Lemma crc_step_top_byte (t c : Z) :
  0 <= c < 2 ^ 32 -> Z.shiftr (Z.lxor t (Z.shiftr c 8)) 24 = Z.shiftr t 24.
Proof.
  intros Hc. rewrite Z.shiftr_lxor, Z.shiftr_shiftr by lia.
  replace (Z.shiftr c (8 + 24)) with 0; [apply Z.lxor_0_r|].
  rewrite Z.shiftr_div_pow2 by lia. symmetry. apply Z.div_small. simpl. lia.
Qed.

Lemma crc_step_inj (c1 c2 b1 b2 : Z) :
  0 <= c1 < 2 ^ 32 -> 0 <= c2 < 2 ^ 32 ->
  Z.lxor (table_at make_crc_table (Z.land (Z.lxor c1 b1) 255)) (Z.shiftr c1 8)
  = Z.lxor (table_at make_crc_table (Z.land (Z.lxor c2 b2) 255)) (Z.shiftr c2 8) ->
  Z.land (Z.lxor c1 b1) 255 = Z.land (Z.lxor c2 b2) 255
  /\ Z.shiftr c1 8 = Z.shiftr c2 8.
Proof.
  intros H1 H2 E.
  assert (Ei : Z.land (Z.lxor c1 b1) 255 = Z.land (Z.lxor c2 b2) 255).
  { apply table_top_byte_inj; try apply land_255_range.
    pose proof (f_equal (fun v => Z.shiftr v 24) E) as E'. cbv beta in E'.
    now rewrite (crc_step_top_byte _ c1 H1), (crc_step_top_byte _ c2 H2) in E'. }
  split; [exact Ei|].
  rewrite Ei in E. now apply lxor_cancel_l in E.
Qed.

Lemma land_255_byte (b : Z) : is_byte b -> Z.land b 255 = b.
Proof.
  intros Hb. change 255 with (Z.ones 8). rewrite Z.land_ones by lia.
  apply Z.mod_small. unfold is_byte in Hb. simpl. lia.
Qed.

(** Two different registers stay different however many bytes follow. *)
Lemma crc_loop_inj (buf : list Z) (c1 c2 : Z) :
  0 <= c1 < 2 ^ 32 -> 0 <= c2 < 2 ^ 32 ->
  crc_loop make_crc_table c1 buf = crc_loop make_crc_table c2 buf -> c1 = c2.
Proof.
  revert c1 c2. induction buf as [|b buf IH]; intros c1 c2 H1 H2 E; [exact E|].
  rewrite !crc_loop_cons in E.
  apply IH in E; try (apply crc_step_range; assumption).
  apply crc_step_inj in E as [Ei Es]; try assumption.
  rewrite !land_lxor_distr in Ei. apply lxor_cancel_r in Ei.
  rewrite (split_low_byte c1), (split_low_byte c2). now rewrite Ei, Es.
Qed.

Lemma crc_loop_byte_change (c x y : Z) (b : list Z) :
  0 <= c < 2 ^ 32 -> is_byte x -> is_byte y -> x <> y ->
  crc_loop make_crc_table c (x :: b) <> crc_loop make_crc_table c (y :: b).
Proof.
  intros Hc Hx Hy Hne E. rewrite !crc_loop_cons in E.
  apply crc_loop_inj in E; try (apply crc_step_range; assumption).
  apply crc_step_inj in E as [Ei _]; try assumption.
  rewrite !land_lxor_distr in Ei. apply lxor_cancel_l in Ei.
  rewrite !land_255_byte in Ei by assumption. contradiction.
Qed.

Lemma crc_byte_change (seed : Z) (a : list Z) (x y : Z) (b : list Z) :
  0 <= seed < 2 ^ 32 -> is_byte x -> is_byte y -> x <> y ->
  crc seed (a ++ x :: b) <> crc seed (a ++ y :: b).
Proof.
  intros Hs Hx Hy Hne E. unfold crc in E. apply lxor_cancel_r in E.
  rewrite !crc_loop_app in E.
  revert E. apply crc_loop_byte_change; try assumption.
  apply crc_loop_range. apply (lxor_range 32); lia.
Qed.

(** X1.  Checksums compose: feeding a buffer to [crc] piece by piece, each
    call seeded with the result of the one before, gives the checksum of
    the pieces put together.  [check_png_attributes] relies on it when it
    computes a chunk's checksum from the type and then from the payload. *)
Theorem crc_of_pieces (seed : Z) (pieces : list (list Z)) :
  fold_left crc pieces seed = crc seed (concat pieces).
Proof.
  revert seed. induction pieces as [|p ps IH]; intros seed; cbn [fold_left concat].
  - symmetry. apply crc_nil.
  - now rewrite IH, crc_app.
Qed.

(** X2.  For a seed of 32 bits the result of [crc] fits 32 bits, whatever
    the buffer holds: the conversion to [unsigned] in
    [check_png_attributes] changes nothing, and the four bytes that
    [png_writer] stores through [htonl] read back as the checksum. *)
Theorem crc_fits_32_bits (seed : Z) (a b rest : list Z) :
  0 <= seed < 2 ^ 32 ->
  0 <= crc seed a < 2 ^ 32
  /\ crc (crc seed a) b mod 2 ^ 32 = crc seed (a ++ b)
  /\ ntohl_at (htonl_bytes (crc seed a) ++ rest) = crc seed a.
Proof.
  intros Hs. pose proof (crc_range seed a Hs) as Ha.
  split; [exact Ha|]. split.
  - rewrite crc_app. apply Z.mod_small, crc_range, Hs.
  - rewrite ntohl_htonl. now apply Z.mod_small.
Qed.

Lemma crc_fits_32_bits_witness :
  0 <= crc 0 B"tEXt" < 2 ^ 32
  /\ crc (crc 0 B"tEXt") B"Thumb::URI" mod 2 ^ 32 = crc 0 (B"tEXt" ++ B"Thumb::URI").
Proof.
  destruct (crc_fits_32_bits 0 B"tEXt" B"Thumb::URI" [] ltac:(lia)) as (H1 & H2 & _).
  split; [exact H1|exact H2].
Defined.

(** X3.  The table is filled in on the first call of [crc] and never
    again: from globals that are consistent, two calls in a row return
    the checksums, the first leaves the flag set and the table computed,
    and the second leaves the globals as they are. *)
Theorem crc_table_computed_once (g : crc_globals) (s1 s2 : Z) (b1 b2 : list Z) :
  crc_globals_ok g ->
  let '(r1, g1) := crc_lazy g s1 b1 in
  let '(r2, g2) := crc_lazy g1 s2 b2 in
  r1 = crc s1 b1 /\ r2 = crc s2 b2
  /\ crc_table_computed g1 = true /\ crc_table g1 = make_crc_table /\ g2 = g1.
Proof.
  intros Hg.
  pose proof (crc_lazy_crc g s1 b1 Hg) as (H1 & Hok & Hc).
  destruct (crc_lazy g s1 b1) as [r1 g1]. cbn [fst snd] in *.
  pose proof (crc_lazy_crc g1 s2 b2 Hok) as (H2 & _).
  unfold crc_lazy in *. rewrite Hc in *. cbn [fst] in H2.
  repeat split; auto.
Qed.

Lemma crc_table_computed_once_witness :
  let '(r1, g1) := crc_lazy crc_globals_init 0 B"IEND" in
  let '(r2, g2) := crc_lazy g1 0 B"tEXt" in
  r1 = crc 0 B"IEND" /\ r2 = crc 0 B"tEXt"
  /\ crc_table_computed g1 = true /\ crc_table g1 = make_crc_table /\ g2 = g1.
Proof.
  apply crc_table_computed_once. unfold crc_globals_ok, crc_globals_init. discriminate.
Defined.

End CrcBounds.

(** ** The text of an mtime, and byte order *)

Section TextAndByteOrder.
Import CMem.

Lemma uint_digits_inj (d d' : Decimal.uint) :
  uint_digits d = uint_digits d' -> d = d'.
Proof.
  revert d'. induction d; intros []; cbn [uint_digits]; intros E;
    try discriminate; try reflexivity; f_equal; apply IHd; congruence.
Qed.

Lemma uint_digits_range (d : Decimal.uint) :
  Forall (fun c => 48 <= c <= 57) (uint_digits d).
Proof. induction d; cbn [uint_digits]; constructor; (lia || assumption). Qed.

Lemma N_to_uint_nonnil (n : N) : N.to_uint n <> Decimal.Nil.
Proof.
  destruct n as [|p]; [discriminate|]. apply DecimalPos.Unsigned.to_uint_nonnil.
Qed.

(** X4.  The text that "%lu" makes of an mtime determines the mtime as an
    [unsigned long]: two mtimes get the same text exactly when they agree
    modulo 2^64.  The text is never empty and holds decimal digits only,
    so no NUL ends it early in [strlen] or [strcpy]. *)
Theorem printf_lu_faithful (t t' : Z) :
  (printf_lu t = printf_lu t' <-> t mod 2 ^ 64 = t' mod 2 ^ 64)
  /\ printf_lu t <> []
  /\ Forall (fun c => 48 <= c <= 57) (printf_lu t).
Proof.
  unfold printf_lu. split; [|split].
  - split.
    + intros E. apply uint_digits_inj, DecimalN.Unsigned.to_uint_inj in E.
      pose proof (Z.mod_pos_bound t (2 ^ 64) ltac:(lia)).
      pose proof (Z.mod_pos_bound t' (2 ^ 64) ltac:(lia)).
      lia.
    + now intros ->.
  - intros E. apply (N_to_uint_nonnil (Z.to_N (t mod 2 ^ 64))).
    destruct (N.to_uint _); [reflexivity|discriminate..].
  - apply uint_digits_range.
Qed.

Lemma htonl_bytes_range (v : Z) : Forall is_byte (htonl_bytes v).
Proof.
  unfold htonl_bytes, is_byte.
  pose proof (Z.mod_pos_bound v (2 ^ 32) ltac:(lia)) as Hv.
  set (x := v mod 2 ^ 32) in *.
  repeat constructor; try (apply Z.mod_pos_bound; lia).
  - apply Z.div_pos; lia.
  - apply Z.div_lt_upper_bound; lia.
Qed.

Lemma ntohl_at_range (a b c d : Z) (rest : list Z) :
  is_byte a -> is_byte b -> is_byte c -> is_byte d ->
  0 <= ntohl_at (a :: b :: c :: d :: rest) < 2 ^ 32.
Proof. unfold is_byte, ntohl_at. lia. Qed.

Lemma htonl_ntohl (a b c d : Z) (rest : list Z) :
  is_byte a -> is_byte b -> is_byte c -> is_byte d ->
  htonl_bytes (ntohl_at (a :: b :: c :: d :: rest)) = [a; b; c; d].
Proof.
  intros Ha Hb Hc Hd.
  pose proof (ntohl_at_range a b c d rest Ha Hb Hc Hd) as Hr.
  unfold htonl_bytes. rewrite (Z.mod_small _ _ Hr).
  unfold is_byte, ntohl_at in *.
  change (2 ^ 24) with (256 * 256 * 256). change (2 ^ 16) with (256 * 256).
  change (2 ^ 8) with 256.
  f_equal; [|f_equal; [|f_equal; [|f_equal]]].
  - symmetry. apply (Z.div_unique _ _ _ ((b * 256 + c) * 256 + d)); lia.
  - symmetry. apply (Z.mod_unique _ _ a); try lia.
    cut ((((a * 256 + b) * 256 + c) * 256 + d) / (256 * 256) = a * 256 + b); [lia|].
    symmetry. apply (Z.div_unique _ _ _ (c * 256 + d)); lia.
  - symmetry. apply (Z.mod_unique _ _ (a * 256 + b)); try lia.
    cut ((((a * 256 + b) * 256 + c) * 256 + d) / 256 = (a * 256 + b) * 256 + c); [lia|].
    symmetry. apply (Z.div_unique _ _ _ d); lia.
  - symmetry. apply (Z.mod_unique _ _ ((a * 256 + b) * 256 + c)); lia.
Qed.

(** X5.  The length and checksum fields round-trip between writer and
    scanner.  A 32-bit value stored through [htonl] makes four bytes that
    [ntohl] reads back as the value; and four bytes read through [ntohl]
    give a 32-bit value that [htonl] stores as the same four bytes. *)
Theorem byte_order_round_trip (v a b c d : Z) (rest : list Z) :
  0 <= v < 2 ^ 32 -> is_byte a -> is_byte b -> is_byte c -> is_byte d ->
  Forall is_byte (htonl_bytes v)
  /\ ntohl_at (htonl_bytes v ++ rest) = v
  /\ 0 <= ntohl_at (a :: b :: c :: d :: rest) < 2 ^ 32
  /\ htonl_bytes (ntohl_at (a :: b :: c :: d :: rest)) = [a; b; c; d].
Proof.
  intros Hv Ha Hb Hc Hd.
  split; [apply htonl_bytes_range|].
  split; [rewrite ntohl_htonl; now apply Z.mod_small|].
  split; [now apply ntohl_at_range|now apply htonl_ntohl].
Qed.

Lemma byte_order_round_trip_witness :
  ntohl_at (htonl_bytes 19 ++ B"IHDR") = 19
  /\ htonl_bytes (ntohl_at ([0; 0; 0; 13] ++ B"IHDR")) = [0; 0; 0; 13].
Proof.
  pose proof (byte_order_round_trip 19 0 0 0 13 B"IHDR") as H.
  unfold is_byte in H.
  destruct H as (_ & H1 & _ & H2); try lia.
  split; [exact H1|exact H2].
Defined.

End TextAndByteOrder.

(** ** check_png_attributes: bounds, what an acceptance rests on, what is read *)

Section ScannerBounds.
Import Crc CMem Scanner Chunks.

Lemma strcmp_is0_None (data lit : list Z) :
  strcmp_is0 data lit = None <-> data `prefix_of` lit.
Proof.
  revert lit. induction data as [|a data IH]; intros lit; cbn [strcmp_is0].
  - split; [intros _; apply prefix_nil|reflexivity].
  - destruct lit as [|c lit].
    + split; [discriminate|]. intros H. apply prefix_nil_inv in H. discriminate.
    + destruct (Z.eqb_spec a c) as [->|Hne].
      * rewrite IH. split; [apply prefix_cons|apply prefix_cons_inv_2].
      * split; [discriminate|]. intros H. apply prefix_cons_inv_1 in H. contradiction.
Qed.

Lemma strncmp_is0_None (p s : list Z) :
  strncmp_is0 p s (length s) = None <-> p `prefix_of` s /\ p <> s.
Proof.
  revert p. induction s as [|c s IH]; intros p; cbn [strncmp_is0 length].
  - split; [discriminate|]. intros [H Hne]. apply prefix_nil_inv in H. contradiction.
  - destruct p as [|a p].
    + split; [intros _; split; [apply prefix_nil|discriminate]|reflexivity].
    + destruct (Z.eqb_spec a c) as [->|Hne].
      * rewrite IH. split; intros [H1 H2].
        -- split; [now apply prefix_cons|congruence].
        -- split; [now apply prefix_cons_inv_2 in H1|congruence].
      * split; [discriminate|]. intros [H _]. apply prefix_cons_inv_1 in H. contradiction.
Qed.

Lemma strcmp_is0_true (data lit : list Z) :
  strcmp_is0 data lit = Some true <-> exists v, data = lit ++ [0] ++ v.
Proof.
  split.
  - intros H. apply strcmp_is0_prefix in H as [k ->].
    exists k. now rewrite <- app_assoc.
  - intros [v ->]. induction lit as [|c lit IH]; cbn; [reflexivity|].
    now rewrite Z.eqb_refl.
Qed.

(** X6.  When the comparisons leave the chunk's buffer.  The block that
    sets the match flags reads past the end of [data] exactly when the
    payload ends inside a key or right behind it, with no NUL there
    (the payload is a prefix of "Thumb::URI" or of "Thumb::MTime"), or
    when the key is there and the stored value is cut short: a proper
    prefix of the expected URI, or of the expected mtime text. *)
Theorem update_matches_reads_past_buffer (uri : list Z) (mtime : Z) (data : list Z)
    (um mm : bool) :
  update_matches uri mtime data um mm = None
  <-> data `prefix_of` B"Thumb::URI" \/ data `prefix_of` B"Thumb::MTime"
      \/ (exists v, data = B"Thumb::URI" ++ [0] ++ v /\ v `prefix_of` uri /\ v <> uri)
      \/ (exists v, data = B"Thumb::MTime" ++ [0] ++ v
                    /\ v `prefix_of` printf_lu mtime /\ v <> printf_lu mtime).
Proof.
  unfold update_matches, strlen.
  pose proof (strcmp_is0_None data B"Thumb::URI") as NU.
  pose proof (strcmp_is0_None data B"Thumb::MTime") as NM.
  pose proof (strcmp_is0_true data B"Thumb::URI") as TU.
  pose proof (strcmp_is0_true data B"Thumb::MTime") as TM.
  assert (Excl : forall v v', B"Thumb::URI" ++ [0] ++ v <> B"Thumb::MTime" ++ [0] ++ v')
    by (intros v v'; discriminate).
  assert (ExU : forall v, ~ (B"Thumb::URI" ++ [0] ++ v) `prefix_of` B"Thumb::URI").
  { intros v [k Hk]. apply (f_equal length) in Hk. rewrite !length_app in Hk.
    simpl in Hk. lia. }
  assert (ExUM : forall v, ~ (B"Thumb::URI" ++ [0] ++ v) `prefix_of` B"Thumb::MTime").
  { intros v [k Hk]. discriminate. }
  assert (ExM : forall v, ~ (B"Thumb::MTime" ++ [0] ++ v) `prefix_of` B"Thumb::MTime").
  { intros v [k Hk]. apply (f_equal length) in Hk. rewrite !length_app in Hk.
    simpl in Hk. lia. }
  assert (ExMU : forall v, ~ (B"Thumb::MTime" ++ [0] ++ v) `prefix_of` B"Thumb::URI").
  { intros v [k Hk]. discriminate. }
  destruct (strcmp_is0 data B"Thumb::URI") as [[|]|] eqn:EU.
  - destruct (proj1 TU eq_refl) as [v ->].
    change (drop (sizeof_lit B"Thumb::URI") (B"Thumb::URI" ++ [0] ++ v)) with v.
    pose proof (strncmp_is0_None v uri) as NV.
    destruct (strncmp_is0 v uri (length uri)) as [r|].
    + split; [discriminate|]. intros [H|[H|[(v' & E & H1 & H2)|(v' & E & _)]]].
      * now apply ExU in H.
      * now apply ExUM in H.
      * assert (v' = v) as -> by (apply app_inv_head in E; now injection E).
        pose proof (proj2 NV (conj H1 H2)). discriminate.
      * now apply Excl in E.
    + split; [|reflexivity]. intros _. right. right. left.
      exists v. split; [reflexivity|]. now apply NV.
  - assert (NoU : forall v, data <> B"Thumb::URI" ++ [0] ++ v).
    { intros v E. assert (Some false = Some true) as [=]. apply TU. eauto. }
    assert (NotPU : ~ data `prefix_of` B"Thumb::URI").
    { intros H. apply NU in H. discriminate. }
    destruct (strcmp_is0 data B"Thumb::MTime") as [[|]|] eqn:EM.
    + destruct (proj1 TM eq_refl) as [v ->].
      change (drop (sizeof_lit B"Thumb::MTime") (B"Thumb::MTime" ++ [0] ++ v)) with v.
      cbv zeta.
      pose proof (strncmp_is0_None v (printf_lu mtime)) as NV.
      destruct (strncmp_is0 v (printf_lu mtime) _) as [r|].
      * split; [discriminate|]. intros [H|[H|[(v' & E & _)|(v' & E & H1 & H2)]]].
        -- contradiction.
        -- now apply ExM in H.
        -- now apply NoU in E.
        -- assert (v' = v) as -> by (apply app_inv_head in E; now injection E).
           pose proof (proj2 NV (conj H1 H2)). discriminate.
      * split; [|reflexivity]. intros _. right. right. right.
        exists v. split; [reflexivity|]. now apply NV.
    + split; [discriminate|]. intros [H|[H|[(v' & E & _)|(v' & E & _)]]].
      * contradiction.
      * apply NM in H. discriminate.
      * now apply NoU in E.
      * assert (Some false = Some true) as [=]. apply TM. eauto.
    + split; [|reflexivity]. intros _. right. left. now apply NM.
  - split; [|reflexivity]. intros _. left. now apply NU.
Qed.

End ScannerBounds.

Section ScannerSound.
Import Crc CMem Scanner Chunks Examples.

Lemma has_chunk_app (P : chunk -> Prop) (pre fd : list Z) :
  has_chunk P fd -> has_chunk P (pre ++ fd).
Proof.
  intros (l1 & c & l2 & -> & Hc). exists (pre ++ l1), c, l2.
  split; [now rewrite <- app_assoc|exact Hc].
Qed.

Lemma has_chunk_suffix (P : chunk -> Prop) (fd' fd : list Z) :
  fd' `suffix_of` fd -> has_chunk P fd' -> has_chunk P fd.
Proof. intros [pre ->]. apply has_chunk_app. Qed.

(** Where a flag that is set after a chunk comes from. *)
Lemma update_matches_sources (uri : list Z) (mtime : Z) (c : chunk)
    (um mm um' mm' : bool) :
  is_text c = true -> crc_valid c = true ->
  update_matches uri mtime (c_data c) um mm = Some (um', mm') ->
  (um' = true -> um = true \/ carries B"Thumb::URI" uri c)
  /\ (mm' = true -> mm = true \/ carries B"Thumb::MTime" (printf_lu mtime) c).
Proof.
  intros Ht Hc E. apply update_matches_spec in E. injection E as -> ->.
  unfold carries, keyed, chunk_value, value_matches.
  split.
  - destruct (decide _) as [Hp|]; [|auto].
    intros Hv. apply bool_decide_eq_true in Hv. right. auto.
  - destruct (decide _) as [Hp|]; [|auto].
    intros Hv. apply bool_decide_eq_true in Hv. right. auto.
Qed.

(** What one iteration has seen when it accepts the file or goes on. *)
Lemma scan_iteration_inv (uri : list Z) (mtime : Z) (um mm : bool) (fd : list Z) :
  Forall is_byte fd ->
  match scan_iteration uri mtime um mm fd with
  | Return (Returns true) =>
      exists c rest um' mm',
        fd = chunk_bytes c ++ rest /\ is_text c = true /\ crc_valid c = true
        /\ update_matches uri mtime (c_data c) um mm = Some (um', mm')
        /\ um' && mm' = true
  | Continue um' mm' fd' =>
      (um' = um /\ mm' = mm /\ fd' `suffix_of` fd)
      \/ (exists c, fd = chunk_bytes c ++ fd' /\ is_text c = true /\ crc_valid c = true
                    /\ update_matches uri mtime (c_data c) um mm = Some (um', mm'))
  | _ => True
  end.
Proof.
  intros Hb. unfold scan_iteration, read.
  destruct (Nat.eqb_spec (length (take 8 fd)) 8) as [H8|H8]; cbn [negb]; [|exact I].
  rewrite length_take in H8.
  assert (Hfd : fd = take 8 fd ++ drop 8 fd) by (symmetry; apply take_drop).
  set (rest := drop 8 fd) in *.
  assert (Hrest : Forall is_byte rest) by (now apply Forall_drop).
  destruct fd as [|a [|b [|c [|d [|t1 [|t2 [|t3 [|t4 fd]]]]]]]]; try (simpl in H8; lia).
  cbn [take drop] in *.
  do 4 (apply Forall_cons in Hb as [? Hb]).
  set (L := ntohl_at _).
  assert (HL : htonl_bytes L = [a; b; c; d]) by (now apply htonl_ntohl).
  assert (HLr : 0 <= L < 2 ^ 32) by (now apply ntohl_at_range).
  case_bool_decide as Hty.
  - set (n := Z.to_nat L).
    destruct (Z.eqb_spec (Z.of_nat (length (take n rest))) L) as [Hn|Hn];
      cbn [negb]; [|exact I].
    destruct (Nat.eqb_spec (length (take 4 (drop n rest))) 4) as [H4|H4];
      cbn [negb]; [|exact I].
    set (data := take n rest) in *. set (crc_buf := take 4 (drop n rest)) in *.
    set (fd' := drop 4 (drop n rest)).
    assert (Hcb : htonl_bytes (ntohl_at crc_buf) = crc_buf
                  /\ 0 <= ntohl_at crc_buf < 2 ^ 32).
    { assert (Hbytes : Forall is_byte crc_buf) by (now apply Forall_take, Forall_drop).
      destruct crc_buf as [|x1 [|x2 [|x3 [|x4 [|]]]]]; try (simpl in H4; lia).
      do 4 (apply Forall_cons in Hbytes as [? Hbytes]).
      split; [now apply htonl_ntohl|now apply ntohl_at_range]. }
    destruct Hcb as [Hcb Hcr].
    set (ch := {| c_type := B"tEXt"; c_data := data; c_crc := ntohl_at crc_buf |}).
    assert (Hlay : a :: b :: c :: d :: t1 :: t2 :: t3 :: t4 :: fd = chunk_bytes ch ++ fd').
    { unfold chunk_bytes, ch. cbn [c_type c_data c_crc].
      rewrite Hn, HL, Hcb, Hfd. injection Hty as -> -> -> ->.
      cbn [app]. do 8 f_equal. subst data crc_buf fd'.
      rewrite <- !app_assoc.
      now rewrite (take_drop 4 (drop n rest)), (take_drop n rest). }
    assert (Htext : is_text ch = true) by reflexivity.
    destruct (Z.eqb_spec (ntohl_at crc_buf) (crc (crc 0 B"tEXt") data mod 2 ^ 32))
      as [Hcrc|Hcrc].
    + assert (Hvalid : crc_valid ch = true).
      { unfold crc_valid, ch. cbn [c_type c_data c_crc].
        rewrite <- crc_app. now apply Z.eqb_eq. }
      destruct (update_matches uri mtime data um mm) as [[um' mm']|] eqn:E; [|exact I].
      destruct (um' && mm') eqn:Eb.
      * exists ch, fd', um', mm'. auto.
      * right. exists ch. auto.
    + left. split; [reflexivity|]. split; [reflexivity|].
      rewrite Hlay. apply suffix_app_r. reflexivity.
  - left. split; [reflexivity|]. split; [reflexivity|].
    unfold lseek_cur. rewrite Hfd.
    apply suffix_app_r. eexists. symmetry. apply take_drop.
Qed.

Lemma scan_chunks_sound (uri : list Z) (mtime : Z) (fd : list Z) :
  forall um mm,
  Forall is_byte fd ->
  scan_chunks uri mtime um mm fd = Returns true ->
  (um = true \/ has_chunk (carries B"Thumb::URI" uri) fd)
  /\ (mm = true \/ has_chunk (carries B"Thumb::MTime" (printf_lu mtime)) fd).
Proof.
  induction fd as [fd IH] using (induction_ltof1 _ (@length Z)). unfold ltof in IH.
  intros um mm Hb Hacc. rewrite scan_chunks_loop in Hacc.
  pose proof (scan_iteration_inv uri mtime um mm fd Hb) as Hinv.
  pose proof (scan_iteration_consumes uri mtime um mm fd) as Hlt.
  destruct (scan_iteration uri mtime um mm fd) as [r|um' mm' fd'].
  - subst r. destruct Hinv as (c & rest & um' & mm' & -> & Ht & Hv & E & Hboth).
    apply andb_prop in Hboth as [-> ->].
    destruct (update_matches_sources _ _ _ _ _ _ _ Ht Hv E) as [Hu Hm].
    split.
    + destruct (Hu eq_refl) as [?|Hc]; [auto|]. right. exists [], c, rest. auto.
    + destruct (Hm eq_refl) as [?|Hc]; [auto|]. right. exists [], c, rest. auto.
  - specialize (Hlt um' mm' fd' eq_refl).
    assert (Hsuf : fd' `suffix_of` fd).
    { destruct Hinv as [(_ & _ & Hs)|(c & -> & _)]; [exact Hs|].
      apply suffix_app_r. reflexivity. }
    assert (Hb' : Forall is_byte fd').
    { destruct Hsuf as [pre ->]. now apply Forall_app in Hb as [_ Hb]. }
    destruct (IH fd' Hlt um' mm' Hb' Hacc) as [IHu IHm].
    assert (Hup : forall (P : chunk -> Prop), has_chunk P fd' -> has_chunk P fd)
      by (intros P; now apply has_chunk_suffix).
    destruct Hinv as [(-> & -> & _)|(c & Hfd & Ht & Hv & E)].
    + split; [destruct IHu; auto|destruct IHm; auto].
    + destruct (update_matches_sources _ _ _ _ _ _ _ Ht Hv E) as [Hu Hm].
      split.
      * destruct IHu as [Hset|Hin]; [|auto].
        destruct (Hu Hset) as [?|Hc]; [auto|]. right. exists [], c, fd'. auto.
      * destruct IHm as [Hset|Hin]; [|auto].
        destruct (Hm Hset) as [?|Hc]; [auto|]. right. exists [], c, fd'. auto.
Qed.

(** X7.  What a TRUE of [check_png_attributes] rests on.  A file of bytes
    that is accepted starts with the PNG signature and holds, byte for
    byte, a tEXt chunk with a valid checksum and key Thumb::URI whose
    value starts with the expected URI, and one with key Thumb::MTime
    whose value starts with the expected mtime text.  No assumption is
    made on the rest of the file. *)
Theorem accepted_file_carries_uri_and_mtime (fd uri : list Z) (mtime : Z) :
  Forall is_byte fd ->
  check_png_stream fd uri mtime = Returns true ->
  expected_header `prefix_of` fd
  /\ has_chunk (carries B"Thumb::URI" uri) fd
  /\ has_chunk (carries B"Thumb::MTime" (printf_lu mtime)) fd.
Proof.
  intros Hb. unfold check_png_stream, read.
  destruct (Nat.eqb_spec (length (take 8 fd)) 8) as [H8|H8]; cbn [negb]; [|discriminate].
  case_bool_decide as Hh; cbn [negb]; [|discriminate].
  intros Hacc.
  assert (Hfd : fd = expected_header ++ drop 8 fd)
    by (rewrite <- Hh; symmetry; apply take_drop).
  apply scan_chunks_sound in Hacc as [[?|Hu] [?|Hm]];
    try discriminate; [|now apply Forall_drop].
  rewrite Hfd. split; [now eexists|].
  split; now apply has_chunk_app.
Qed.

Lemma accepted_file_carries_uri_and_mtime_witness :
  has_chunk (carries B"Thumb::URI" B"file:///a") (png_file uri_a_file)
  /\ has_chunk (carries B"Thumb::MTime" B"17") (png_file uri_a_file).
Proof.
  exact (proj2 (accepted_file_carries_uri_and_mtime (png_file uri_a_file) B"file:///a" 17
                  ltac:(by_compute) ltac:(vm_compute; reflexivity))).
Defined.

End ScannerSound.

Section ScannerReads.
Import Crc CMem Scanner Chunks Examples.

Lemma scan_chunks_nil (uri : list Z) (mtime : Z) (um mm : bool) :
  scan_chunks uri mtime um mm [] = Returns false.
Proof. apply scan_chunks_short. simpl. lia. Qed.

(** One iteration on a file with bytes appended. *)
Lemma scan_iteration_app (uri : list Z) (mtime : Z) (um mm : bool) (fd extra : list Z) :
  match scan_iteration uri mtime um mm fd with
  | Return (Returns false) => True
  | Return r => scan_iteration uri mtime um mm (fd ++ extra) = Return r
  | Continue um' mm' fd' =>
      fd' = []
      \/ scan_iteration uri mtime um mm (fd ++ extra) = Continue um' mm' (fd' ++ extra)
  end.
Proof.
  unfold scan_iteration, read.
  destruct (Nat.eqb_spec (length (take 8 fd)) 8) as [H8|H8]; cbn [negb]; [|exact I].
  assert (H8' : (8 <= length fd)%nat) by (rewrite length_take in H8; lia).
  rewrite (take_app_le fd extra 8), (drop_app_le fd extra 8) by exact H8'.
  rewrite H8. change (8 =? 8)%nat with true. cbn [negb].
  set (rest := drop 8 fd).
  set (L := ntohl_at (take 8 fd)).
  case_bool_decide as Hty.
  - set (n := Z.to_nat L).
    destruct (Z.eqb_spec (Z.of_nat (length (take n rest))) L) as [Hn|Hn];
      cbn [negb]; [|exact I].
    assert (Hle : (n <= length rest)%nat) by (rewrite length_take in Hn; lia).
    rewrite (take_app_le rest extra n), (drop_app_le rest extra n) by exact Hle.
    rewrite Hn, Z.eqb_refl. cbn [negb].
    destruct (Nat.eqb_spec (length (take 4 (drop n rest))) 4) as [H4|H4];
      cbn [negb]; [|exact I].
    assert (H4' : (4 <= length (drop n rest))%nat) by (rewrite length_take in H4; lia).
    rewrite (take_app_le (drop n rest) extra 4), (drop_app_le (drop n rest) extra 4)
      by exact H4'.
    rewrite H4. change (4 =? 4)%nat with true. cbn [negb].
    destruct (_ =? _).
    + destruct (update_matches uri mtime (take n rest) um mm) as [[um' mm']|];
        [|reflexivity].
      destruct (um' && mm'); [reflexivity|now right].
    + now right.
  - unfold lseek_cur. set (k := Z.to_nat ((L + 4) mod 2 ^ 32)).
    destruct (Nat.le_gt_cases k (length rest)) as [Hk|Hk].
    + right. now rewrite drop_app_le.
    + left. apply drop_ge. lia.
Qed.

Lemma scan_chunks_app (uri : list Z) (mtime : Z) (fd extra : list Z) :
  forall um mm,
  scan_chunks uri mtime um mm fd = Returns true ->
  scan_chunks uri mtime um mm (fd ++ extra) = Returns true.
Proof.
  induction fd as [fd IH] using (induction_ltof1 _ (@length Z)). unfold ltof in IH.
  intros um mm Hacc. rewrite scan_chunks_loop in Hacc. rewrite scan_chunks_loop.
  pose proof (scan_iteration_app uri mtime um mm fd extra) as Happ.
  pose proof (scan_iteration_consumes uri mtime um mm fd) as Hlt.
  destruct (scan_iteration uri mtime um mm fd) as [r|um' mm' fd'].
  - subst r. now rewrite Happ.
  - destruct Happ as [E|E].
    + subst fd'. now rewrite scan_chunks_nil in Hacc.
    + rewrite E. apply IH; eauto.
Qed.

(** X8.  Nothing behind the point of acceptance is read: a file that
    [check_png_attributes] accepts is accepted with any bytes appended,
    such as the tail of an older file that was overwritten in place. *)
Theorem accepted_whatever_follows (fd extra uri : list Z) (mtime : Z) :
  check_png_stream fd uri mtime = Returns true ->
  check_png_stream (fd ++ extra) uri mtime = Returns true.
Proof.
  unfold check_png_stream, read.
  destruct (Nat.eqb_spec (length (take 8 fd)) 8) as [H8|H8]; cbn [negb]; [|discriminate].
  assert (H8' : (8 <= length fd)%nat) by (rewrite length_take in H8; lia).
  rewrite (take_app_le fd extra 8), (drop_app_le fd extra 8) by exact H8'.
  rewrite H8. change (8 =? 8)%nat with true. cbn [negb].
  destruct (negb _); [discriminate|]. apply scan_chunks_app.
Qed.

Lemma accepted_whatever_follows_witness :
  check_png_stream (png_file uri_a_file ++ [1; 2; 3]) B"file:///a" 17 = Returns true.
Proof.
  apply accepted_whatever_follows. vm_compute. reflexivity.
Defined.

(** The loop on a chunk list and on its checked tEXt chunks. *)
Lemma scan_chunks_filter (uri : list Z) (mtime : Z) (cs : list chunk) :
  Forall chunk_wf cs ->
  forall um mm,
  scan_chunks uri mtime um mm (concat (map chunk_bytes cs))
  = scan_chunks uri mtime um mm (concat (map chunk_bytes (filter checked_text cs))).
Proof.
  induction 1 as [|c cs Hc Hcs IH]; intros um mm; [reflexivity|].
  rewrite filter_cons. cbn [map concat].
  rewrite scan_chunks_cons by exact Hc.
  destruct (decide (checked_text c)) as [[Ht Hv]|Hn].
  - cbn [map concat]. rewrite scan_chunks_cons by exact Hc.
    unfold chunk_step. rewrite Ht, Hv.
    destruct (update_matches uri mtime (c_data c) um mm) as [[um' mm']|]; [|reflexivity].
    destruct (um' && mm'); [reflexivity|apply IH].
  - unfold chunk_step. unfold checked_text in Hn.
    destruct (is_text c); [|apply IH].
    destruct (crc_valid c); [|apply IH].
    exfalso. auto.
Qed.

(** X9.  The result depends on the tEXt chunks with a valid checksum and
    on nothing else: on a file of well-formed chunks, [check_png_attributes]
    does what it does on the file with all other chunks taken out (chunks
    of other types, whatever their length, payload and checksum, and tEXt
    chunks whose checksum is wrong). *)
Theorem verdict_depends_on_checked_text_chunks (cs : list chunk) (uri : list Z) (mtime : Z) :
  Forall chunk_wf cs ->
  check_png_stream (png_file cs) uri mtime
  = check_png_stream (png_file (filter checked_text cs)) uri mtime.
Proof.
  intros Hwf. unfold png_file. rewrite !check_png_stream_header.
  now apply scan_chunks_filter.
Qed.

Lemma verdict_depends_on_checked_text_chunks_witness :
  let cs := [ihdr0; flip_crc (text0 B"Thumb::URI" B"file:///b");
             text0 B"Thumb::URI" B"file:///a"; text0 B"Thumb::MTime" B"17"] in
  check_png_stream (png_file cs) B"file:///a" 17
  = check_png_stream
      (png_file [text0 B"Thumb::URI" B"file:///a"; text0 B"Thumb::MTime" B"17"])
      B"file:///a" 17.
Proof.
  intros cs.
  exact (verdict_depends_on_checked_text_chunks cs B"file:///a" 17 ltac:(by_compute)).
Defined.

(** The skip of a chunk of another type, for any value of the length field. *)
Lemma scan_iteration_skip (uri : list Z) (mtime : Z) (um mm : bool)
    (L : Z) (ty rest : list Z) :
  0 <= L < 2 ^ 32 -> length ty = 4%nat -> ty <> B"tEXt" ->
  scan_iteration uri mtime um mm (htonl_bytes L ++ ty ++ rest)
  = Continue um mm (drop (Z.to_nat ((L + 4) mod 2 ^ 32)) rest).
Proof.
  intros HL Hty Hne. unfold scan_iteration, read, lseek_cur.
  rewrite (app_assoc (htonl_bytes L)).
  assert (E8 : length (htonl_bytes L ++ ty) = 8%nat)
    by (rewrite length_app, Hty; reflexivity).
  rewrite (take_app_length' (htonl_bytes L ++ ty)), (drop_app_length' (htonl_bytes L ++ ty))
    by (symmetry; exact E8).
  rewrite E8. change (8 =? 8)%nat with true. cbn [negb].
  rewrite (drop_app_length' (htonl_bytes L)) by reflexivity.
  rewrite bool_decide_eq_false_2 by exact Hne.
  rewrite ntohl_htonl, (Z.mod_small L) by lia. reflexivity.
Qed.

(** X10.  The skip over a chunk of another type is computed in
    [unsigned]: [header_length + 4] wraps around at 2^32.  For a length
    field of 2^32 - 4 or more the scanner moves on by at most three
    bytes, and for 2^32 - 4 by none: it then reads the chunk's payload as
    the next chunk header. *)
Theorem length_field_wraps (uri : list Z) (mtime : Z) (um mm : bool)
    (L : Z) (ty rest : list Z) :
  2 ^ 32 - 4 <= L < 2 ^ 32 -> length ty = 4%nat -> ty <> B"tEXt" ->
  scan_iteration uri mtime um mm (htonl_bytes L ++ ty ++ rest)
  = Continue um mm (drop (Z.to_nat (L + 4 - 2 ^ 32)) rest)
  /\ (L = 2 ^ 32 - 4 ->
      check_png_stream (expected_header ++ htonl_bytes L ++ ty ++ rest) uri mtime
      = check_png_stream (expected_header ++ rest) uri mtime).
Proof.
  intros HL Hty Hne.
  assert (Hstep : forall um mm,
            scan_iteration uri mtime um mm (htonl_bytes L ++ ty ++ rest)
            = Continue um mm (drop (Z.to_nat (L + 4 - 2 ^ 32)) rest)).
  { intros um' mm'. rewrite scan_iteration_skip by (auto; lia).
    f_equal. f_equal. f_equal. symmetry. apply (Z.mod_unique_pos _ _ 1); lia. }
  split; [apply Hstep|]. intros ->.
  rewrite !check_png_stream_header, scan_chunks_loop, Hstep. reflexivity.
Qed.

Lemma length_field_wraps_witness :
  let rest := concat (map chunk_bytes (drop 1 uri_a_file)) in
  check_png_stream (expected_header ++ htonl_bytes (2 ^ 32 - 4) ++ B"IDAT" ++ rest)
    B"file:///a" 17
  = check_png_stream (expected_header ++ rest) B"file:///a" 17.
Proof.
  intros rest.
  refine (proj2 (length_field_wraps B"file:///a" 17 false false (2 ^ 32 - 4) B"IDAT" rest
                   _ _ _) eq_refl).
  - lia.
  - reflexivity.
  - by_compute.
Defined.

(** X11.  A changed payload byte is always found out.  If one byte of the
    payload of a tEXt chunk with a valid checksum is replaced by another,
    the stored checksum left as it is, the CRC-32 of type and payload is
    no longer the stored one, and the scanner passes over the chunk
    without touching the match flags. *)
Theorem payload_corruption_detected (uri : list Z) (mtime : Z) (um mm : bool)
    (a b : list Z) (x y stored : Z) (rest : list Z) :
  let good := {| c_type := B"tEXt"; c_data := a ++ x :: b; c_crc := stored |} in
  let bad := {| c_type := B"tEXt"; c_data := a ++ y :: b; c_crc := stored |} in
  chunk_wf good -> crc_valid good = true ->
  is_byte x -> is_byte y -> x <> y ->
  crc 0 (B"tEXt" ++ a ++ y :: b) <> crc 0 (B"tEXt" ++ a ++ x :: b)
  /\ crc_valid bad = false
  /\ scan_iteration uri mtime um mm (chunk_bytes bad ++ rest) = Continue um mm rest.
Proof.
  intros good bad Hwf Hvalid Hx Hy Hne.
  assert (Hcrc : crc 0 (B"tEXt" ++ a ++ y :: b) <> crc 0 (B"tEXt" ++ a ++ x :: b)).
  { rewrite !(app_assoc B"tEXt" a). apply crc_byte_change; auto. lia. }
  assert (Hbad : crc_valid bad = false).
  { unfold crc_valid in *. cbn [c_type c_data c_crc good bad] in *.
    apply Z.eqb_eq in Hvalid. apply Z.eqb_neq. rewrite Hvalid.
    rewrite !Z.mod_small by (apply crc_range; lia). auto. }
  split; [exact Hcrc|]. split; [exact Hbad|].
  assert (Hwf' : chunk_wf bad).
  { destruct Hwf as (H1 & H2 & H3). unfold chunk_wf. cbn [c_type c_data c_crc good bad] in *.
    rewrite length_app in *. cbn [length] in *. auto. }
  rewrite scan_iteration_chunk by exact Hwf'.
  unfold chunk_step. now rewrite Hbad.
Qed.

Lemma payload_corruption_detected_witness :
  let a := B"Thumb::URI" ++ [0] ++ B"file:///" in
  let stored := crc 0 (B"tEXt" ++ a ++ [97]) in
  scan_iteration B"file:///b" 17 false true
    (chunk_bytes {| c_type := B"tEXt"; c_data := a ++ [98]; c_crc := stored |} ++ [])
  = Continue false true [].
Proof.
  intros a stored.
  refine (proj2 (proj2 (payload_corruption_detected B"file:///b" 17 false true
                          a [] 97 98 stored [] _ _ _ _ _))).
  - by_compute.
  - vm_compute. reflexivity.
  - unfold is_byte. lia.
  - unfold is_byte. lia.
  - lia.
Defined.

End ScannerReads.

(** ** png_writer: when a write fails, and what the injected buffers are *)

Section WriterFailure.
Import Crc CMem Scanner Chunks Writer Examples.

Lemma write_short (f : out_file) (buf : list Z) :
  (of_room f < length buf)%nat ->
  (fst (write f buf) =? Z.of_nat (length buf)) = false.
Proof.
  intros Hroom. unfold write.
  rewrite (proj2 (Nat.leb_gt _ _) Hroom).
  destruct (of_room f =? 0)%nat; cbn [fst]; apply Z.eqb_neq; lia.
Qed.

Lemma png_writer_forward_fails (W : list Z) (R n : nat) (uri mtime data : list Z) :
  (R < length data)%nat ->
  fst (png_writer_forward
         {| output_file_fd := {| of_written := W; of_room := R |}; bytes_written := n;
            Thumb_URI := uri; Thumb_MTime := mtime |} data)
  = CAIRO_STATUS_WRITE_ERROR.
Proof.
  intros Hroom. unfold png_writer_forward. cbn [output_file_fd].
  rewrite (proj2 (Nat.ltb_lt 0 (length data))) by lia.
  pose proof (write_short {| of_written := W; of_room := R |} data Hroom) as Hs.
  destruct (write _ data) as [r f]. cbn [fst] in Hs. now rewrite Hs.
Qed.

Lemma png_writer_fails (W : list Z) (R n : nat) (uri mtime data : list Z) :
  (R < length (emitted uri mtime n data))%nat ->
  fst (png_writer
         {| output_file_fd := {| of_written := W; of_room := R |}; bytes_written := n;
            Thumb_URI := uri; Thumb_MTime := mtime |} data)
  = CAIRO_STATUS_WRITE_ERROR.
Proof.
  unfold png_writer, emitted. cbn [bytes_written output_file_fd].
  destruct ((n <? inject_pos)%nat && (inject_pos <=? n + length data)%nat) eqn:Hinj;
    [|apply png_writer_forward_fails].
  apply andb_prop in Hinj as [Hlt Hge].
  apply Nat.ltb_lt in Hlt. apply Nat.leb_le in Hge.
  set (k := (inject_pos - n)%nat).
  assert (Hk : length (take k data) = k) by (rewrite length_take; lia).
  rewrite !length_app, Hk, !length_text_chunk, length_drop. intros Hroom.
  destruct (Nat.le_gt_cases k R) as [H1|H1].
  2:{ pose proof (write_short {| of_written := W; of_room := R |} (take k data)) as Hs.
      rewrite Hk in Hs. specialize (Hs H1).
      destruct (write _ (take k data)) as [r f]. cbn [fst] in Hs. now rewrite Hs. }
  rewrite write_ok by (cbn [of_room]; lia).
  rewrite Hk, Z.eqb_refl.
  cbn [negb set_fd set_bytes_written output_file_fd bytes_written Thumb_URI
       Thumb_MTime of_written of_room].
  rewrite uri_output_chunk, mtime_output_chunk.
  unfold uri_output_length, mtime_output_length, strlen, sizeof_lit.
  rewrite (take_ge (text_chunk B"Thumb::URI" uri)),
    (take_ge (text_chunk B"Thumb::MTime" mtime))
    by (rewrite length_text_chunk; simpl; lia).
  set (U := text_chunk B"Thumb::URI" uri).
  set (M := text_chunk B"Thumb::MTime" mtime).
  assert (HU : length U = (4 + 4 + S (length B"Thumb::URI") + length uri + 4)%nat)
    by apply length_text_chunk.
  assert (HM : length M = (4 + 4 + S (length B"Thumb::MTime") + length mtime + 4)%nat)
    by apply length_text_chunk.
  destruct (Nat.le_gt_cases (length U) (R - k)) as [H2|H2].
  2:{ pose proof (write_short {| of_written := W ++ take k data; of_room := R - k |} U H2)
        as Hs.
      destruct (write _ U) as [r f]. cbn [fst] in Hs. rewrite <- HU, Hs. reflexivity. }
  rewrite write_ok by exact H2. rewrite <- HU, Z.eqb_refl.
  cbn [negb set_fd set_bytes_written output_file_fd bytes_written Thumb_URI
       Thumb_MTime of_written of_room].
  destruct (Nat.le_gt_cases (length M) (R - k - length U)) as [H3|H3].
  2:{ pose proof (write_short {| of_written := (W ++ take k data) ++ U;
                                 of_room := R - k - length U |} M H3) as Hs.
      destruct (write _ M) as [r f]. cbn [fst] in Hs. rewrite <- HM, Hs. reflexivity. }
  rewrite write_ok by exact H3. rewrite <- HM, Z.eqb_refl.
  cbn [negb set_fd set_bytes_written output_file_fd bytes_written Thumb_URI
       Thumb_MTime of_written of_room].
  unfold set_fd, set_bytes_written.
  cbn [output_file_fd bytes_written Thumb_URI Thumb_MTime].
  apply png_writer_forward_fails. rewrite length_drop. fold k. lia.
Qed.

Lemma stream_status (uri mtime : list Z) (final : cairo_status_t) (calls : list (list Z)) :
  forall (W : list Z) (R n : nat),
  fst (cairo_surface_write_to_png_stream calls final png_writer
         {| output_file_fd := {| of_written := W; of_room := R |}; bytes_written := n;
            Thumb_URI := uri; Thumb_MTime := mtime |})
  = if (length (emit_all uri mtime n calls) <=? R)%nat then final
    else CAIRO_STATUS_WRITE_ERROR.
Proof.
  induction calls as [|data calls IH]; intros W R n; [reflexivity|].
  cbn [emit_all cairo_surface_write_to_png_stream]. rewrite length_app.
  destruct (Nat.le_gt_cases (length (emitted uri mtime n data)) R) as [H1|H1].
  - rewrite png_writer_ok by exact H1. cbn [is_success]. rewrite IH.
    destruct (Nat.leb_spec (length (emit_all uri mtime (n + length data) calls))
                (R - length (emitted uri mtime n data)));
      destruct (Nat.leb_spec (length (emitted uri mtime n data)
                              + length (emit_all uri mtime (n + length data) calls)) R);
      (reflexivity || lia).
  - pose proof (png_writer_fails W R n uri mtime data H1) as Hf.
    destruct (png_writer _ data) as [status info]. cbn [fst] in Hf. subst status.
    cbn [is_success fst].
    destruct (Nat.leb_spec (length (emitted uri mtime n data)
                            + length (emit_all uri mtime (n + length data) calls)) R);
      (reflexivity || lia).
Qed.

Lemma length_emit_all (uri mtime : list Z) (calls : list (list Z)) :
  length (emit_all uri mtime 0 calls)
  = (length (concat calls)
     + if (33 <=? length (concat calls))%nat then 48 + length uri + length mtime else 0)%nat.
Proof.
  destruct (Nat.leb_spec 33 (length (concat calls))) as [H|H].
  - rewrite emit_all_inject by (unfold inject_pos; simpl; lia).
    rewrite !length_app, !length_text_chunk, length_take, length_drop.
    change (length B"Thumb::URI") with 10%nat.
    change (length B"Thumb::MTime") with 12%nat.
    change (inject_pos - 0)%nat with 33%nat. lia.
  - rewrite emit_all_passthrough by (unfold inject_pos; simpl; lia). lia.
Qed.

(** X12.  When the stream goes through and when it does not.  The encoder
    hands a stream to [png_writer] in pieces; the status it ends with is
    its own final status if the device takes the stream's bytes, plus 48
    bytes and the lengths of URI and mtime text for the two chunks when
    the stream reaches offset 33, and CAIRO_STATUS_WRITE_ERROR if the
    device takes fewer. *)
Theorem write_error_iff_device_full
    (uri mtime : list Z) (room : nat) (calls : list (list Z)) (final : cairo_status_t) :
  let stream := concat calls in
  let needed :=
    (length stream
     + if (33 <=? length stream)%nat then 48 + length uri + length mtime else 0)%nat in
  fst (cairo_surface_write_to_png_stream calls final png_writer
         (writer_start room uri mtime))
  = if (needed <=? room)%nat then final else CAIRO_STATUS_WRITE_ERROR.
Proof.
  intros stream needed. unfold writer_start.
  rewrite stream_status, length_emit_all. reflexivity.
Qed.

(** X13.  The two buffers that [png_writer] fills in and writes are
    chunks as the scanner expects them: length field, type tEXt, the key,
    a NUL, the value with no NUL behind it, and the CRC-32 of type and
    payload, which the scanner finds valid. *)
Theorem injected_buffers_are_chunks (uri mtime : list Z) :
  Z.of_nat (length uri) + 15 < 2 ^ 32 -> Z.of_nat (length mtime) + 17 < 2 ^ 32 ->
  (exists c, uri_output uri = chunk_bytes c /\ chunk_wf c
             /\ keyed B"Thumb::URI" c /\ chunk_value B"Thumb::URI" c = uri)
  /\ (exists c, mtime_output mtime = chunk_bytes c /\ chunk_wf c
                /\ keyed B"Thumb::MTime" c /\ chunk_value B"Thumb::MTime" c = mtime).
Proof.
  intros Hu Hm.
  assert (H : forall key value,
            Z.of_nat (length key + 1 + length value) + 4 < 2 ^ 32 ->
            exists c, text_chunk key value = chunk_bytes c /\ chunk_wf c
                      /\ keyed key c /\ chunk_value key c = value).
  { intros key value Hlen. exists (text_record key value).
    split; [apply text_chunk_record|]. split; [now apply text_record_wf|].
    split.
    - unfold keyed, is_text, crc_valid, text_record. cbn [c_type c_data c_crc].
      split; [reflexivity|]. split; [apply Z.eqb_refl|].
      exists value. now rewrite <- app_assoc.
    - unfold chunk_value, text_record. cbn [c_data].
      rewrite app_assoc. apply drop_app_length'. rewrite length_app. simpl. lia. }
  rewrite uri_output_chunk, mtime_output_chunk.
  split; apply H; simpl length; lia.
Qed.

Lemma injected_buffers_are_chunks_witness :
  exists c, uri_output B"file:///a" = chunk_bytes c /\ chunk_wf c
            /\ keyed B"Thumb::URI" c /\ chunk_value B"Thumb::URI" c = B"file:///a".
Proof.
  refine (proj1 (injected_buffers_are_chunks B"file:///a" B"17" _ _)); simpl; lia.
Defined.

End WriterFailure.

(** ** File names *)

Section Names.
Import Crc CMem Scanner Chunks Writer Cache Examples.

Lemma g_strrstr_sep_spec (s : list Z) :
  match g_strrstr_sep s with
  | Some p => exists pre tail, s = pre ++ 47 :: tail /\ p = 47 :: tail /\ 47 ∉ tail
  | None => 47 ∉ s
  end.
Proof.
  induction s as [|c s IH]; cbn [g_strrstr_sep]; [apply not_elem_of_nil|].
  destruct (g_strrstr_sep s) as [p|].
  - destruct IH as (pre & tail & -> & -> & Hno).
    exists (c :: pre), tail. auto.
  - destruct (Z.eqb_spec c 47) as [->|Hne].
    + exists [], s. auto.
    + apply not_elem_of_cons. auto.
Qed.

(** X14.  The base name that [get_local_filename] compares: what follows
    the last separator of the name, or the whole name if it has none.  It
    holds no separator. *)
Theorem basename_after_last_separator (name : list Z) :
  (47 ∉ after_last_separator name)
  /\ (47 ∉ name -> after_last_separator name = name)
  /\ (forall pre tail, name = pre ++ 47 :: tail -> 47 ∉ tail ->
        after_last_separator name = tail).
Proof.
  unfold after_last_separator.
  pose proof (g_strrstr_sep_spec name) as H.
  destruct (g_strrstr_sep name) as [p|].
  - destruct H as (pre & tail & -> & -> & Hno). cbn [drop].
    split; [exact Hno|]. split.
    + intros Hn. exfalso. apply Hn. apply elem_of_app. right. left.
    + intros pre' tail' E Hno'.
      assert (Hs : forall (a b c d : list Z),
                a ++ 47 :: b = c ++ 47 :: d -> 47 ∉ b -> 47 ∉ d -> b = d).
      { clear. intros a. induction a as [|x a IH]; intros b c d E Hb Hd.
        - destruct c as [|y c]; [now injection E|].
          injection E as <- ->. exfalso. apply Hb.
          apply elem_of_app. right. left.
        - destruct c as [|y c].
          + injection E as -> <-. exfalso. apply Hd.
            apply elem_of_app. right. left.
          + injection E as _ E. eauto. }
      exact (Hs _ _ _ _ E Hno Hno').
  - split; [exact H|]. split; [reflexivity|].
    intros pre tail -> _. exfalso. apply H. apply elem_of_app. right. left.
Qed.

(** X15.  Entries do not share a file: under one cache directory, the
    names for two different levels, or for two different digests, are
    different. *)
Theorem cache_names_do_not_clash (dir md5 md5' : list Z) (j j' : nat) :
  (j < 2)%nat -> (j' < 2)%nat -> j <> j' \/ md5 <> md5' ->
  candidate_name dir j md5 <> candidate_name dir j' md5'.
Proof.
  intros Hj Hj' Hne E. unfold candidate_name in E. apply app_inv_head in E.
  destruct j as [|[|j]], j' as [|[|j']]; try lia; cbn in E; try discriminate.
  - injection E as E. apply app_inv_tail in E. destruct Hne; congruence.
  - injection E as E. apply app_inv_tail in E. destruct Hne; congruence.
Qed.

Lemma cache_names_do_not_clash_witness : large_entry <> normal_entry.
Proof.
  apply (cache_names_do_not_clash B"/home/u/.cache/thumbnails"
           B"0123456789abcdef0123456789abcdef" B"0123456789abcdef0123456789abcdef" 0 1);
    auto.
Defined.

End Names.

(** ** store_thumbnail_to_cache: every way out *)

Section StoreEffect.
Import Crc CMem Scanner Chunks Writer Cache.
Context {ext : Externals}.

(** The result of [store_thumbnail] once the level and the local name are
    known: the return value and the world's fields afterwards. *)
Lemma store_thumbnail_effect (file : file_t) (t : surface) (w : world)
    (p : list Z) (j : nat) (calls : list (list Z)) (final : cairo_status_t) :
  level_of t = Some j -> get_local_filename file = Some p ->
  png_encode t = (calls, final) ->
  let uri := B"file://" ++ p in
  let ms := printf_lu (stat_mtime w p) in
  let dest := destination w p j in
  let fd := w_open w dest in
  let run := cairo_surface_write_to_png_stream calls final png_writer
               (writer_start (w_room w) uri ms) in
  let written := of_written (output_file_fd (snd run)) in
  let old := default [] (w_files w !! dest) in
  let '(b, w') := store_thumbnail file t w in
  b = (if 0 <? fd then is_success (fst run) else true)
  /\ w_files w'
     = (if 0 <? fd then
          if is_success (fst run)
          then <[dest := written ++ drop (length written) old]> (w_files w)
          else delete dest (w_files w)
        else if (fd =? 0) && negb (bool_decide (is_Some (w_files w !! dest)))
             then <[dest := []]> (w_files w) else w_files w)
  /\ w_mtime w' = w_mtime w /\ w_open w' = w_open w
  /\ w_stack_mtime w' = w_stack_mtime w
  /\ w_cache_directory w' = Some (fst (get_thumbnail_cache_directory w))
  /\ w_room w' = (if 0 <? fd then of_room (output_file_fd (snd run)) else w_room w).
Proof.
  intros Hlevel Hlocal Henc uri ms dest fd run written old.
  subst dest fd run written old. unfold destination. fold uri.
  pose proof (get_thumbnail_cache_directory_frame w) as Hframe.
  unfold store_thumbnail, level_of in *. cbv zeta. rewrite Hlocal. fold uri ms.
  destruct (get_thumbnail_cache_directory w) as [dir w1]. cbn [fst] in *.
  destruct Hframe as (Hcd & _ & Hfiles & Hmt & Hop & Hrm & Hst).
  assert (Hj : (if (surface_width t =? 256) || (surface_height t =? 256)
                then 0%nat else 1%nat) = j).
  { destruct ((surface_width t =? 256) || (surface_height t =? 256));
      [congruence|].
    destruct ((surface_width t =? 128) || (surface_height t =? 128)); congruence. }
  destruct ((surface_width t =? 256) || (surface_height t =? 256)) eqn:E256;
    [|destruct ((surface_width t =? 128) || (surface_height t =? 128));
      [|discriminate]].
  all: cbv iota in Hj; subst j.
  all: set (dest := candidate_name dir _ (md5_hex uri)).
  all: rewrite Hop, Hfiles, Henc.
  all: set (fd := w_open w dest).
  all: set (w2 := if (0 <=? fd) && negb _ then _ else w1).
  all: assert (Hw2 : w_room w2 = w_room w /\ w_mtime w2 = w_mtime w
                     /\ w_open w2 = w_open w /\ w_stack_mtime w2 = w_stack_mtime w
                     /\ w_cache_directory w2 = Some dir)
         by (subst w2; destruct (_ && _); cbn; auto).
  all: destruct Hw2 as (Hrm2 & Hmt2 & Hop2 & Hst2 & Hcd2).
  all: assert (Hold : default [] (w_files w2 !! dest) = default [] (w_files w !! dest)).
  all: try (subst w2; destruct (0 <=? fd); cbn [andb]; [|now rewrite Hfiles];
            case_bool_decide as Hsome; cbn [negb];
            [now rewrite Hfiles
            |cbn [set_files w_files]; rewrite lookup_insert_eq;
             apply eq_None_not_Some in Hsome; now rewrite Hsome]).
  all: assert (Hins : forall x, <[dest := x]> (w_files w2) = <[dest := x]> (w_files w)).
  all: try (intros x; subst w2; destruct (_ && _); cbn [set_files w_files];
            [apply insert_insert_eq|now rewrite Hfiles]).
  all: destruct (Z.ltb_spec 0 fd) as [Hfd|Hfd].
  all: try (rewrite Hrm2; unfold writer_start;
            destruct (cairo_surface_write_to_png_stream calls final png_writer _)
              as [status info];
            cbn [fst snd]; rewrite Hold, Hins;
            destruct (is_success status); cbn [negb set_room set_files w_files
              w_mtime w_open w_stack_mtime w_cache_directory w_room];
            rewrite ?delete_insert_eq; auto 10).
  all: split; [reflexivity|].
  all: split; [|auto 10].
  all: clear Hrm2 Hmt2 Hop2 Hst2 Hcd2 Hold Hins; subst w2; clearbody fd.
  all: destruct (Z.eqb_spec fd 0) as [->|E0].
  all: try (change (0 <=? 0) with true; cbn [andb]; destruct (negb _);
            cbn [set_files w_files]; congruence).
  all: replace (0 <=? fd) with false by (symmetry; apply Z.leb_gt; lia).
  all: cbn [andb]; exact Hfiles.
Qed.

Lemma store_thumbnail_rejects (file : file_t) (t : surface) (w : world) :
  level_of t = None \/ get_local_filename file = None ->
  store_thumbnail file t w = (false, w).
Proof.
  unfold store_thumbnail, level_of. cbv zeta.
  destruct ((surface_width t =? 256) || (surface_height t =? 256));
    [|destruct ((surface_width t =? 128) || (surface_height t =? 128))];
    intros [H|H]; try discriminate; try reflexivity; now rewrite H.
Qed.

Lemma emit_all_from_start (uri mtime : list Z) (calls : list (list Z)) :
  emit_all uri mtime 0 calls
  = if (33 <=? length (concat calls))%nat then splice uri mtime (concat calls)
    else concat calls.
Proof.
  destruct (Nat.leb_spec 33 (length (concat calls))) as [H|H].
  - now rewrite emit_all_inject by (unfold inject_pos; simpl; lia).
  - now rewrite emit_all_passthrough by (unfold inject_pos; simpl; lia).
Qed.

(** X16.  A file without a local name is not cached.  For an image that
    is held in memory, or whose file name and display name end in
    different base names (a page of a document, a member of an archive),
    or for which there is no local path, [load_thumbnail_from_cache]
    returns FALSE without trying a candidate and
    [store_thumbnail_to_cache] returns FALSE; neither changes anything. *)
Theorem no_local_name_no_cache (file : file_t) (width height : Z) (w : world) :
  Z.land (file_flags file) FILE_FLAGS_MEMORY_IMAGE <> 0
  \/ after_last_separator (file_name file) <> after_last_separator (display_name file)
  \/ gfile_path (file_name file) = None ->
  load_thumbnail_from_cache file width height w = ([], [], Returns (false, file, w))
  /\ (forall t, thumbnail file = Some t ->
        store_thumbnail_to_cache file w = Some (false, w)).
Proof.
  intros Hwhy.
  assert (Hnone : get_local_filename file = None).
  { unfold get_local_filename.
    destruct (Z.eqb_spec (Z.land (file_flags file) FILE_FLAGS_MEMORY_IMAGE) 0) as [E|E];
      cbn [negb]; [|reflexivity].
    case_bool_decide as Eb; cbn [negb]; [|reflexivity].
    destruct Hwhy as [H|[H|H]]; [contradiction|contradiction|exact H]. }
  split.
  - unfold load_thumbnail_from_cache. rewrite Hnone. now destruct (_ || _).
  - intros t Ht. unfold store_thumbnail_to_cache. rewrite Ht.
    now rewrite store_thumbnail_rejects by auto.
Qed.

(** X17.  [store_thumbnail_to_cache] touches one file at most: whatever
    the call returns, every file other than the destination of the
    thumbnail is as it was. *)
Theorem store_touches_only_destination (file : file_t) (w : world) (q : list Z) :
  (forall t p j, thumbnail file = Some t -> get_local_filename file = Some p ->
                 level_of t = Some j -> q <> destination w p j) ->
  match store_thumbnail_to_cache file w with
  | Some (_, w') => w_files w' !! q = w_files w !! q
  | None => thumbnail file = None
  end.
Proof.
  unfold store_thumbnail_to_cache.
  destruct (thumbnail file) as [t|]; [|reflexivity]. intros Hq.
  destruct (level_of t) as [j|] eqn:Hlevel;
    [|now rewrite store_thumbnail_rejects by auto].
  destruct (get_local_filename file) as [p|] eqn:Hlocal;
    [|now rewrite store_thumbnail_rejects by auto].
  specialize (Hq t p j eq_refl eq_refl Hlevel).
  destruct (png_encode t) as [calls final] eqn:Henc.
  pose proof (store_thumbnail_effect file t w p j calls final Hlevel Hlocal Henc) as He.
  cbv zeta in He. destruct (store_thumbnail file t w) as [b w'].
  destruct He as (_ & Hf & _). rewrite Hf.
  repeat match goal with |- context [if ?c then _ else _] => destruct c end;
    rewrite ?lookup_insert_ne, ?lookup_delete_ne by congruence; reflexivity.
Qed.

(** X18.  Without a descriptor above 0 nothing is written and the call
    returns TRUE all the same.  If [g_open] fails, the destination is as
    it was; if it returns descriptor 0, the file has been created, empty
    if it was not there before, and is left like that. *)
Theorem store_without_descriptor (file : file_t) (t : surface) (w : world)
    (p : list Z) (j : nat) :
  thumbnail file = Some t -> level_of t = Some j -> get_local_filename file = Some p ->
  let dest := destination w p j in
  w_open w dest <= 0 ->
  exists w',
    store_thumbnail_to_cache file w = Some (true, w')
    /\ w_files w' !! dest
       = if w_open w dest =? 0 then Some (default [] (w_files w !! dest))
         else w_files w !! dest.
Proof.
  intros Hthumb Hlevel Hlocal dest Hfd.
  destruct (png_encode t) as [calls final] eqn:Henc.
  pose proof (store_thumbnail_effect file t w p j calls final Hlevel Hlocal Henc) as He.
  cbv zeta in He. fold dest in He.
  unfold store_thumbnail_to_cache. rewrite Hthumb.
  destruct (store_thumbnail file t w) as [b w']. destruct He as (Hb & Hf & _).
  rewrite (proj2 (Z.ltb_ge 0 _) Hfd) in Hb, Hf. subst b.
  exists w'. split; [reflexivity|]. rewrite Hf.
  destruct (w_open w dest =? 0); cbn [andb]; [|reflexivity].
  case_bool_decide as Hs; cbn [negb].
  - destruct Hs as [old Hs]. now rewrite Hs.
  - rewrite lookup_insert_eq. apply eq_None_not_Some in Hs. now rewrite Hs.
Qed.

(** X19.  When the destination has been opened and the encoder fails or
    the device does not take the whole entry, the call returns FALSE and
    there is no file under the destination name afterwards, an entry that
    was there before the call included. *)
Theorem store_failure_removes_entry (file : file_t) (t : surface) (w : world)
    (p : list Z) (j : nat) (calls : list (list Z)) (final : cairo_status_t) :
  thumbnail file = Some t -> level_of t = Some j -> get_local_filename file = Some p ->
  png_encode t = (calls, final) ->
  let uri := B"file://" ++ p in
  let ms := printf_lu (stat_mtime w p) in
  let dest := destination w p j in
  let stream := concat calls in
  let needed :=
    (length stream
     + if (33 <=? length stream)%nat then 48 + length uri + length ms else 0)%nat in
  0 < w_open w dest ->
  final <> CAIRO_STATUS_SUCCESS \/ (w_room w < needed)%nat ->
  exists w',
    store_thumbnail_to_cache file w = Some (false, w')
    /\ w_files w' !! dest = None.
Proof.
  intros Hthumb Hlevel Hlocal Henc uri ms dest stream needed Hfd Hfail.
  pose proof (store_thumbnail_effect file t w p j calls final Hlevel Hlocal Henc) as He.
  cbv zeta in He. fold uri ms dest in He.
  unfold store_thumbnail_to_cache. rewrite Hthumb.
  destruct (store_thumbnail file t w) as [b w']. destruct He as (Hb & Hf & _).
  rewrite (proj2 (Z.ltb_lt 0 _) Hfd) in Hb, Hf.
  unfold writer_start in Hb, Hf.
  rewrite stream_status, length_emit_all in Hb, Hf.
  fold stream needed in Hb, Hf.
  assert (Hs : is_success (if (needed <=? w_room w)%nat then final
                           else CAIRO_STATUS_WRITE_ERROR) = false).
  { destruct (Nat.leb_spec needed (w_room w)); [|reflexivity].
    destruct Hfail as [Hfinal|Hroom]; [|lia]. now destruct final. }
  rewrite Hs in Hb, Hf. subst b. exists w'. split; [reflexivity|].
  rewrite Hf. apply lookup_delete_eq.
Qed.

(** X20.  A successful store writes in place.  With the destination open,
    the encoder succeeding and room for the entry, the call returns TRUE
    and the destination holds the entry (the stream with the two chunks
    spliced in, or the bare stream if it is shorter than 33 bytes)
    followed by whatever an older file had beyond the entry's length: the
    file is not truncated. *)
Theorem store_overwrites_in_place (file : file_t) (t : surface) (w : world)
    (p : list Z) (j : nat) (calls : list (list Z)) :
  thumbnail file = Some t -> level_of t = Some j -> get_local_filename file = Some p ->
  png_encode t = (calls, CAIRO_STATUS_SUCCESS) ->
  let uri := B"file://" ++ p in
  let ms := printf_lu (stat_mtime w p) in
  let dest := destination w p j in
  let stream := concat calls in
  let entry := if (33 <=? length stream)%nat then splice uri ms stream else stream in
  let old := default [] (w_files w !! dest) in
  0 < w_open w dest ->
  (length entry <= w_room w)%nat ->
  exists w' contents,
    store_thumbnail_to_cache file w = Some (true, w')
    /\ w_files w' !! dest = Some contents
    /\ contents = entry ++ drop (length entry) old
    /\ length contents = (length entry `max` length old)%nat.
Proof.
  intros Hthumb Hlevel Hlocal Henc uri ms dest stream entry old Hfd Hroom.
  pose proof (store_thumbnail_effect file t w p j calls _ Hlevel Hlocal Henc) as He.
  cbv zeta in He. fold uri ms dest old in He.
  unfold store_thumbnail_to_cache. rewrite Hthumb.
  destruct (store_thumbnail file t w) as [b w']. destruct He as (Hb & Hf & _).
  rewrite (proj2 (Z.ltb_lt 0 _) Hfd) in Hb, Hf.
  assert (Hentry : emit_all uri ms 0 calls = entry) by apply emit_all_from_start.
  unfold writer_start in Hb, Hf.
  rewrite stream_ok in Hb, Hf by (rewrite Hentry; exact Hroom).
  cbn [fst snd is_success output_file_fd of_written] in Hb, Hf.
  rewrite Hentry in Hf. cbn [app] in Hf. subst b.
  exists w', (entry ++ drop (length entry) old).
  split; [reflexivity|]. split; [rewrite Hf; apply lookup_insert_eq|].
  split; [reflexivity|]. rewrite length_app, length_drop. lia.
Qed.


End StoreEffect.

(** ** load_thumbnail_from_cache: hits, misses and the shared directory *)

Section LoadMore.
Import Crc CMem Scanner Chunks Writer Cache.
Context {ext : Externals}.

(** [load_thumbnail_from_cache] from the point where the local name is
    known and the request is small enough, the cache directory
    resolved. *)
Lemma load_resolved (file : file_t) (width height : Z) (w : world) (p : list Z) :
  get_local_filename file = Some p ->
  (256 <? width) || (256 <? height) = false ->
  let w1 := snd (get_thumbnail_cache_directory w) in
  let file_mtime := stat_mtime w p in
  let file_uri := B"file://" ++ p in
  let j := first_level width height in
  let shared := g_build_filename [g_path_get_dirname p; B".sh_thumbnails"] in
  load_thumbnail_from_cache file width height w
  = match search_cache (2 - j) j (md5_hex file_uri) file_uri file_mtime width height w1 with
    | (tried, Undefined why) => (tried, [], Undefined why)
    | (tried, Returns (Some thumbnail, w)) =>
        (tried, [], Returns (true, set_thumbnail file thumbnail, w))
    | (tried, Returns (None, w)) =>
        if g_file_test_is_dir w shared then
          match search_shared (2 - j) j shared (md5_hex (g_path_get_basename p)) w with
          | (tried', Undefined why) => (tried, tried', Undefined why)
          | (tried', Returns (Some thumbnail, w)) =>
              (tried, tried', Returns (true, set_thumbnail file thumbnail, w))
          | (tried', Returns (None, w)) => (tried, tried', Returns (false, file, w))
          end
        else (tried, [], Returns (false, file, w))
    end.
Proof.
  intros Hlocal Hsize. cbv zeta.
  unfold load_thumbnail_from_cache. rewrite Hlocal, Hsize.
  now rewrite search_cache_resolved by apply first_level_iterations.
Qed.

(** X22.  [load_thumbnail_from_cache] reads only.  Whenever it returns, no
    file has been created, changed or removed, and of [*file] nothing but
    the thumbnail has changed; on FALSE [*file] is as it was, on TRUE it
    has a thumbnail. *)
Theorem load_leaves_files_alone (file : file_t) (width height : Z) (w : world) :
  match load_thumbnail_from_cache file width height w with
  | (_, _, Returns (b, f, w')) =>
      w_files w' = w_files w
      /\ file_name f = file_name file /\ display_name f = display_name file
      /\ file_flags f = file_flags file
      /\ (b = false -> f = file)
      /\ (b = true -> thumbnail f <> None)
  | (_, _, Undefined _) => True
  end.
Proof.
  destruct ((256 <? width) || (256 <? height)) eqn:Hsize.
  { unfold load_thumbnail_from_cache. rewrite Hsize. repeat split; congruence. }
  destruct (get_local_filename file) as [p|] eqn:Hlocal.
  2:{ unfold load_thumbnail_from_cache. rewrite Hsize, Hlocal. repeat split; congruence. }
  rewrite (load_resolved file width height w p Hlocal Hsize). cbv zeta.
  pose proof (get_thumbnail_cache_directory_frame w) as Hframe.
  destruct (get_thumbnail_cache_directory w) as [dir w1]. cbn [snd].
  destruct Hframe as (Hdir & _ & Hfiles & Hmt & _ & Hrm & _).
  set (j := first_level width height).
  pose proof (search_cache_tried (2 - j) j (md5_hex (B"file://" ++ p)) (B"file://" ++ p)
                (stat_mtime w p) width height w1 dir Hdir) as Hs.
  destruct (search_cache _ _ _ _ _ _ _ _) as [tried r].
  destruct Hs as (_ & _ & Hw & _).
  destruct r as [[[t|] w2]|why]; [| |exact I].
  - rewrite (Hw _ _ eq_refl). cbn. repeat split; congruence.
  - rewrite (Hw _ _ eq_refl).
    destruct (g_file_test_is_dir w1 _); [|repeat split; congruence].
    pose proof (search_shared_tried (2 - j) j
                  (g_build_filename [g_path_get_dirname p; B".sh_thumbnails"])
                  (md5_hex (g_path_get_basename p)) w1) as Hsh.
    destruct (search_shared _ _ _ _ _) as [tried' [[[t|] w3]|why]]; [| |exact I].
    + destruct Hsh as (_ & _ & Hret). destruct (Hret _ _ eq_refl) as (? & _). discriminate.
    + destruct Hsh as (_ & _ & Hret). destruct (Hret _ _ eq_refl) as (_ & -> & _).
      repeat split; congruence.
Qed.

(** What a non-NULL result of [load_thumbnail] rests on. *)
Lemma load_thumbnail_some (w : world) (name uri : list Z) (mtime width height : Z)
    (t : surface) :
  load_thumbnail w name uri mtime width height = Returns (Some t) ->
  check_png_attributes w name uri mtime = Returns true
  /\ exists contents decoded,
       w_files w !! name = Some contents /\ png_decode contents = Some decoded
       /\ if (surface_width decoded =? width) || (surface_height decoded =? height)
          then t = decoded else scale_to_fit decoded width height = Some t.
Proof.
  unfold load_thumbnail.
  destruct (check_png_attributes w name uri mtime) as [[|]|]; try discriminate.
  destruct (w_files w !! name) as [contents|]; cbn [mbind option_bind]; [|discriminate].
  destruct (png_decode contents) as [decoded|] eqn:Ed; [|discriminate].
  intros H. split; [reflexivity|]. exists contents, decoded.
  split; [reflexivity|]. split; [exact Ed|].
  destruct (_ || _); congruence.
Qed.

Lemma load_thumbnail_files (w w1 : world) (name uri : list Z) (mtime width height : Z) :
  w_files w1 = w_files w ->
  load_thumbnail w1 name uri mtime width height
  = load_thumbnail w name uri mtime width height.
Proof. unfold load_thumbnail, check_png_attributes. now intros ->. Qed.

Lemma search_cache_hit_loaded (n j : nat) (md5 uri : list Z) (mtime width height : Z)
    (w : world) (dir : list Z) :
  w_cache_directory w = Some dir ->
  let '(tried, r) := search_cache n j md5 uri mtime width height w in
  forall t w', r = Returns (Some t, w') ->
    exists cand, last tried = Some cand
      /\ g_file_test_exists w cand = true
      /\ load_thumbnail w cand uri mtime width height = Returns (Some t).
Proof.
  intros Hdir. revert j. induction n as [|n IH]; intros j; [discriminate|].
  cbn [search_cache]. unfold get_thumbnail_cache_directory. rewrite Hdir.
  specialize (IH (S j)).
  destruct (search_cache n (S j) md5 uri mtime width height w) as [tried r].
  set (cand := candidate_name dir j md5).
  assert (Hrest : forall t w', r = Returns (Some t, w') ->
            exists c, last (cand :: tried) = Some c
              /\ g_file_test_exists w c = true
              /\ load_thumbnail w c uri mtime width height = Returns (Some t)).
  { intros t w' Hr. destruct (IH t w' Hr) as (c & Hc & Hv).
    exists c. split; [|exact Hv]. destruct tried; [discriminate|exact Hc]. }
  destruct (g_file_test_exists w cand) eqn:Ex; [|exact Hrest].
  destruct (load_thumbnail w cand uri mtime width height) as [[t|]|why] eqn:EL;
    [| exact Hrest | discriminate].
  intros t' w' [= <- _]. exists cand. auto.
Qed.

(** X23.  What a hit rests on.  When [load_thumbnail_from_cache] returns
    TRUE, both requested sides are at most 256, the last candidate tried
    is a file of the requested tier order whose contents
    [check_png_attributes] accepts for the file's URI and the mtime that
    [stat] left behind, and the thumbnail set is the surface decoded from
    that file, as it is if its width or its height is the requested one
    and scaled otherwise. *)
Theorem load_hit_is_validated (file : file_t) (width height : Z) (w : world)
    (p : list Z) :
  get_local_filename file = Some p ->
  let uri := B"file://" ++ p in
  let mtime := stat_mtime w p in
  let dir := fst (get_thumbnail_cache_directory w) in
  let '(tried, tried_shared, r) := load_thumbnail_from_cache file width height w in
  forall f w', r = Returns (true, f, w') ->
    width <= 256 /\ height <= 256
    /\ exists cand t contents decoded,
         last tried = Some cand
         /\ cand ∈ tier_order width height dir (md5_hex uri)
         /\ w_files w !! cand = Some contents
         /\ check_png_stream contents uri mtime = Returns true
         /\ png_decode contents = Some decoded
         /\ (if (surface_width decoded =? width) || (surface_height decoded =? height)
             then t = decoded else scale_to_fit decoded width height = Some t)
         /\ f = set_thumbnail file t.
Proof.
  intros Hlocal uri mtime dir.
  destruct ((256 <? width) || (256 <? height)) eqn:Hsize.
  { unfold load_thumbnail_from_cache. rewrite Hsize. discriminate. }
  rewrite (load_resolved file width height w p Hlocal Hsize). cbv zeta.
  apply orb_false_elim in Hsize as [Hw256 Hh256].
  apply Z.ltb_ge in Hw256, Hh256.
  rewrite <- candidates_tier_order. fold uri mtime. subst dir.
  pose proof (get_thumbnail_cache_directory_frame w) as Hframe.
  destruct (get_thumbnail_cache_directory w) as [dir w1]. cbn [fst snd].
  destruct Hframe as (Hdir & _ & Hfiles & _).
  set (j := first_level width height).
  pose proof (search_cache_tried (2 - j) j (md5_hex uri) uri mtime width height w1 dir Hdir)
    as Hs.
  pose proof (search_cache_hit_loaded (2 - j) j (md5_hex uri) uri mtime width height w1 dir
                Hdir) as Hh.
  destruct (search_cache _ _ _ _ _ _ _ _) as [tried r].
  destruct Hs as (Hpre & _ & Hw & _).
  destruct r as [[[t|] w2]|why]; [| |discriminate].
  - intros f w' [= <- _]. split; [exact Hw256|]. split; [exact Hh256|].
    destruct (Hh t w2 eq_refl) as (cand & Hlast & _ & Hload).
    rewrite (load_thumbnail_files w w1) in Hload by exact Hfiles.
    apply load_thumbnail_some in Hload as (Hcheck & contents & decoded & Hc & Hd & Ht).
    exists cand, t, contents, decoded.
    split; [exact Hlast|]. split.
    { apply last_Some_elem_of in Hlast.
      destruct Hpre as [k ->]. apply elem_of_app. now left. }
    split; [exact Hc|]. split.
    { unfold check_png_attributes in Hcheck. now rewrite Hc in Hcheck. }
    auto.
  - rewrite (Hw _ _ eq_refl).
    destruct (g_file_test_is_dir w1 _); [|discriminate].
    pose proof (search_shared_tried (2 - j) j
                  (g_build_filename [g_path_get_dirname p; B".sh_thumbnails"])
                  (md5_hex (g_path_get_basename p)) w1) as Hsh.
    destruct (search_shared _ _ _ _ _) as [tried' [[[t|] w3]|why]]; try discriminate.
    destruct Hsh as (_ & _ & Hret). destruct (Hret _ _ eq_refl) as (? & _). discriminate.
Qed.

Lemma search_shared_result (n j : nat) (dir md5 : list Z) (w : world) :
  snd (search_shared n j dir md5 w)
  = if existsb (g_file_test_exists w) (candidates dir md5 j n)
    then Undefined UseAfterFree else Returns (None, w).
Proof.
  revert j. induction n as [|n IH]; intros j; [reflexivity|].
  cbn [search_shared]. specialize (IH (S j)).
  change (candidates dir md5 j (S n))
    with (candidate_name dir j md5 :: candidates dir md5 (S j) n).
  cbn [existsb].
  destruct (g_file_test_exists w (candidate_name dir j md5)); [reflexivity|].
  destruct (search_shared n (S j) dir md5 w) as [tried r]. exact IH.
Qed.

(** X24.  After a miss in the cache directory.  When no candidate there
    validates, the call returns FALSE unless the shared directory
    .sh_thumbnails exists next to the file and holds a candidate of the
    tier order; in that case [load_thumbnail] is called with
    [file_basename], which has been passed to [g_free] before the loop,
    and the call has no defined result. *)
Theorem load_after_cache_miss (file : file_t) (width height : Z) (w : world)
    (p : list Z) :
  get_local_filename file = Some p ->
  width <= 256 -> height <= 256 ->
  let uri := B"file://" ++ p in
  let mtime := stat_mtime w p in
  let dir := fst (get_thumbnail_cache_directory w) in
  let w1 := snd (get_thumbnail_cache_directory w) in
  let shared := g_build_filename [g_path_get_dirname p; B".sh_thumbnails"] in
  let md5_basename := md5_hex (g_path_get_basename p) in
  (forall cand, cand ∈ tier_order width height dir (md5_hex uri) ->
     check_png_attributes w cand uri mtime = Returns false) ->
  snd (load_thumbnail_from_cache file width height w)
  = if g_file_test_is_dir w1 shared
       && existsb (g_file_test_exists w1) (tier_order width height shared md5_basename)
    then Undefined UseAfterFree
    else Returns (false, file, w1).
Proof.
  intros Hlocal Hw Hh uri mtime dir w1 shared md5_basename Hmiss.
  assert (Hsize : (256 <? width) || (256 <? height) = false).
  { apply orb_false_intro; apply Z.ltb_ge; assumption. }
  rewrite (load_resolved file width height w p Hlocal Hsize). cbv zeta.
  fold uri mtime shared md5_basename w1.
  rewrite <- !candidates_tier_order in *.
  pose proof (get_thumbnail_cache_directory_frame w) as Hframe.
  subst dir w1. destruct (get_thumbnail_cache_directory w) as [dir w1]. cbn [fst snd] in *.
  destruct Hframe as (Hdir & _ & Hfiles & _).
  set (j := first_level width height) in *.
  pose proof (search_cache_tried (2 - j) j (md5_hex uri) uri mtime width height w1 dir Hdir)
    as Hs.
  destruct (search_cache _ _ _ _ _ _ _ _) as [tried r].
  destruct Hs as (_ & _ & _ & _ & Hnone).
  rewrite Hnone.
  2:{ intros cand Hc. apply load_thumbnail_invalid.
      rewrite (check_png_attributes_files w w1) by exact Hfiles. now apply Hmiss. }
  destruct (g_file_test_is_dir w1 shared); cbn [andb]; [|reflexivity].
  pose proof (search_shared_result (2 - j) j shared md5_basename w1) as Hsh.
  destruct (search_shared _ _ _ _ _) as [tried' r']. cbn [snd] in Hsh. subst r'.
  now destruct (existsb _ _).
Qed.





End LoadMore.

Section StoreLoadExamples.
Import Crc CMem Scanner Chunks Writer Cache Examples.

Lemma no_local_name_no_cache_witness :
  load_thumbnail_from_cache (ext := toy) pasted 128 128 world0
  = ([], [], Returns (false, pasted, world0))
  /\ store_thumbnail_to_cache (ext := toy) pasted world0 = Some (false, world0).
Proof.
  destruct (no_local_name_no_cache (ext := toy) pasted 128 128 world0) as [H1 H2].
  - left. vm_compute. discriminate.
  - split; [exact H1|]. exact (H2 thumb128 eq_refl).
Defined.

Lemma store_touches_only_destination_witness :
  match store_thumbnail_to_cache (ext := toy) pic128 world0 with
  | Some (_, w') =>
      w_files w' !! B"/home/u/pic.jpg" = w_files world0 !! B"/home/u/pic.jpg"
  | None => thumbnail pic128 = None
  end.
Proof.
  apply (store_touches_only_destination (ext := toy) pic128 world0 B"/home/u/pic.jpg").
  intros t p j [= <-] [= <-] [= <-]. vm_compute. discriminate.
Defined.

Lemma store_without_descriptor_witness :
  exists w',
    store_thumbnail_to_cache (ext := toy) pic128 world_fd0 = Some (true, w')
    /\ w_files w' !! normal_entry = Some [].
Proof.
  destruct (store_without_descriptor (ext := toy) pic128 thumb128 world_fd0
              B"/home/u/pic.jpg" 1 eq_refl eq_refl eq_refl ltac:(vm_compute; discriminate))
    as (w' & H1 & H2).
  exists w'. split; [exact H1|exact H2].
Defined.

Lemma store_failure_removes_entry_witness :
  exists w',
    store_thumbnail_to_cache (ext := toy) pic128 world_full = Some (false, w')
    /\ w_files w' !! normal_entry = None.
Proof.
  refine (store_failure_removes_entry (ext := toy) pic128 thumb128 world_full
            B"/home/u/pic.jpg" 1 toy_png_calls CAIRO_STATUS_SUCCESS
            eq_refl eq_refl eq_refl eq_refl eq_refl _).
  right. vm_compute. lia.
Defined.

Lemma store_overwrites_in_place_witness :
  exists w' contents,
    store_thumbnail_to_cache (ext := toy) pic128 world_old_entry = Some (true, w')
    /\ w_files w' !! normal_entry = Some contents
    /\ drop 200 contents = replicate 100 7.
Proof.
  destruct (store_overwrites_in_place (ext := toy) pic128 thumb128 world_old_entry
              B"/home/u/pic.jpg" 1 toy_png_calls eq_refl eq_refl eq_refl eq_refl
              eq_refl ltac:(vm_compute; lia))
    as (w' & contents & H1 & H2 & H3 & _).
  exists w', contents. split; [exact H1|]. split; [exact H2|].
  rewrite H3. vm_compute. reflexivity.
Defined.

Lemma load_hit_is_validated_witness :
  exists contents,
    w_files world_cached !! normal_entry = Some contents
    /\ check_png_stream contents B"file:///home/u/pic.jpg" 1700000000 = Returns true.
Proof.
  pose proof (load_hit_is_validated (ext := toy) pic 64 64 world_cached
                B"/home/u/pic.jpg" eq_refl) as H.
  cbv zeta in H.
  assert (Et : tier_order 64 64 (fst (get_thumbnail_cache_directory (ext := toy) world_cached))
                 (@md5_hex toy (B"file://" ++ B"/home/u/pic.jpg"))
               = [normal_entry]) by (vm_compute; reflexivity).
  assert (Em : stat_mtime world_cached B"/home/u/pic.jpg" = 1700000000)
    by (vm_compute; reflexivity).
  rewrite Et, Em in H.
  assert (E : match snd (load_thumbnail_from_cache (ext := toy) pic 64 64 world_cached) with
              | Returns (true, _, _) => true
              | _ => false
              end = true) by (vm_compute; reflexivity).
  destruct (load_thumbnail_from_cache (ext := toy) pic 64 64 world_cached)
    as [[tried ts] [[[[|] f] w']|why]]; cbn [snd] in E; try discriminate E.
  destruct (H f w' eq_refl) as (_ & _ & cand & t & contents & decoded
                                & _ & Hc & Hf & Hv & _).
  apply list_elem_of_singleton in Hc. subst cand.
  exists contents. split; [exact Hf|exact Hv].
Defined.

Lemma load_after_cache_miss_witness :
  snd (load_thumbnail_from_cache (ext := toy) pic 64 64 world_shared)
  = Undefined UseAfterFree.
Proof.
  rewrite (load_after_cache_miss (ext := toy) pic 64 64 world_shared B"/home/u/pic.jpg"
             eq_refl ltac:(lia) ltac:(lia)).
  - vm_compute. reflexivity.
  - intros cand Hc. apply list_elem_of_singleton in Hc. subst cand.
    vm_compute. reflexivity.
Defined.



End StoreLoadExamples.
